(** * super-bookmarks: the search core

    A shallow embedding of [lib/embeddings/embedding-client.js] (the
    request bookkeeping of [EmbeddingClient] and the class [VectorSearch]),
    of the record-store operations of [lib/db/migrations.js] that the
    searches and the views call, of the search view ([parseSearchQuery],
    [handleSearch], the selection and the delete and export handlers) and
    of the string and time functions of [utils/formatters.js].

    Conventions of the embedding.
    - A JavaScript number is a real number: rounding, overflow and NaN are
      outside the model.  Counts and array positions are natural numbers.
    - A JavaScript string is a [string] of ASCII characters.
    - An [async] method is a function of the store and of the state of the
      [VectorSearch] object; a rejected promise is a [Throw].  The store
      does not change while a method runs and its requests do not fail.
    - A [Map] is an association list in insertion order, as its iteration
      order is observable in the results.
    - [Array.prototype.sort] is the stable sort that the language
      prescribes for a consistent comparator.
    - A regular expression built from a keyword is modelled on a fragment
      of the pattern syntax (module [RegExp]); outside it the functions
      that depend on the pattern answer [None].
    - A timestamp is an integer, and the promise of a request to the
      worker is named by the id of the request. *)

From Stdlib Require Import Reals Lra Lia List String Ascii Bool Arith Permutation Sorted.
From Stdlib Require OrdersEx ZArith DecimalString.
Import ListNotations.

Set Implicit Arguments.

(** ** JavaScript values *)

Inductive exn : Type :=
| Error (message : string)
| SyntaxError (message : string).

Inductive result (A : Type) : Type :=
| Ok (a : A)
| Throw (e : exn).

Arguments Ok {A} a.
Arguments Throw {A} e.

Definition bind {A B : Type} (r : result A) (k : A -> result B) : result B :=
  match r with
  | Ok a => k a
  | Throw e => Throw e
  end.

(** Comparisons of numbers, as the booleans JavaScript computes. *)

Definition Rgeb (x y : R) : bool := if Rge_dec x y then true else false.
Definition Rgtb (x y : R) : bool := if Rgt_dec x y then true else false.
Definition Reqb (x y : R) : bool := if Req_dec_T x y then true else false.

Module JSString.

Local Open Scope string_scope.

(** [c.toLowerCase()] on an ASCII character. *)
Definition lowerChar (c : ascii) : ascii :=
  let n := nat_of_ascii c in
  if andb (Nat.leb 65 n) (Nat.leb n 90) then ascii_of_nat (n + 32) else c.

Fixpoint toLowerCase (s : string) : string :=
  match s with
  | EmptyString => EmptyString
  | String c s' => String (lowerChar c) (toLowerCase s')
  end.

(** [s.includes(sub)]: [sub] occurs in [s] as a substring. *)
Fixpoint includes (s sub : string) : bool :=
  if String.prefix sub s then true
  else match s with
       | EmptyString => false
       | String _ s' => includes s' sub
       end.

(** [parts.join(sep)]. *)
Fixpoint join (sep : string) (parts : list string) : string :=
  match parts with
  | [] => ""
  | [p] => p
  | p :: rest => p ++ sep ++ join sep rest
  end.

(** White space as [\s] and [trim] see it, and the line terminators that
    [.] refuses. *)
Definition isSpace (c : ascii) : bool :=
  let n := nat_of_ascii c in
  orb (Nat.eqb n 32) (andb (Nat.leb 9 n) (Nat.leb n 13)).

Definition isLineTerminator (c : ascii) : bool :=
  let n := nat_of_ascii c in
  orb (Nat.eqb n 10) (Nat.eqb n 13).

Fixpoint trimStart (s : string) : string :=
  match s with
  | EmptyString => EmptyString
  | String c s' => if isSpace c then trimStart s' else s
  end.

Fixpoint trimEnd (s : string) : string :=
  match s with
  | EmptyString => EmptyString
  | String c s' =>
      match trimEnd s' with
      | EmptyString => if isSpace c then EmptyString else String c EmptyString
      | t => String c t
      end
  end.

Definition trim (s : string) : string := trimEnd (trimStart s).

(** [s.split(/\s+/)]: the fields between the maximal runs of white space;
    a leading or a trailing run leaves an empty field at that end.
    [cur] is the field being read, [inRun] tells that the previous
    character was white space. *)
Fixpoint splitFrom (cur : string) (inRun : bool) (s : string) : list string :=
  match s with
  | EmptyString => [cur]
  | String c s' =>
      if isSpace c
      then (if inRun then splitFrom cur true s' else cur :: splitFrom "" true s')
      else splitFrom (cur ++ String c "") false s'
  end.

Definition splitSpaces (s : string) : list string := splitFrom "" false s.

End JSString.

Module JSArray.

(** [arr.includes(x)] on an array of strings. *)
Definition includes (arr : list string) (x : string) : bool :=
  existsb (String.eqb x) arr.

(** [arr.slice(0, n)] for a count [n]. *)
Definition slice0 {A : Type} (n : nat) (arr : list A) : list A := firstn n arr.

(** [arr.sort(cmp)] for a comparator into the numbers.  The sort is stable:
    an element moves behind a later one only when [cmp] is positive on
    them. *)
Fixpoint insert {A : Type} (cmp : A -> A -> R) (x : A) (sorted : list A) : list A :=
  match sorted with
  | [] => [x]
  | y :: rest => if Rgtb (cmp x y) 0 then y :: insert cmp x rest else x :: sorted
  end.

Definition sort {A : Type} (cmp : A -> A -> R) (arr : list A) : list A :=
  fold_right (insert cmp) [] arr.

(** [arr.map(f).filter(x => x !== null)]. *)
Fixpoint filterMap {A B : Type} (f : A -> option B) (arr : list A) : list B :=
  match arr with
  | [] => []
  | x :: rest =>
      match f x with
      | Some y => y :: filterMap f rest
      | None => filterMap f rest
      end
  end.

End JSArray.

Module JSMap.

(** A [Map] with string keys: the entries in insertion order.  [set] on a
    key that is present replaces the value where it stands. *)
Definition t (V : Type) : Type := list (string * V).

Fixpoint set {V : Type} (m : t V) (k : string) (v : V) : t V :=
  match m with
  | [] => [(k, v)]
  | (k', v') :: rest =>
      if String.eqb k k' then (k, v) :: rest else (k', v') :: set rest k v
  end.

Fixpoint get {V : Type} (m : t V) (k : string) : option V :=
  match m with
  | [] => None
  | (k', v') :: rest => if String.eqb k k' then Some v' else get rest k
  end.

Definition keys {V : Type} (m : t V) : list string := map fst m.
Definition values {V : Type} (m : t V) : list V := map snd m.

End JSMap.

(** ** The record store *)

Record Note : Type := mkNote {
  id : string;
  title : string;
  content : string;
  tags : list string
}.

Record EmbeddingRecord : Type := mkEmbedding {
  noteId : string;
  vector : list R;
  modelVersion : string
}.

(** A note with the score a search attached to it: [{...note, score}]. *)
Record ScoredNote : Type := mkScored {
  note : Note;
  score : R
}.

Module Database.

(** The two object stores the search core reads.  [notes] lists the notes
    store in the order of the cursor that [getAllNotes] opens (index
    [byUpdatedAt], direction [prev]); [embeddings] lists the embeddings
    store in the order of its cursor. *)
Record t : Type := mk {
  notes : list Note;
  embeddings : list EmbeddingRecord
}.

Definition getNote (db : t) (key : string) : option Note :=
  find (fun n => String.eqb (id n) key) (notes db).

Definition getAllNotes (db : t) (limit : nat) : list Note :=
  firstn limit (notes db).

Definition getEmbedding (db : t) (key : string) : option EmbeddingRecord :=
  find (fun e => String.eqb (noteId e) key) (embeddings db).

Definition getAllEmbeddings (db : t) : JSMap.t EmbeddingRecord :=
  fold_left (fun cache e => JSMap.set cache (noteId e) e) (embeddings db) [].

Definition deleteEmbedding (db : t) (key : string) : t :=
  mk (notes db)
     (filter (fun e => negb (String.eqb (noteId e) key)) (embeddings db)).

(** The key path of the notes store is [id]: no two records share one. *)
Definition uniqueIds (db : t) : Prop := NoDup (map id (notes db)).

(** [deleteNote]: the note and its embedding leave their stores. *)
Definition deleteNote (db : t) (key : string) : t :=
  mk (filter (fun n => negb (String.eqb (id n) key)) (notes db))
     (filter (fun e => negb (String.eqb (noteId e) key)) (embeddings db)).

(** The cursor of [getAllNotes] with its two counters: [skipped] notes
    passed over so far and the [results] read so far.  The cursor stops
    at the end of the store or when [results] holds [limit] notes. *)
Fixpoint cursorLoop (limit offset : nat) (cursor : list Note) (skipped : nat)
         (results : list Note) : list Note :=
  match cursor with
  | [] => results
  | value :: rest =>
      if Nat.leb limit (List.length results) then results
      else if Nat.ltb skipped offset
           then cursorLoop limit offset rest (S skipped) results
           else cursorLoop limit offset rest skipped (results ++ [value])
  end.

(** [getAllNotes({limit, offset})] in the default order. *)
Definition getAllNotesPaged (db : t) (limit offset : nat) : list Note :=
  cursorLoop limit offset (notes db) 0 [].

(** [store.put(record)] on the embeddings store, whose records stand in
    the order of their keys: the record takes the place of the one with
    its key, or its place in the order. *)
Fixpoint putEmbedding (e : EmbeddingRecord) (store : list EmbeddingRecord)
  : list EmbeddingRecord :=
  match store with
  | [] => [e]
  | x :: rest =>
      match OrdersEx.String_as_OT.compare (noteId e) (noteId x) with
      | Eq => e :: rest
      | Lt => e :: store
      | Gt => x :: putEmbedding e rest
      end
  end.

Definition saveEmbedding (db : t) (key : string) (v : list R) (model : string) : t :=
  mk (notes db) (putEmbedding (mkEmbedding key v model) (embeddings db)).

(** The embeddings store holds one record per key. *)
Definition uniqueEmbeddings (db : t) : Prop := NoDup (map noteId (embeddings db)).

(** The records of the embeddings store stand in the strict order of
    their keys, as its cursor reads them. *)
Definition keyOrdered (db : t) : Prop :=
  StronglySorted (fun a b => OrdersEx.String_as_OT.lt (noteId a) (noteId b))
                 (embeddings db).

End Database.

(** ** The embedding client

    [EmbeddingClient] numbers its requests to the worker and keeps, in
    [pendingRequests], the two callbacks of the promise of each request
    that has no answer yet.  An entry is modelled by its key: its callbacks
    settle the promise that [sendMessage] returned for that id, so a
    settlement is an event that names the id.  The progress callback is
    left out: the messages that only call it change nothing here. *)

Module EmbeddingClient.

(** What a request is resolved with. *)
Inductive value : Type :=
| Loaded
| Embedding (embedding : list R)
| Embeddings (embeddings : list (list R))
| Payload (payload : string).

(** The messages of the worker, by their [type]; [Other] is any other
    type, for which the [switch] has no case.  An [id] that the worker
    left out is one that is not pending. *)
Inductive message : Type :=
| WORKER_READY
| PROGRESS
| BATCH_PROGRESS
| MODEL_LOADED (id : nat)
| EMBEDDING_RESULT (id : nat) (embedding : list R)
| BATCH_RESULT (id : nat) (embeddings : list (list R))
| PONG (id : nat) (payload : string)
| ERROR (id : nat) (text : string)
| Other.

Inductive event : Type :=
| Posted (type : string) (id : nat)
| Resolved (id : nat) (result : value)
| Rejected (id : nat) (error : exn).

Record t : Type := mk {
  worker : bool;
  isLoaded : bool;
  isLoading : bool;
  pendingRequests : list nat;
  requestId : nat
}.

Definition new : t := mk false false false [] 0.

Definition initWorker (c : t) : t :=
  if worker c then c
  else mk true (isLoaded c) (isLoading c) (pendingRequests c) (requestId c).

(** [pendingRequests.get(id)] finds an entry. *)
Definition has (pending : list nat) (id : nat) : bool :=
  existsb (Nat.eqb id) pending.

(** [pendingRequests.set(id, ...)] and [pendingRequests.delete(id)]. *)
Definition set (pending : list nat) (id : nat) : list nat :=
  if has pending id then pending else pending ++ [id].

Definition delete (pending : list nat) (id : nat) : list nat :=
  filter (fun k => negb (Nat.eqb k id)) pending.

Definition sendMessage (c : t) (type : string) : t * list event :=
  let c1 := initWorker c in
  let id := S (requestId c1) in
  (mk (worker c1) (isLoaded c1) (isLoading c1) (set (pendingRequests c1) id) id,
   [Posted type id]).

Definition resolveRequest (c : t) (id : nat) (result : value) : t * list event :=
  if has (pendingRequests c) id
  then (mk (worker c) (isLoaded c) (isLoading c) (delete (pendingRequests c) id)
           (requestId c),
        [Resolved id result])
  else (c, []).

Definition rejectRequest (c : t) (id : nat) (error : exn) : t * list event :=
  if has (pendingRequests c) id
  then (mk (worker c) (isLoaded c) (isLoading c) (delete (pendingRequests c) id)
           (requestId c),
        [Rejected id error])
  else (c, []).

Definition onmessage (c : t) (m : message) : t * list event :=
  match m with
  | WORKER_READY => (c, [])
  | PROGRESS => (c, [])
  | BATCH_PROGRESS => (c, [])
  | MODEL_LOADED id =>
      resolveRequest (mk (worker c) true false (pendingRequests c) (requestId c))
                     id Loaded
  | EMBEDDING_RESULT id embedding => resolveRequest c id (Embedding embedding)
  | BATCH_RESULT id embeddings => resolveRequest c id (Embeddings embeddings)
  | PONG id payload => resolveRequest c id (Payload payload)
  | ERROR id text => rejectRequest c id (Error text)
  | Other => (c, [])
  end.

Definition onerror (c : t) : t :=
  mk (worker c) (isLoaded c) false (pendingRequests c) (requestId c).

Definition terminate (c : t) : t :=
  mk false false false [] (requestId c).

(** What happens to a client, one call at a time. *)
Inductive action : Type :=
| SendMessage (type : string)
| OnMessage (m : message)
| OnError
| Terminate.

Definition step (c : t) (a : action) : t * list event :=
  match a with
  | SendMessage type => sendMessage c type
  | OnMessage m => onmessage c m
  | OnError => (onerror c, [])
  | Terminate => (terminate c, [])
  end.

Fixpoint run (c : t) (actions : list action) : t * list event :=
  match actions with
  | [] => (c, [])
  | a :: rest =>
      let '(c1, events) := step c a in
      let '(c2, later) := run c1 rest in
      (c2, events ++ later)
  end.

(** The ids of the requests posted, and of the requests settled, in the
    order of the events. *)
Fixpoint postedIds (log : list event) : list nat :=
  match log with
  | [] => []
  | Posted _ id :: rest => id :: postedIds rest
  | _ :: rest => postedIds rest
  end.

Fixpoint settledIds (log : list event) : list nat :=
  match log with
  | [] => []
  | Posted _ _ :: rest => settledIds rest
  | Resolved id _ :: rest => id :: settledIds rest
  | Rejected id _ :: rest => id :: settledIds rest
  end.

(** The pending requests are distinct and were numbered by this client. *)
Definition wellFormed (c : t) : Prop :=
  NoDup (pendingRequests c)
  /\ forall id, In id (pendingRequests c) -> (1 <= id <= requestId c)%nat.

(** The account of a run from [c] to [c'] with the events [log]: the
    requests posted got the next numbers, no request was settled twice,
    each one settled was pending at the start or was posted in the run and
    is pending no more, and what is pending at the end was pending at the
    start or was posted in the run. *)
Definition accounts (c c' : t) (log : list event) : Prop :=
  wellFormed c'
  /\ postedIds log = seq (S (requestId c)) (requestId c' - requestId c)
  /\ (requestId c <= requestId c')%nat
  /\ NoDup (settledIds log)
  /\ (forall id, In id (settledIds log) ->
        (In id (pendingRequests c) \/ In id (postedIds log))
        /\ ~ In id (pendingRequests c'))
  /\ (forall id, In id (pendingRequests c') ->
        In id (pendingRequests c) \/ In id (postedIds log)).

End EmbeddingClient.

(** ** Vector search *)

Module VectorSearch.

(** The fields of the object: [embeddingCache] is [null] until the first
    refresh. *)
Record t : Type := mk {
  embeddingCache : option (JSMap.t EmbeddingRecord);
  cacheValid : bool
}.

Definition new : t := mk None false.

Record SearchOptions : Type := mkOptions {
  limit : nat;
  threshold : R;
  tagFilter : option (list string);
  excludeIds : list string
}.

Definition defaultOptions : SearchOptions := mkOptions 20 (3 / 10) None [].

Definition DimensionMismatch : exn := Error "Vectors must have the same length".

(** The three sums of the loop of [cosineSimilarity], one step per index. *)
Definition accumulate (acc : R * R * R) (xy : R * R) : R * R * R :=
  let '(dotProduct, normA, normB) := acc in
  let '(x, y) := xy in
  (dotProduct + x * y, normA + x * x, normB + y * y)%R.

Definition cosineSimilarity (a b : list R) : result R :=
  if negb (Nat.eqb (List.length a) (List.length b)) then Throw DimensionMismatch
  else
    let '(dotProduct, normA, normB) :=
      fold_left accumulate (combine a b) (0, 0, 0)%R in
    let denominator := (sqrt normA * sqrt normB)%R in
    if Reqb denominator 0 then Ok 0%R
    else Ok (dotProduct / denominator)%R.

Definition refreshCache (db : Database.t) (vs : t) : t :=
  mk (Some (Database.getAllEmbeddings db)) true.

Definition invalidateCache (vs : t) : t :=
  mk (embeddingCache vs) false.

Definition warmUp (db : Database.t) (vs : t) : t :=
  if negb (cacheValid vs) then refreshCache db vs else vs.

(** The cache that [search] scans, after the refresh it may need. *)
Definition ensureCache (db : Database.t) (vs : t) : t :=
  match embeddingCache vs with
  | Some _ => if negb (cacheValid vs) then refreshCache db vs else vs
  | None => refreshCache db vs
  end.

Definition cacheOf (vs : t) : JSMap.t EmbeddingRecord :=
  match embeddingCache vs with
  | Some cache => cache
  | None => []
  end.

(** The loop over the cache: [results] is the array built so far. *)
Fixpoint scan (queryEmbedding : list R) (opts : SearchOptions)
         (cache : JSMap.t EmbeddingRecord) (results : list (string * R))
  : result (list (string * R)) :=
  match cache with
  | [] => Ok results
  | (key, embedding) :: rest =>
      if JSArray.includes (excludeIds opts) key
      then scan queryEmbedding opts rest results
      else
        match cosineSimilarity queryEmbedding (vector embedding) with
        | Throw e => Throw e
        | Ok s =>
            if Rgeb s (threshold opts)
            then scan queryEmbedding opts rest (results ++ [(key, s)])
            else scan queryEmbedding opts rest results
        end
  end.

(** What the scan keeps: the entries of the cache that are not excluded,
    with their similarity, when it reaches the threshold. *)
Definition kept (queryEmbedding : list R) (opts : SearchOptions)
           (cache : JSMap.t EmbeddingRecord) (r : string * R) : Prop :=
  ~ In (fst r) (excludeIds opts)
  /\ (snd r >= threshold opts)%R
  /\ exists e, In (fst r, e) cache
               /\ cosineSimilarity queryEmbedding (vector e) = Ok (snd r).

(** The keys of the cache are distinct. *)
Definition distinctKeys (vs : t) : Prop := NoDup (JSMap.keys (cacheOf vs)).

Definition byScoreDesc (a b : string * R) : R := (snd b - snd a)%R.

Definition hasMatchingTag (filterTerms : list string) (n : Note) : bool :=
  existsb
    (fun t =>
       JSArray.includes (map JSString.toLowerCase (tags n)) (JSString.toLowerCase t))
    filterTerms.

(** What one entry of [topResults] becomes: [None] is the [null] that the
    final filter removes. *)
Definition resolve (db : Database.t) (opts : SearchOptions) (r : string * R)
  : option ScoredNote :=
  match Database.getNote db (fst r) with
  | None => None
  | Some n =>
      match tagFilter opts with
      | Some (t :: ts) =>
          if hasMatchingTag (t :: ts) n then Some (mkScored n (snd r)) else None
      | _ => Some (mkScored n (snd r))
      end
  end.

Definition search (db : Database.t) (vs : t) (queryEmbedding : list R)
           (opts : SearchOptions) : t * result (list ScoredNote) :=
  let vs' := ensureCache db vs in
  (vs',
   match scan queryEmbedding opts (cacheOf vs') [] with
   | Throw e => Throw e
   | Ok results =>
       let topResults :=
         JSArray.slice0 (limit opts) (JSArray.sort byScoreDesc results) in
       Ok (JSArray.filterMap (resolve db opts) topResults)
   end).

Definition findSimilar (db : Database.t) (vs : t) (key : string) (lim : nat)
  : t * result (list ScoredNote) :=
  match Database.getEmbedding db key with
  | None => (vs, Ok [])
  | Some embedding =>
      search db vs (vector embedding)
             (mkOptions (lim + 1) (5 / 10) None [key])
  end.

Record CacheStats : Type := mkStats {
  isValid : bool;
  size : nat;
  memoryEstimate : nat
}.

Definition getCacheStats (vs : t) : CacheStats :=
  mkStats (cacheValid vs)
          (match embeddingCache vs with
           | Some cache => List.length cache
           | None => 0
           end)
          (match embeddingCache vs with
           | Some cache => List.length cache * 384 * 4
           | None => 0
           end).

(** A cache marked valid is there: this holds of a new object and every
    method keeps it. *)
Definition consistent (vs : t) : Prop :=
  cacheValid vs = true -> embeddingCache vs <> None.

End VectorSearch.

(** ** Regular expressions built from a keyword

    [keywordSearch] counts with [new RegExp(keyword, 'gi')]: the keyword is
    read as a pattern.  The embedding covers the patterns made of ordinary
    characters and of the wildcard [.], and the patterns that JavaScript
    refuses because a quantifier has nothing to repeat.  Every other pattern
    (groups, classes, escapes, anchors, alternatives, quantified atoms) is
    [Unmodelled]. *)

Module RegExp.

Inductive atom : Type :=
| Char (c : ascii)
| AnyChar.

Inductive compiled : Type :=
| Pattern (atoms : list atom)
| Invalid
| Unmodelled.

Definition isQuantifier (c : ascii) : bool :=
  orb (Ascii.eqb c "*") (orb (Ascii.eqb c "+") (Ascii.eqb c "?")).

Definition isOtherSyntax (c : ascii) : bool :=
  existsb (Ascii.eqb c)
    ["\"; "("; ")"; "["; "]"; "{"; "}"; "|"; "^"; "$"]%char.

(** What stands before the character being read. *)
Inductive before : Type :=
| Nothing
| AnAtom
| AQuantifier
| ALazyQuantifier.

(** [quantified] records that a legal quantifier was read: the pattern
    then leaves the fragment, unless a later quantifier makes it invalid. *)
Fixpoint parse (prev : before) (quantified : bool) (atoms : list atom)
         (source : string) : compiled :=
  match source with
  | EmptyString => if quantified then Unmodelled else Pattern atoms
  | String c rest =>
      if isQuantifier c then
        match prev with
        | Nothing => Invalid
        | AnAtom => parse AQuantifier true atoms rest
        | AQuantifier =>
            if Ascii.eqb c "?" then parse ALazyQuantifier true atoms rest
            else Invalid
        | ALazyQuantifier => Invalid
        end
      else if isOtherSyntax c then Unmodelled
      else if Ascii.eqb c "." then parse AnAtom quantified (atoms ++ [AnyChar]) rest
      else parse AnAtom quantified (atoms ++ [Char c]) rest
  end.

Definition compile (source : string) : compiled := parse Nothing false [] source.

(** One atom against one character, under the flag [i]. *)
Definition atomMatches (a : atom) (c : ascii) : bool :=
  match a with
  | Char p => Ascii.eqb (JSString.lowerChar p) (JSString.lowerChar c)
  | AnyChar => negb (JSString.isLineTerminator c)
  end.

Fixpoint matchesHere (atoms : list atom) (text : string) : bool :=
  match atoms with
  | [] => true
  | a :: atoms' =>
      match text with
      | EmptyString => false
      | String c text' => andb (atomMatches a c) (matchesHere atoms' text')
      end
  end.

(** The number of matches under the flag [g]: the scan resumes where the
    last match ended, one character further after an empty match.
    [skip] counts the characters still covered by the last match. *)
Fixpoint countFrom (atoms : list atom) (skip : nat) (text : string) : nat :=
  match text with
  | EmptyString =>
      match skip with
      | O => if matchesHere atoms text then 1 else 0
      | S _ => 0
      end
  | String _ text' =>
      match skip with
      | S k => countFrom atoms k text'
      | O =>
          if matchesHere atoms text
          then S (countFrom atoms (List.length atoms - 1) text')
          else countFrom atoms 0 text'
      end
  end.

Definition NothingToRepeat : exn := SyntaxError "Nothing to repeat".




(** [(text.match(new RegExp(source, 'gi')) || []).length]; [None] when the
    pattern is [Unmodelled]. *)
Definition matchCount (source text : string) : option (result nat) :=
  match compile source with
  | Pattern atoms => Some (Ok (countFrom atoms 0 text))
  | Invalid => Some (Throw NothingToRepeat)
  | Unmodelled => None
  end.

End RegExp.

(** ** Keyword, tag and hybrid search *)

Module Ranking.

Import VectorSearch.

Definition scoreDesc (a b : ScoredNote) : R := (score b - score a)%R.

(** The text that [keywordSearch] scans for a note. *)
Definition searchTextOf (n : Note) : string :=
  JSString.toLowerCase
    (title n ++ " " ++ content n ++ " " ++ JSString.join " " (tags n))%string.

(** The loop over the keywords for one note; [acc] is [score] so far.
    The outer [option] is [None] when a keyword is an [Unmodelled]
    pattern. *)
Fixpoint scoreKeywords (n : Note) (keywordLower : list string) (acc : R)
  : option (result R) :=
  match keywordLower with
  | [] => Some (Ok acc)
  | keyword :: rest =>
      match RegExp.matchCount keyword (searchTextOf n) with
      | None => None
      | Some (Throw e) => Some (Throw e)
      | Some (Ok matches) =>
          let acc1 := (acc + INR matches)%R in
          let acc2 :=
            if JSString.includes (JSString.toLowerCase (title n)) keyword
            then (acc1 + 2)%R else acc1 in
          let acc3 :=
            if existsb (fun t => JSString.includes (JSString.toLowerCase t) keyword)
                       (tags n)
            then (acc2 + 3 / 2)%R else acc2 in
          scoreKeywords n rest acc3
      end
  end.

(** [allNotes.map(note => ...)]: the notes in order, stopping at the first
    one whose scoring does not return. *)
Fixpoint scoreAll (keywordLower : list string) (allNotes : list Note)
  : option (result (list ScoredNote)) :=
  match allNotes with
  | [] => Some (Ok [])
  | n :: rest =>
      match scoreKeywords n keywordLower 0 with
      | None => None
      | Some (Throw e) => Some (Throw e)
      | Some (Ok s) =>
          match scoreAll keywordLower rest with
          | Some (Ok scored) => Some (Ok (mkScored n s :: scored))
          | other => other
          end
      end
  end.

Definition normalize (terms : nat) (item : ScoredNote) : ScoredNote :=
  mkScored (note item) (score item / INR terms).

Definition keywordSearch (db : Database.t) (keywords : list string) (lim : nat)
  : option (result (list ScoredNote)) :=
  match keywords with
  | [] => Some (Ok [])
  | _ =>
      let allNotes := Database.getAllNotes db 1000 in
      let keywordLower := map JSString.toLowerCase keywords in
      match scoreAll keywordLower allNotes with
      | Some (Ok scored) =>
          Some (Ok (map (normalize (List.length keywordLower))
                        (JSArray.slice0 lim
                           (JSArray.sort scoreDesc
                              (filter (fun item => Rgtb (score item) 0) scored)))))
      | other => other
      end
  end.

(** The two nested loops of [tagSearch] for one note. *)
Definition awardTag (term : string) (acc : R) (tag : string) : R :=
  if JSString.includes (JSString.toLowerCase tag) term
  then (acc + (if String.eqb (JSString.toLowerCase tag) term then 2 else 1))%R
  else acc.

Definition awardTerm (n : Note) (acc : R) (term : string) : R :=
  fold_left (awardTag term) (tags n) acc.

Definition tagScore (termLower : list string) (n : Note) : R :=
  fold_left (awardTerm n) termLower 0%R.

Definition tagSearch (db : Database.t) (tagTerms : list string) (lim : nat)
  : list ScoredNote :=
  match tagTerms with
  | [] => []
  | _ =>
      let allNotes := Database.getAllNotes db 1000 in
      let termLower := map JSString.toLowerCase tagTerms in
      let scored := map (fun n => mkScored n (tagScore termLower n)) allNotes in
      JSArray.slice0 lim
        (JSArray.sort scoreDesc (filter (fun item => Rgtb (score item) 0) scored))
  end.

Record HybridOptions : Type := mkHybrid {
  hLimit : nat;
  semanticWeight : R;
  keywordWeight : R;
  hThreshold : R
}.

Definition defaultHybrid : HybridOptions := mkHybrid 20 (7 / 10) (3 / 10) (3 / 10).

(** The contribution of the semantic result at position [index] among
    [total], and of the keyword result at position [index] among [total]. *)
Definition semanticContribution (o : HybridOptions) (raw : R) (index total : nat) : R :=
  (raw * semanticWeight o * (1 - INR index / INR total * (1 / 10)))%R.

Definition keywordContribution (o : HybridOptions) (index total : nat) : R :=
  ((1 - INR index / INR total) * keywordWeight o)%R.

(** [semanticResults.forEach((note, index) => scoreMap.set(...))]. *)
Fixpoint addSemantic (o : HybridOptions) (total index : nat)
         (semanticResults : list ScoredNote) (scoreMap : JSMap.t ScoredNote)
  : JSMap.t ScoredNote :=
  match semanticResults with
  | [] => scoreMap
  | r :: rest =>
      addSemantic o total (S index) rest
        (JSMap.set scoreMap (id (note r))
           (mkScored (note r) (semanticContribution o (score r) index total)))
  end.

(** [keywordResults.forEach((note, index) => ...)]: an entry that exists
    is updated where it stands. *)
Fixpoint addKeyword (o : HybridOptions) (total index : nat)
         (keywordResults : list ScoredNote) (scoreMap : JSMap.t ScoredNote)
  : JSMap.t ScoredNote :=
  match keywordResults with
  | [] => scoreMap
  | r :: rest =>
      let keywordScore := keywordContribution o index total in
      addKeyword o total (S index) rest
        (match JSMap.get scoreMap (id (note r)) with
         | Some existing =>
             JSMap.set scoreMap (id (note r))
               (mkScored (note existing) (score existing + keywordScore))
         | None =>
             JSMap.set scoreMap (id (note r)) (mkScored (note r) keywordScore)
         end)
  end.

Definition mergeScores (o : HybridOptions)
           (semanticResults keywordResults : list ScoredNote) : JSMap.t ScoredNote :=
  addKeyword o (List.length keywordResults) 0 keywordResults
    (addSemantic o (List.length semanticResults) 0 semanticResults []).

Definition rankMerged (o : HybridOptions) (scoreMap : JSMap.t ScoredNote)
  : list ScoredNote :=
  JSArray.slice0 (hLimit o) (JSArray.sort scoreDesc (JSMap.values scoreMap)).

(** The options of the semantic search that [hybridSearch] runs. *)
Definition semanticOptions (o : HybridOptions) : SearchOptions :=
  mkOptions (hLimit o * 2) (hThreshold o) None [].

Definition hybridSearch (db : Database.t) (vs : t) (queryEmbedding : list R)
           (keywords : list string) (o : HybridOptions)
  : t * option (result (list ScoredNote)) :=
  match search db vs queryEmbedding (semanticOptions o) with
  | (vs', Throw e) => (vs', Some (Throw e))
  | (vs', Ok semanticResults) =>
      (vs',
       match keywordSearch db keywords (hLimit o * 2) with
       | Some (Ok keywordResults) =>
           Some (Ok (rankMerged o (mergeScores o semanticResults keywordResults)))
       | other => other
       end)
  end.

End Ranking.

(** ** The query router of the search view *)

Module SearchView.

Import VectorSearch Ranking.

Inductive queryType : Type :=
| TagQuery
| KeywordQuery.

Record ParsedQuery : Type := mkParsed {
  type : queryType;
  terms : list string
}.

Fixpoint dropSpaces (s : string) : string :=
  match s with
  | EmptyString => EmptyString
  | String c s' => if JSString.isSpace c then dropSpaces s' else s
  end.

Fixpoint hasLineTerminator (s : string) : bool :=
  match s with
  | EmptyString => false
  | String c s' => orb (JSString.isLineTerminator c) (hasLineTerminator s')
  end.

Fixpoint lastChar (s : string) : option ascii :=
  match s with
  | EmptyString => None
  | String c EmptyString => Some c
  | String _ s' => lastChar s'
  end.

(** The group that [(.+)$] captures after [\s*]: the text after the white
    space when there is some, free of line terminators; when only white
    space follows [tag:], the pattern gives one character of it back. *)
Definition captureAfterTag (rest : string) : option string :=
  match dropSpaces rest with
  | EmptyString =>
      match lastChar rest with
      | Some c =>
          if JSString.isLineTerminator c then None else Some (String c EmptyString)
      | None => None
      end
  | body => if hasLineTerminator body then None else Some body
  end.

(** [query.match(/^tag:\s*(.+)$/i)], reduced to its first group. *)
Definition matchTag (query : string) : option string :=
  if String.eqb (JSString.toLowerCase (String.substring 0 4 query)) "tag:"
  then captureAfterTag (String.substring 4 (String.length query - 4) query)
  else None.

Definition parseSearchQuery (query : string) : ParsedQuery :=
  match matchTag query with
  | Some group =>
      mkParsed TagQuery
        (filter (fun t => Nat.ltb 0 (String.length t)) (JSString.splitSpaces group))
  | None =>
      mkParsed KeywordQuery
        (filter (fun w => Nat.ltb 1 (String.length w)) (JSString.splitSpaces query))
  end.

(** What the view shows when [handleSearch] is over. *)
Inductive rendering : Type :=
| Unchanged
| Results (results : list ScoredNote) (notice : option string)
| ErrorMessage (message : string).

Definition messageOf (e : exn) : string :=
  match e with
  | Error m => m
  | SyntaxError m => m
  end.

Definition render (notice : option string) (r : result (list ScoredNote)) : rendering :=
  match r with
  | Ok results => Results results notice
  | Throw e => ErrorMessage (messageOf e)
  end.

Definition tagNotice : string := "Searching tags only".
Definition fallbackNotice : string := "Using keyword search (AI model loading...)".

(** [embed] is the embedding provider: [None] is its [null].  The outer
    [option] of the result is [None] when a keyword is an [Unmodelled]
    pattern. *)
Definition handleSearch (embed : string -> option (list R)) (db : Database.t)
           (vs : VectorSearch.t) (inputValue : string)
  : VectorSearch.t * option rendering :=
  let query := JSString.trim inputValue in
  if Nat.ltb (String.length query) 2 then (vs, Some Unchanged)
  else
    let parsed := parseSearchQuery query in
    match type parsed with
    | TagQuery =>
        (vs, Some (render (Some tagNotice) (Ok (tagSearch db (terms parsed) 20))))
    | KeywordQuery =>
        match embed query with
        | Some embedding =>
            let '(vs', r) :=
              hybridSearch db vs embedding (terms parsed)
                           (mkHybrid 20 (7 / 10) (3 / 10) (3 / 10)) in
            (vs', option_map (render None) r)
        | None =>
            (vs, option_map (render (Some fallbackNotice))
                            (keywordSearch db (terms parsed) 20))
        end
    end.

(** The state that the handlers of the view read and write: the store and
    the search object of the controller, the results on display and the
    ids that are ticked. *)
Record View : Type := mkView {
  db : Database.t;
  vectorSearch : VectorSearch.t;
  results : list ScoredNote;
  selectedIds : list string
}.

Definition handleSelect (v : View) (key : string) (selected : bool) : View :=
  if andb selected (negb (JSArray.includes (selectedIds v) key))
  then mkView (db v) (vectorSearch v) (results v) (selectedIds v ++ [key])
  else if negb selected
       then mkView (db v) (vectorSearch v) (results v)
                   (filter (fun i => negb (String.eqb i key)) (selectedIds v))
       else v.

Definition handleDelete (v : View) (n : Note) : View :=
  mkView (Database.deleteNote (db v) (id n))
         (invalidateCache (vectorSearch v))
         (filter (fun r => negb (String.eqb (id (note r)) (id n))) (results v))
         (filter (fun i => negb (String.eqb i (id n))) (selectedIds v)).

(** [confirmed] is the answer to [confirm]. *)
Definition handleBulkDelete (v : View) (confirmed : bool) : View :=
  if negb confirmed then v
  else
    mkView (fold_left Database.deleteNote (selectedIds v) (db v))
           (invalidateCache (vectorSearch v))
           (filter (fun r => negb (JSArray.includes (selectedIds v) (id (note r))))
                   (results v))
           [].

(** The notes that [handleBulkExport] hands to the export view. *)
Definition handleBulkExport (v : View) : list Note :=
  JSArray.filterMap (Database.getNote (db v)) (selectedIds v).

End SearchView.

(** ** Formatting

    The functions of [utils/formatters.js] that work on strings and on
    whole numbers.  A timestamp is a whole number of milliseconds. *)

Module Formatters.

Local Open Scope string_scope.

(** A whole number in a template literal. *)
Definition showInt (n : Z) : string :=
  DecimalString.NilZero.string_of_int (Z.to_int n).

(** [now] is the value of [Date.now()]. *)
Definition formatRelativeTime (now timestamp : Z) : string :=
  let diff := (now - timestamp)%Z in
  let seconds := (diff / 1000)%Z in
  let minutes := (seconds / 60)%Z in
  let hours := (minutes / 60)%Z in
  let days := (hours / 24)%Z in
  let weeks := (days / 7)%Z in
  let months := (days / 30)%Z in
  let years := (days / 365)%Z in
  if (seconds <? 60)%Z then "just now"
  else if (minutes <? 60)%Z then showInt minutes ++ "m ago"
  else if (hours <? 24)%Z then showInt hours ++ "h ago"
  else if (days <? 7)%Z then showInt days ++ "d ago"
  else if (weeks <? 4)%Z then showInt weeks ++ "w ago"
  else if (months <? 12)%Z then showInt months ++ "mo ago"
  else showInt years ++ "y ago".

(** [text.slice(0, finish)]: a negative [finish] counts from the end. *)
Definition slice0 (text : string) (finish : Z) : string :=
  let len := Z.of_nat (String.length text) in
  let stop := if (finish <? 0)%Z then Z.max (len + finish) 0 else Z.min finish len in
  String.substring 0 (Z.to_nat stop) text.

Definition truncate (text : string) (maxLength : nat) : string :=
  if orb (String.eqb text "") (Nat.leb (String.length text) maxLength) then text
  else JSString.trim (slice0 text (Z.of_nat maxLength - 3)) ++ "...".

Definition formatTags (tags : list string) : string :=
  match tags with
  | [] => ""
  | _ => JSString.join " " (map (fun t => "#" ++ t) tags)
  end.

(** The characters of the class [[,\s]]. *)
Definition isTagSeparator (c : ascii) : bool :=
  orb (Ascii.eqb c ",") (JSString.isSpace c).

(** [input.split(/[,\s]+/)], read as [JSString.splitFrom]. *)
Fixpoint splitTagsFrom (cur : string) (inRun : bool) (s : string) : list string :=
  match s with
  | EmptyString => [cur]
  | String c s' =>
      if isTagSeparator c
      then (if inRun then splitTagsFrom cur true s' else cur :: splitTagsFrom "" true s')
      else splitTagsFrom (cur ++ String c "") false s'
  end.

(** [t.replace(/^#/, '')]. *)
Definition stripHash (t : string) : string :=
  match t with
  | EmptyString => t
  | String c rest => if Ascii.eqb c "#" then rest else t
  end.

(** [arr.indexOf(x)], counted from [i] at the head of [arr]; [None] is
    its -1. *)
Fixpoint indexOfFrom (i : nat) (arr : list string) (x : string) : option nat :=
  match arr with
  | [] => None
  | y :: rest => if String.eqb x y then Some i else indexOfFrom (S i) rest x
  end.

Definition indexOf (arr : list string) (x : string) : option nat :=
  indexOfFrom 0 arr x.

(** [arr.filter((t, i) => f(t, i))], for the elements from position [i]
    on. *)
Fixpoint filterIndexed (f : string -> nat -> bool) (i : nat) (arr : list string)
  : list string :=
  match arr with
  | [] => []
  | x :: rest =>
      if f x i then x :: filterIndexed f (S i) rest else filterIndexed f (S i) rest
  end.

Definition isFirst (arr : list string) (t : string) (i : nat) : bool :=
  match indexOf arr t with
  | Some j => Nat.eqb j i
  | None => false
  end.

Definition parseTags (input : string) : list string :=
  if String.eqb input "" then []
  else
    let cleaned :=
      map (fun t => JSString.toLowerCase (JSString.trim (stripHash t)))
          (splitTagsFrom "" false input) in
    let named := filter (fun t => Nat.ltb 0 (String.length t)) cleaned in
    filterIndexed (isFirst named) 0 named.

(** [s.replace(/\s+/g, ' ')]. *)
Fixpoint collapseFrom (inRun : bool) (s : string) : string :=
  match s with
  | EmptyString => EmptyString
  | String c s' =>
      if JSString.isSpace c
      then (if inRun then collapseFrom true s' else String " " (collapseFrom true s'))
      else String c (collapseFrom false s')
  end.

(** [s.lastIndexOf(' ')], counted from [i] at the head of [s]. *)
Fixpoint lastSpaceFrom (i : nat) (s : string) : option nat :=
  match s with
  | EmptyString => None
  | String c s' =>
      match lastSpaceFrom (S i) s' with
      | Some j => Some j
      | None => if Ascii.eqb c " " then Some i else None
      end
  end.

(** [lastSpace > maxLength * 0.8] is decided on whole numbers. *)
Definition generateExcerpt (content : string) (maxLength : nat) : string :=
  if String.eqb content "" then ""
  else
    let cleaned := JSString.trim (collapseFrom false content) in
    if Nat.leb (String.length cleaned) maxLength then cleaned
    else
      let truncated := String.substring 0 maxLength cleaned in
      match lastSpaceFrom 0 truncated with
      | Some lastSpace =>
          if Nat.ltb (4 * maxLength) (5 * lastSpace)
          then String.substring 0 lastSpace truncated ++ "..."
          else truncated ++ "..."
      | None => truncated ++ "..."
      end.

End Formatters.

(** ** The properties in the words of the specification *)

Module Spec.

Definition Rsum (l : list R) : R := fold_right Rplus 0%R l.

Definition dot (a b : list R) : R :=
  Rsum (map (fun xy => (fst xy * snd xy)%R) (combine a b)).

Definition norm (a : list R) : R :=
  sqrt (Rsum (map (fun x => (x * x)%R) a)).

(** The occurrences of [needle] in [hay], case put aside, counted from
    left to right without overlap. *)
Fixpoint occurrencesFrom (needle : string) (skip : nat) (hay : string) : nat :=
  match hay with
  | EmptyString =>
      match skip with
      | O => if String.prefix needle hay then 1 else 0
      | S _ => 0
      end
  | String _ hay' =>
      match skip with
      | S k => occurrencesFrom needle k hay'
      | O =>
          if String.prefix needle hay
          then S (occurrencesFrom needle (String.length needle - 1) hay')
          else occurrencesFrom needle 0 hay'
      end
  end.

Definition occurrences (needle hay : string) : nat :=
  occurrencesFrom (JSString.toLowerCase needle) 0 (JSString.toLowerCase hay).

Definition contains (s sub : string) : bool :=
  JSString.includes (JSString.toLowerCase s) (JSString.toLowerCase sub).

(** Keyword search: occurrences in title, content and tags, 2 more for
    the title, 1.5 more for a tag. *)
Definition keywordTermScore (n : Note) (term : string) : R :=
  (INR (occurrences term
          (title n ++ " " ++ content n ++ " " ++ JSString.join " " (tags n))%string)
   + (if contains (title n) term then 2 else 0)
   + (if existsb (fun t => contains t term) (tags n) then 3 / 2 else 0))%R.

Definition keywordScore (terms : list string) (n : Note) : R :=
  Rsum (map (keywordTermScore n) terms).

Definition keywordSearch (db : Database.t) (terms : list string) (lim : nat)
  : list ScoredNote :=
  match terms with
  | [] => []
  | _ =>
      map (fun item => mkScored (note item) (score item / INR (List.length terms)))
        (firstn lim
           (JSArray.sort Ranking.scoreDesc
              (filter (fun item => Rgtb (score item) 0)
                 (map (fun n => mkScored n (keywordScore terms n))
                      (Database.getAllNotes db 1000)))))
  end.

(** Tag search: 2 for a tag equal to the term, 1 for a tag that merely
    contains it. *)
Definition tagAward (term tag : string) : R :=
  if String.eqb (JSString.toLowerCase tag) (JSString.toLowerCase term) then 2%R
  else if contains tag term then 1%R
  else 0%R.

Definition tagScore (terms : list string) (n : Note) : R :=
  Rsum (map (fun term => Rsum (map (tagAward term) (tags n))) terms).

(** The scanned notes with a positive tag score, then the highest [lim]
    of them from the highest score. *)
Definition tagCandidates (db : Database.t) (terms : list string) : list ScoredNote :=
  filter (fun item => Rgtb (score item) 0)
    (map (fun n => mkScored n (tagScore terms n)) (Database.getAllNotes db 1000)).

Definition tagSearch (db : Database.t) (terms : list string) (lim : nat)
  : list ScoredNote :=
  match terms with
  | [] => []
  | _ => firstn lim (JSArray.sort Ranking.scoreDesc (tagCandidates db terms))
  end.

(** The tag filter read as containment between strings: some tag
    contains some filter term. *)
Definition passesByContainment (filterTerms : list string) (n : Note) : bool :=
  existsb (fun t => existsb (fun tag => contains tag t) (tags n)) filterTerms.

(** The tag filter read as equality: some tag equals some filter term,
    case put aside. *)
Definition passesByEquality (filterTerms : list string) (n : Note) : Prop :=
  exists t tag, In t filterTerms /\ In tag (tags n) /\
                JSString.toLowerCase tag = JSString.toLowerCase t.

(** Sorted from the highest score to the lowest. *)
Definition descending (l : list ScoredNote) : Prop :=
  forall i j a b, i < j -> nth_error l i = Some a -> nth_error l j = Some b ->
                  (score b <= score a)%R.

(** The first entry of the note [key] in a result list, with its
    position counted from [index]. *)
Fixpoint lookupFrom (key : string) (index : nat) (l : list ScoredNote)
  : option (nat * ScoredNote) :=
  match l with
  | [] => None
  | x :: rest =>
      if String.eqb (id (note x)) key then Some (index, x)
      else lookupFrom key (S index) rest
  end.

Definition lookup (key : string) (l : list ScoredNote) : option (nat * ScoredNote) :=
  lookupFrom key 0 l.

(** The rank of the note [key] in a result list: 0 is the top. *)
Definition position (key : string) (l : list ScoredNote) : option nat :=
  option_map fst (lookup key l).

Definition ids (l : list ScoredNote) : list string := map (fun x => id (note x)) l.

(** The entries that a stable sort from the highest score puts before
    [x], when [pre] stands before it and [post] after it: those that
    score more, and those of [pre] that score as much. *)
Definition ahead (x : ScoredNote) (pre post : list ScoredNote) : nat :=
  List.length (filter (fun y => Rgeb (score y) (score x)) pre)
  + List.length (filter (fun y => Rgtb (score y) (score x)) post).

(** A tag as [parseTags] leaves it: not empty, without comma or white
    space, in lower case. *)
Fixpoint separatorFree (s : string) : bool :=
  match s with
  | EmptyString => true
  | String c s' => andb (negb (Formatters.isTagSeparator c)) (separatorFree s')
  end.

Definition normalTag (t : string) : Prop :=
  t <> EmptyString /\ separatorFree t = true /\ JSString.toLowerCase t = t.

(** A string without white space. *)
Fixpoint spaceFree (s : string) : bool :=
  match s with
  | EmptyString => true
  | String c s' => andb (negb (JSString.isSpace c)) (spaceFree s')
  end.

(** Each entry of the score map holds a note filed under its own id, taken
    from one of the two lists. *)
Definition filed (sem kws : list ScoredNote) (m : JSMap.t ScoredNote) : Prop :=
  forall k v, In (k, v) m ->
    id (note v) = k
    /\ exists r, In r (sem ++ kws) /\ note v = note r.

End Spec.

(** ** Stores used as examples *)

Module Examples.

Local Open Scope string_scope.
Local Open Scope R_scope.

(** Two notes with orthogonal embeddings. *)
Definition noteA : Note := mkNote "a" "Basics" "machine learning basics" ["ml"].
Definition noteB : Note := mkNote "b" "Recipes" "cooking pasta recipes" ["food"].

Definition twoNotes : Database.t :=
  Database.mk [noteA; noteB]
              [mkEmbedding "a" [1; 0] "all-MiniLM-L6-v2";
               mkEmbedding "b" [0; 1] "all-MiniLM-L6-v2"].

(** Three notes with one embedding. *)
Definition noteC : Note := mkNote "c" "Third" "more basics" [].

Definition threeAlike : Database.t :=
  Database.mk [noteA; noteB; noteC]
              [mkEmbedding "a" [1; 0] "all-MiniLM-L6-v2";
               mkEmbedding "b" [1; 0] "all-MiniLM-L6-v2";
               mkEmbedding "c" [1; 0] "all-MiniLM-L6-v2"].

(** Two notes about JavaScript. *)
Definition noteExact : Note := mkNote "exact" "Language" "notes" ["javascript"].
Definition noteFrameworks : Note :=
  mkNote "frameworks" "Libraries" "notes" ["javascript-frameworks"].

Definition javascriptNotes : Database.t :=
  Database.mk [noteFrameworks; noteExact]
              [mkEmbedding "exact" [1; 0] "all-MiniLM-L6-v2"].

(** Two tag filters for them. *)
Definition javaFilter : VectorSearch.SearchOptions :=
  VectorSearch.mkOptions 20 (3 / 10) (Some ["java"]) [].

Definition javascriptFilter : VectorSearch.SearchOptions :=
  VectorSearch.mkOptions 20 (3 / 10) (Some ["JavaScript"]) [].

(** Hybrid options that lower the threshold of the semantic search. *)
Definition negativeThreshold : Ranking.HybridOptions :=
  Ranking.mkHybrid 20 (7 / 10) (3 / 10) (-1).


(** A note about C++. *)
Definition notePrimer : Note := mkNote "primer" "C++ primer" "learn c++" [].

Definition primerOnly : Database.t := Database.mk [notePrimer] [].

End Examples.

(** * Proofs *)

Unset Implicit Arguments.
Local Open Scope R_scope.

(** ** Numbers *)

Lemma Rgeb_true (x y : R) : Rgeb x y = true <-> x >= y.
Proof. unfold Rgeb; destruct (Rge_dec x y); split; intros; auto; discriminate. Qed.

Lemma Rgeb_false (x y : R) : Rgeb x y = false <-> x < y.
Proof.
  unfold Rgeb; destruct (Rge_dec x y); split; intros; auto; try discriminate; lra.
Qed.

Lemma Rgtb_true (x y : R) : Rgtb x y = true <-> x > y.
Proof. unfold Rgtb; destruct (Rgt_dec x y); split; intros; auto; discriminate. Qed.

Lemma Rgtb_false (x y : R) : Rgtb x y = false <-> x <= y.
Proof.
  unfold Rgtb; destruct (Rgt_dec x y); split; intros; auto; try discriminate; lra.
Qed.

Lemma Reqb_true (x y : R) : Reqb x y = true <-> x = y.
Proof. unfold Reqb; destruct (Req_dec_T x y); split; intros; auto; discriminate. Qed.

Lemma Reqb_false (x y : R) : Reqb x y = false <-> x <> y.
Proof.
  unfold Reqb; destruct (Req_dec_T x y); split; intros; auto; try discriminate.
  contradiction.
Qed.

(** Decides the comparisons of numbers that stand in the goal. *)
Ltac decide_numbers :=
  repeat match goal with
         | |- context [Rgeb ?x ?y] =>
             first [ rewrite (proj2 (Rgeb_true x y)) by lra
                   | rewrite (proj2 (Rgeb_false x y)) by lra ]
         | |- context [Rgtb ?x ?y] =>
             first [ rewrite (proj2 (Rgtb_true x y)) by lra
                   | rewrite (proj2 (Rgtb_false x y)) by lra ]
         | |- context [Reqb ?x ?y] =>
             first [ rewrite (proj2 (Reqb_true x y)) by lra
                   | rewrite (proj2 (Reqb_false x y)) by lra ]
         end.

(** ** Cosine similarity *)

Section Cosine.

Import VectorSearch.

Lemma Rsum_squares_nonneg (a : list R) :
  0 <= Spec.Rsum (map (fun x => x * x) a).
Proof.
  induction a as [|x a IH]; simpl; [lra|].
  pose proof (Rle_0_sqr x) as Hx. unfold Rsqr in Hx. lra.
Qed.

(** The loop adds to its three accumulators the dot product and the two
    sums of squares. *)
Lemma accumulate_sums (a : list R) :
  forall (b : list R) (d na nb : R),
    List.length a = List.length b ->
    fold_left accumulate (combine a b) (d, na, nb)
    = (d + Spec.dot a b,
       na + Spec.Rsum (map (fun x => x * x) a),
       nb + Spec.Rsum (map (fun x => x * x) b)).
Proof.
  induction a as [|x a IH]; intros [|y b] d na nb Hlen; simpl in Hlen;
    try discriminate.
  - simpl. unfold Spec.dot. simpl. f_equal; [f_equal|]; lra.
  - injection Hlen as Hlen. simpl. rewrite IH by assumption.
    unfold Spec.dot. simpl. f_equal; [f_equal|]; lra.
Qed.

Lemma cosineSimilarity_equal_length (a b : list R) :
  List.length a = List.length b ->
  cosineSimilarity a b
  = Ok (if Reqb (Spec.norm a * Spec.norm b) 0 then 0
        else Spec.dot a b / (Spec.norm a * Spec.norm b)).
Proof.
  intros Hlen. unfold cosineSimilarity.
  rewrite Hlen, Nat.eqb_refl. simpl negb. cbv iota.
  rewrite (accumulate_sums a b 0 0 0 Hlen).
  rewrite !Rplus_0_l. fold (Spec.norm a) (Spec.norm b).
  destruct (Reqb (Spec.norm a * Spec.norm b) 0); reflexivity.
Qed.

Lemma cosineSimilarity_unequal_length (a b : list R) :
  List.length a <> List.length b ->
  cosineSimilarity a b = Throw DimensionMismatch.
Proof.
  intros Hlen. unfold cosineSimilarity.
  apply Nat.eqb_neq in Hlen. rewrite Hlen. reflexivity.
Qed.

(** C2: [cosineSimilarity] fails, with the dimension mismatch, exactly
    when the two vectors differ in length; on vectors of one length it
    returns the dot product over the product of the norms; and it returns
    0, without dividing, as soon as one of the norms is 0. *)
Theorem cosineSimilarity_contract (a b : list R) :
  (forall e, cosineSimilarity a b = Throw e
             <-> e = DimensionMismatch /\ List.length a <> List.length b)
  /\ (List.length a = List.length b ->
      Spec.norm a * Spec.norm b <> 0 ->
      cosineSimilarity a b = Ok (Spec.dot a b / (Spec.norm a * Spec.norm b)))
  /\ (List.length a = List.length b ->
      Spec.norm a = 0 \/ Spec.norm b = 0 ->
      cosineSimilarity a b = Ok 0).
Proof.
  split; [|split].
  - intros e. destruct (Nat.eq_dec (List.length a) (List.length b)) as [Heq|Hne].
    + rewrite (cosineSimilarity_equal_length a b Heq). split.
      * discriminate.
      * intros [_ Hne]. contradiction.
    + rewrite (cosineSimilarity_unequal_length a b Hne). split.
      * intros H. injection H as <-. auto.
      * intros [-> _]. reflexivity.
  - intros Hlen Hden. rewrite (cosineSimilarity_equal_length a b Hlen).
    apply Reqb_false in Hden. rewrite Hden. reflexivity.
  - intros Hlen Hzero. rewrite (cosineSimilarity_equal_length a b Hlen).
    assert (Hden : Spec.norm a * Spec.norm b = 0) by (destruct Hzero as [-> | ->]; lra).
    apply Reqb_true in Hden. rewrite Hden. reflexivity.
Qed.

Lemma norm_zero_vector : Spec.norm [0; 0] = 0.
Proof.
  unfold Spec.norm. simpl.
  replace (0 * 0 + (0 * 0 + 0)) with 0 by lra. apply sqrt_0.
Qed.

Lemma cosineSimilarity_contract_witness :
  cosineSimilarity [0; 0] [3; 4] = Ok 0.
Proof.
  apply (proj2 (proj2 (cosineSimilarity_contract [0; 0] [3; 4]))).
  - reflexivity.
  - left. exact norm_zero_vector.
Defined.

End Cosine.

(** ** Arrays and maps *)

Section Arrays.

Context {A : Type}.
Variable cmp : A -> A -> R.

Lemma insert_perm (x : A) (l : list A) :
  Permutation (x :: l) (JSArray.insert cmp x l).
Proof.
  induction l as [|y l IH]; simpl; [apply Permutation_refl|].
  destruct (Rgtb (cmp x y) 0).
  - apply perm_trans with (y :: x :: l); [apply perm_swap|].
    apply perm_skip, IH.
  - apply Permutation_refl.
Qed.

Lemma sort_perm (l : list A) : Permutation l (JSArray.sort cmp l).
Proof.
  induction l as [|x l IH]; simpl; [apply perm_nil|].
  apply perm_trans with (x :: JSArray.sort cmp l).
  - apply perm_skip, IH.
  - apply insert_perm.
Qed.

Lemma sort_In (x : A) (l : list A) : In x (JSArray.sort cmp l) <-> In x l.
Proof.
  split; apply Permutation_in;
    [apply Permutation_sym|]; apply sort_perm.
Qed.

Lemma sort_length (l : list A) : List.length (JSArray.sort cmp l) = List.length l.
Proof. symmetry. apply Permutation_length, sort_perm. Qed.

End Arrays.

Lemma slice0_In {A : Type} (n : nat) (l : list A) (x : A) :
  In x (JSArray.slice0 n l) -> In x l.
Proof.
  unfold JSArray.slice0. intros H.
  rewrite <- (firstn_skipn n l). apply in_or_app. left. exact H.
Qed.

Lemma slice0_length {A : Type} (n : nat) (l : list A) :
  (List.length (JSArray.slice0 n l) <= n)%nat.
Proof. apply firstn_le_length. Qed.

Lemma filterMap_length {A B : Type} (f : A -> option B) (l : list A) :
  (List.length (JSArray.filterMap f l) <= List.length l)%nat.
Proof.
  induction l as [|x l IH]; simpl; [lia|].
  destruct (f x); simpl; lia.
Qed.

Lemma filterMap_In {A B : Type} (f : A -> option B) (l : list A) (y : B) :
  In y (JSArray.filterMap f l) <-> exists x, In x l /\ f x = Some y.
Proof.
  induction l as [|x l IH]; simpl.
  - split; [contradiction | intros (x & [] & _)].
  - destruct (f x) as [z|] eqn:Hfx; simpl; rewrite IH; split.
    + intros [<- | (x' & Hin & Hx')]; eauto.
    + intros (x' & [<- | Hin] & Hx'); [left; congruence | right; eauto].
    + intros (x' & Hin & Hx'); eauto.
    + intros (x' & [<- | Hin] & Hx'); [congruence | eauto].
Qed.

Lemma includes_In (arr : list string) (x : string) :
  JSArray.includes arr x = true <-> In x arr.
Proof.
  unfold JSArray.includes. rewrite existsb_exists. split.
  - intros (y & Hin & Heq). apply String.eqb_eq in Heq. subst. exact Hin.
  - intros Hin. exists x. split; [exact Hin | apply String.eqb_refl].
Qed.

(** ** The scan of the cache *)

Section Scan.

Import VectorSearch.

Variable queryEmbedding : list R.
Variable opts : SearchOptions.

Lemma scan_accumulator (cache : JSMap.t EmbeddingRecord) :
  forall acc : list (string * R),
    scan queryEmbedding opts cache acc
    = bind (scan queryEmbedding opts cache []) (fun r => Ok (acc ++ r)).
Proof.
  induction cache as [|[key e] cache IH]; intros acc; simpl.
  - rewrite app_nil_r. reflexivity.
  - destruct (JSArray.includes (excludeIds opts) key); [apply IH|].
    destruct (cosineSimilarity queryEmbedding (vector e)) as [s|err];
      [|reflexivity].
    destruct (Rgeb s (threshold opts)); [|apply IH].
    rewrite (IH (acc ++ [(key, s)])), (IH [(key, s)]).
    destruct (scan queryEmbedding opts cache []) as [r|err]; simpl;
      [|reflexivity].
    rewrite <- app_assoc. reflexivity.
Qed.

Lemma scan_kept (cache : JSMap.t EmbeddingRecord) :
  forall results,
    scan queryEmbedding opts cache [] = Ok results ->
    (forall r, In r results -> kept queryEmbedding opts cache r)
    /\ (forall key, In key (map fst results) -> In key (JSMap.keys cache))
    /\ (NoDup (JSMap.keys cache) -> NoDup (map fst results)).
Proof.
  induction cache as [|[key e] cache IH]; intros results Hscan; simpl in Hscan.
  - injection Hscan as <-. split; [|split]; try contradiction. intros _. constructor.
  - assert (Hweaken : forall r, kept queryEmbedding opts cache r -> kept queryEmbedding opts ((key, e) :: cache) r).
    { intros r (Hex & Hth & e' & Hin & Hcos). repeat split; auto.
      exists e'. split; [right; exact Hin | exact Hcos]. }
    destruct (JSArray.includes (excludeIds opts) key) eqn:Hexcl.
    + destruct (IH results Hscan) as (Hk & Hkeys & Hnd). split; [|split].
      * intros r Hr. apply Hweaken, Hk, Hr.
      * intros k Hk'. right. apply Hkeys, Hk'.
      * intros Hd. apply Hnd. inversion Hd; assumption.
    + destruct (cosineSimilarity queryEmbedding (vector e)) as [s|err] eqn:Hcos;
        [|discriminate].
      destruct (Rgeb s (threshold opts)) eqn:Hth.
      * rewrite scan_accumulator in Hscan.
        destruct (scan queryEmbedding opts cache []) as [rest|err] eqn:Hrest;
          [|discriminate].
        simpl in Hscan. injection Hscan as <-.
        destruct (IH rest eq_refl) as (Hk & Hkeys & Hnd). split; [|split].
        -- intros r [<- | Hr]; [|apply Hweaken, Hk, Hr].
           split; [|split]; simpl.
           ++ intros Hin. apply includes_In in Hin. congruence.
           ++ apply Rgeb_true, Hth.
           ++ exists e. split; [left; reflexivity | exact Hcos].
        -- simpl. intros k [<- | Hk']; [left; reflexivity | right; apply Hkeys, Hk'].
        -- simpl. intros Hd. inversion Hd as [|? ? Hnotin Hd']; subst.
           constructor; [|apply Hnd, Hd'].
           intros Hin. apply Hnotin, Hkeys, Hin.
      * destruct (IH results Hscan) as (Hk & Hkeys & Hnd). split; [|split].
        -- intros r Hr. apply Hweaken, Hk, Hr.
        -- intros k Hk'. right. apply Hkeys, Hk'.
        -- intros Hd. apply Hnd. inversion Hd; assumption.
Qed.

End Scan.

(** A note that [resolve] returns is the record stored under the id of the
    entry, with the score of the entry. *)
Lemma resolve_Some (db : Database.t) (opts : VectorSearch.SearchOptions)
      (r : string * R) (sn : ScoredNote) :
  VectorSearch.resolve db opts r = Some sn ->
  Database.getNote db (fst r) = Some (note sn)
  /\ id (note sn) = fst r /\ score sn = snd r.
Proof.
  unfold VectorSearch.resolve.
  destruct (Database.getNote db (fst r)) as [n|] eqn:Hget; [|discriminate].
  assert (Hid : id n = fst r).
  { unfold Database.getNote in Hget. apply find_some in Hget.
    apply String.eqb_eq, Hget. }
  intros H.
  assert (Hsn : sn = mkScored n (snd r)).
  { destruct (VectorSearch.tagFilter opts) as [[|t ts]|];
      try (injection H as <-; reflexivity).
    destruct (VectorSearch.hasMatchingTag (t :: ts) n);
      [injection H as <-; reflexivity | discriminate]. }
  subst sn. simpl. auto.
Qed.

(** The results of [search] come from the scan of the cache: each is the
    stored note of an entry that the scan kept. *)
Lemma search_results (db : Database.t) (vs : VectorSearch.t) (q : list R)
      (opts : VectorSearch.SearchOptions) (results : list ScoredNote) :
  snd (VectorSearch.search db vs q opts) = Ok results ->
  (List.length results <= VectorSearch.limit opts)%nat
  /\ forall sn, In sn results ->
       VectorSearch.kept q opts
         (VectorSearch.cacheOf (VectorSearch.ensureCache db vs))
         (id (note sn), score sn)
       /\ Database.getNote db (id (note sn)) = Some (note sn).
Proof.
  unfold VectorSearch.search. simpl.
  destruct (VectorSearch.scan q opts _ []) as [found|err] eqn:Hscan; [|discriminate].
  intros H. injection H as <-.
  destruct (scan_kept q opts _ found Hscan) as (Hkept & _ & _).
  split.
  - eapply Nat.le_trans; [apply filterMap_length | apply slice0_length].
  - intros sn Hin. apply filterMap_In in Hin. destruct Hin as (r & Hr & Hres).
    apply resolve_Some in Hres. destruct Hres as (Hget & Hid & Hscore).
    apply slice0_In, sort_In in Hr.
    rewrite Hid, Hscore. split.
    + rewrite <- (surjective_pairing r). apply Hkept, Hr.
    + exact Hget.
Qed.

(** ** Search *)

Arguments VectorSearch.cosineSimilarity : simpl never.
Arguments Rgeb : simpl never.
Arguments Rgtb : simpl never.
Arguments Reqb : simpl never.

Lemma norm_e1 : Spec.norm [1; 0] = 1.
Proof.
  unfold Spec.norm. simpl.
  replace (1 * 1 + (0 * 0 + 0)) with 1 by lra. apply sqrt_1.
Qed.

Lemma norm_e2 : Spec.norm [0; 1] = 1.
Proof.
  unfold Spec.norm. simpl.
  replace (0 * 0 + (1 * 1 + 0)) with 1 by lra. apply sqrt_1.
Qed.

Lemma cosine_e1_e1 : VectorSearch.cosineSimilarity [1; 0] [1; 0] = Ok 1.
Proof.
  rewrite cosineSimilarity_equal_length by reflexivity.
  rewrite norm_e1. decide_numbers. f_equal. unfold Spec.dot. simpl. lra.
Qed.

Lemma cosine_e1_e2 : VectorSearch.cosineSimilarity [1; 0] [0; 1] = Ok 0.
Proof.
  rewrite cosineSimilarity_equal_length by reflexivity.
  rewrite norm_e1, norm_e2. decide_numbers. f_equal. unfold Spec.dot. simpl. lra.
Qed.

(** [search] returns a list as soon as the cached vectors that are not
    excluded have the length of the query. *)
Lemma scan_returns (q : list R) (opts : VectorSearch.SearchOptions)
      (cache : JSMap.t EmbeddingRecord) :
  (forall key e, In (key, e) cache -> ~ In key (VectorSearch.excludeIds opts) ->
                 List.length (vector e) = List.length q) ->
  forall acc, exists found, VectorSearch.scan q opts cache acc = Ok found.
Proof.
  induction cache as [|[key e] cache IH]; intros Hdim acc; simpl.
  - exists acc. reflexivity.
  - assert (Hrest : forall key' e', In (key', e') cache ->
                      ~ In key' (VectorSearch.excludeIds opts) ->
                      List.length (vector e') = List.length q).
    { intros key' e' Hin. apply Hdim. right. exact Hin. }
    destruct (JSArray.includes (VectorSearch.excludeIds opts) key) eqn:Hexcl;
      [apply IH, Hrest|].
    assert (Hlen : List.length q = List.length (vector e)).
    { symmetry. apply (Hdim key e); [left; reflexivity|].
      intros Hin. apply includes_In in Hin. congruence. }
    rewrite (cosineSimilarity_equal_length q (vector e) Hlen).
    destruct (Rgeb _ (VectorSearch.threshold opts)); apply IH, Hrest.
Qed.

Lemma search_returns (db : Database.t) (vs : VectorSearch.t) (q : list R)
      (opts : VectorSearch.SearchOptions) :
  (forall key e,
      In (key, e) (VectorSearch.cacheOf (VectorSearch.ensureCache db vs)) ->
      ~ In key (VectorSearch.excludeIds opts) ->
      List.length (vector e) = List.length q) ->
  exists results, snd (VectorSearch.search db vs q opts) = Ok results.
Proof.
  intros Hdim. unfold VectorSearch.search. simpl.
  destruct (scan_returns q opts _ Hdim []) as (found & Hscan).
  rewrite Hscan. eexists. reflexivity.
Qed.

(** C1: a list that [search] returns has at most [limit] entries, each with
    a score that reaches [threshold] and with an id outside [excludeIds]. *)
Theorem search_respects_options (db : Database.t) (vs : VectorSearch.t)
        (queryEmbedding : list R) (opts : VectorSearch.SearchOptions)
        (results : list ScoredNote) :
  snd (VectorSearch.search db vs queryEmbedding opts) = Ok results ->
  (List.length results <= VectorSearch.limit opts)%nat
  /\ forall sn, In sn results ->
       score sn >= VectorSearch.threshold opts
       /\ ~ In (id (note sn)) (VectorSearch.excludeIds opts).
Proof.
  intros H. apply search_results in H. destruct H as (Hlen & Hall).
  split; [exact Hlen|].
  intros sn Hin. destruct (Hall sn Hin) as ((Hexcl & Hth & _) & _).
  simpl in Hexcl, Hth. auto.
Qed.

(** On the store of two orthogonal notes, the query along the first one
    finds it alone. *)
Lemma search_twoNotes :
  snd (VectorSearch.search Examples.twoNotes VectorSearch.new [1; 0]
                           VectorSearch.defaultOptions)
  = Ok [mkScored Examples.noteA 1].
Proof.
  unfold VectorSearch.search. simpl.
  rewrite cosine_e1_e1. decide_numbers. simpl.
  rewrite cosine_e1_e2. decide_numbers. simpl.
  reflexivity.
Qed.

Lemma search_respects_options_witness :
  (List.length [mkScored Examples.noteA 1] <= 20)%nat
  /\ forall sn, In sn [mkScored Examples.noteA 1] ->
       score sn >= 3 / 10 /\ ~ In (id (note sn)) [].
Proof.
  exact (search_respects_options Examples.twoNotes VectorSearch.new [1; 0]
           VectorSearch.defaultOptions [mkScored Examples.noteA 1]
           search_twoNotes).
Defined.

(** ** Maps and the cache *)

Lemma set_keys {V : Type} (m : JSMap.t V) (k : string) (v : V) :
  JSMap.keys (JSMap.set m k v)
  = if JSArray.includes (JSMap.keys m) k then JSMap.keys m else JSMap.keys m ++ [k].
Proof.
  unfold JSMap.keys, JSArray.includes.
  induction m as [|[k' v'] m IH]; simpl; [reflexivity|].
  destruct (String.eqb k k') eqn:Hk; simpl.
  - apply String.eqb_eq in Hk. subst. reflexivity.
  - rewrite IH.
    destruct (existsb (String.eqb k) (map fst m)); reflexivity.
Qed.

Lemma set_NoDup {V : Type} (m : JSMap.t V) (k : string) (v : V) :
  NoDup (JSMap.keys m) -> NoDup (JSMap.keys (JSMap.set m k v)).
Proof.
  intros Hnd. rewrite set_keys.
  destruct (JSArray.includes (JSMap.keys m) k) eqn:Hin; [exact Hnd|].
  apply NoDup_app; [exact Hnd | repeat constructor; intros [] |].
  intros x Hx [<- | []].
  apply includes_In in Hx. congruence.
Qed.

Lemma set_In {V : Type} (m : JSMap.t V) (k : string) (v : V) (k' : string) (v' : V) :
  In (k', v') (JSMap.set m k v) -> (k', v') = (k, v) \/ In (k', v') m.
Proof.
  induction m as [|[k0 v0] m IH]; simpl.
  - intros [H | []]. left. symmetry. exact H.
  - destruct (String.eqb k k0); simpl.
    + intros [H | H]; [left; symmetry; exact H | right; right; exact H].
    + intros [H | H]; [right; left; exact H|].
      destruct (IH H); [left | right; right]; assumption.
Qed.

Section Cache.

Import VectorSearch.

Variable db : Database.t.

Lemma fold_set_NoDup (es : list EmbeddingRecord) :
  forall m : JSMap.t EmbeddingRecord,
    NoDup (JSMap.keys m) ->
    NoDup (JSMap.keys (fold_left (fun cache e => JSMap.set cache (noteId e) e) es m)).
Proof.
  induction es as [|e es IH]; intros m Hnd; simpl; [exact Hnd|].
  apply IH, set_NoDup, Hnd.
Qed.

Lemma fold_set_In (es : list EmbeddingRecord) :
  forall (m : JSMap.t EmbeddingRecord) (k : string) (e : EmbeddingRecord),
    In (k, e) (fold_left (fun cache e => JSMap.set cache (noteId e) e) es m) ->
    In (k, e) m \/ (In e es /\ noteId e = k).
Proof.
  induction es as [|e0 es IH]; intros m k e Hin; simpl in Hin; [left; exact Hin|].
  destruct (IH _ _ _ Hin) as [Hm | [He Hk]].
  - destruct (set_In _ _ _ _ _ Hm) as [Heq | Hm'].
    + injection Heq as -> ->. right. split; [left; reflexivity | reflexivity].
    + left. exact Hm'.
  - right. split; [right; exact He | exact Hk].
Qed.

(** The map that [getAllEmbeddings] builds has one entry per key, each a
    record of the store under its own key. *)
Lemma getAllEmbeddings_NoDup : NoDup (JSMap.keys (Database.getAllEmbeddings db)).
Proof. apply fold_set_NoDup. constructor. Qed.

Lemma getAllEmbeddings_In (k : string) (e : EmbeddingRecord) :
  In (k, e) (Database.getAllEmbeddings db) ->
  In e (Database.embeddings db) /\ noteId e = k.
Proof.
  intros H. apply fold_set_In in H. destruct H as [[] | H]. exact H.
Qed.

(** The keys of the cache are distinct: this holds of a new object and
    every method keeps it. *)
Lemma distinctKeys_new : distinctKeys new.
Proof. constructor. Qed.

Lemma distinctKeys_refreshCache (vs : t) : distinctKeys (refreshCache db vs).
Proof. apply getAllEmbeddings_NoDup. Qed.

Lemma distinctKeys_invalidateCache (vs : t) :
  distinctKeys vs -> distinctKeys (invalidateCache vs).
Proof. intros H. exact H. Qed.

Lemma distinctKeys_ensureCache (vs : t) :
  distinctKeys vs -> distinctKeys (ensureCache db vs).
Proof.
  intros H. unfold ensureCache.
  destruct (embeddingCache vs); [|apply distinctKeys_refreshCache].
  destruct (negb (cacheValid vs)); [apply distinctKeys_refreshCache | exact H].
Qed.

Lemma distinctKeys_search (vs : t) (q : list R) (opts : SearchOptions) :
  distinctKeys vs -> distinctKeys (fst (search db vs q opts)).
Proof. apply distinctKeys_ensureCache. Qed.

Lemma ensureCache_invalidateCache (vs : t) :
  ensureCache db (invalidateCache vs) = refreshCache db vs.
Proof.
  unfold ensureCache, invalidateCache. simpl.
  destruct (embeddingCache vs); reflexivity.
Qed.


End Cache.

(** After an embedding is deleted from the store and the cache invalidated,
    the next search does not return its note. *)
Lemma search_after_deleteEmbedding (db : Database.t) (vs : VectorSearch.t)
      (key : string) (q : list R) (opts : VectorSearch.SearchOptions)
      (results : list ScoredNote) :
  snd (VectorSearch.search (Database.deleteEmbedding db key)
                           (VectorSearch.invalidateCache vs) q opts) = Ok results ->
  forall sn, In sn results -> id (note sn) <> key.
Proof.
  intros H sn Hin Heq.
  apply search_results in H. destruct H as (_ & Hall).
  destruct (Hall sn Hin) as ((_ & _ & e & He & _) & _). simpl in He.
  rewrite ensureCache_invalidateCache in He. simpl in He.
  apply getAllEmbeddings_In in He. destruct He as (He & Hk).
  unfold Database.deleteEmbedding in He. simpl in He.
  apply filter_In in He. destruct He as (_ & Hne).
  rewrite Hk, Heq, String.eqb_refl in Hne. discriminate.
Qed.

(** ** Similar notes *)

(** A list that [findSimilar] returns has at most [limit + 1] entries, none
    of them the note itself, each with a similarity of 0.5 at least. *)
Lemma findSimilar_results (db : Database.t) (vs : VectorSearch.t) (key : string)
      (lim : nat) (results : list ScoredNote) :
  snd (VectorSearch.findSimilar db vs key lim) = Ok results ->
  (List.length results <= lim + 1)%nat
  /\ forall sn, In sn results -> id (note sn) <> key /\ score sn >= 5 / 10.
Proof.
  unfold VectorSearch.findSimilar.
  destruct (Database.getEmbedding db key) as [e|].
  - intros H. apply search_results in H. simpl in H.
    destruct H as (Hlen & Hall). split; [exact Hlen|].
    intros sn Hin. destruct (Hall sn Hin) as ((Hexcl & Hth & _) & _).
    simpl in Hexcl, Hth.
    split; [|exact Hth]. intros Heq. apply Hexcl. left. symmetry. exact Heq.
  - simpl. intros H. injection H as <-. split; [simpl; lia | contradiction].
Qed.

(** Without a stored embedding the answer is the empty list, and the object
    is left as it was. *)
Lemma findSimilar_no_embedding (db : Database.t) (vs : VectorSearch.t) (key : string)
      (lim : nat) :
  Database.getEmbedding db key = None ->
  VectorSearch.findSimilar db vs key lim = (vs, Ok []).
Proof. intros H. unfold VectorSearch.findSimilar. rewrite H. reflexivity. Qed.

(** C6, at the store of three notes with one embedding: asked for one
    note similar to the first, [findSimilar] returns the two others. *)
Theorem findSimilar_returns_one_more :
  snd (VectorSearch.findSimilar Examples.threeAlike VectorSearch.new "a" 1)
  = Ok [mkScored Examples.noteB 1; mkScored Examples.noteC 1].
Proof.
  unfold VectorSearch.findSimilar, VectorSearch.search. simpl.
  rewrite cosine_e1_e1. decide_numbers. simpl.
  unfold VectorSearch.byScoreDesc. simpl. decide_numbers.
  reflexivity.
Qed.

(** ** Resolution of the results *)

Lemma hasMatchingTag_equality (filterTerms : list string) (n : Note) :
  VectorSearch.hasMatchingTag filterTerms n = true
  <-> Spec.passesByEquality filterTerms n.
Proof.
  unfold VectorSearch.hasMatchingTag, Spec.passesByEquality.
  rewrite existsb_exists. split.
  - intros (t & Ht & Hincl). apply includes_In, in_map_iff in Hincl.
    destruct Hincl as (tag & Heq & Htag). exists t, tag. auto.
  - intros (t & tag & Ht & Htag & Heq). exists t. split; [exact Ht|].
    apply includes_In, in_map_iff. exists tag. auto.
Qed.

(** What [resolve] answers, case by case. *)
Lemma resolve_cases (db : Database.t) (opts : VectorSearch.SearchOptions)
      (r : string * R) (sn : ScoredNote) :
  VectorSearch.resolve db opts r = Some sn
  <-> Database.getNote db (fst r) = Some (note sn)
      /\ score sn = snd r
      /\ forall t ts, VectorSearch.tagFilter opts = Some (t :: ts) ->
                      Spec.passesByEquality (t :: ts) (note sn).
Proof.
  unfold VectorSearch.resolve. split.
  - destruct (Database.getNote db (fst r)) as [n|]; [|discriminate].
    destruct (VectorSearch.tagFilter opts) as [[|t ts]|].
    + intros H. injection H as <-. simpl. repeat split. discriminate.
    + destruct (VectorSearch.hasMatchingTag (t :: ts) n) eqn:Hm; [|discriminate].
      intros H. injection H as <-. simpl. repeat split.
      intros t' ts' Heq. injection Heq as <- <-.
      apply hasMatchingTag_equality, Hm.
    + intros H. injection H as <-. simpl. repeat split. discriminate.
  - intros (Hget & Hscore & Hfilter). rewrite Hget.
    destruct sn as [n s]. simpl in Hget, Hscore, Hfilter. simpl note. subst s.
    destruct (VectorSearch.tagFilter opts) as [[|t ts]|]; try reflexivity.
    specialize (Hfilter t ts eq_refl).
    apply hasMatchingTag_equality in Hfilter.
    rewrite Hfilter. reflexivity.
Qed.

(** C8, as the code has it: once the scan is over no error arises; the
    entries whose note is not in the store are dropped; and under a
    non-empty tag filter a note is kept exactly when one of its tags equals
    one of the filter terms, case put aside. *)
Theorem resolution_drops_and_filters (db : Database.t) (vs : VectorSearch.t)
        (q : list R) (opts : VectorSearch.SearchOptions) (found : list (string * R)) :
  VectorSearch.scan q opts (VectorSearch.cacheOf (VectorSearch.ensureCache db vs)) []
  = Ok found ->
  exists results,
    snd (VectorSearch.search db vs q opts) = Ok results
    /\ forall sn,
        In sn results
        <-> exists r,
            In r (JSArray.slice0 (VectorSearch.limit opts)
                    (JSArray.sort VectorSearch.byScoreDesc found))
            /\ Database.getNote db (fst r) = Some (note sn)
            /\ score sn = snd r
            /\ forall t ts, VectorSearch.tagFilter opts = Some (t :: ts) ->
                            Spec.passesByEquality (t :: ts) (note sn).
Proof.
  intros Hscan. unfold VectorSearch.search. simpl. rewrite Hscan.
  eexists. split; [reflexivity|].
  intros sn. rewrite filterMap_In. split.
  - intros (r & Hr & Hres). exists r. split; [exact Hr|].
    apply resolve_cases, Hres.
  - intros (r & Hr & Hrest). exists r. split; [exact Hr|].
    apply resolve_cases, Hrest.
Qed.

Lemma scan_javascriptNotes (opts : VectorSearch.SearchOptions) :
  VectorSearch.threshold opts = 3 / 10 ->
  VectorSearch.excludeIds opts = [] ->
  VectorSearch.scan [1; 0] opts
    (VectorSearch.cacheOf
       (VectorSearch.ensureCache Examples.javascriptNotes VectorSearch.new)) []
  = Ok [("exact"%string, 1)].
Proof.
  intros Hth Hex. simpl. rewrite Hex. simpl.
  rewrite cosine_e1_e1, Hth. decide_numbers. reflexivity.
Qed.

Lemma resolution_drops_and_filters_witness :
  exists results,
    snd (VectorSearch.search Examples.javascriptNotes VectorSearch.new [1; 0]
                             Examples.javascriptFilter) = Ok results
    /\ forall sn,
        In sn results
        <-> exists r,
            In r (JSArray.slice0 20
                    (JSArray.sort VectorSearch.byScoreDesc [("exact"%string, 1)]))
            /\ Database.getNote Examples.javascriptNotes (fst r) = Some (note sn)
            /\ score sn = snd r
            /\ forall t ts, Some ["JavaScript"%string] = Some (t :: ts) ->
                            Spec.passesByEquality (t :: ts) (note sn).
Proof.
  exact (resolution_drops_and_filters Examples.javascriptNotes VectorSearch.new
           [1; 0] Examples.javascriptFilter [("exact"%string, 1)]
           (scan_javascriptNotes Examples.javascriptFilter eq_refl eq_refl)).
Defined.

(** The note tagged [javascript] has a tag that contains the filter term
    [java], and the search under that filter drops it. *)
Lemma tagFilter_is_not_containment :
  Spec.passesByContainment ["java"%string] Examples.noteExact = true
  /\ Database.getNote Examples.javascriptNotes "exact" = Some Examples.noteExact
  /\ VectorSearch.resolve Examples.javascriptNotes Examples.javaFilter ("exact"%string, 1) = None
  /\ snd (VectorSearch.search Examples.javascriptNotes VectorSearch.new [1; 0] Examples.javaFilter)
     = Ok [].
Proof.
  split; [reflexivity|]. split; [reflexivity|]. split; [reflexivity|].
  unfold VectorSearch.search. rewrite scan_javascriptNotes by reflexivity.
  reflexivity.
Qed.

(** Under the filter [JavaScript] the same note is returned. *)
Lemma tagFilter_ignores_case :
  snd (VectorSearch.search Examples.javascriptNotes VectorSearch.new [1; 0]
                           Examples.javascriptFilter)
  = Ok [mkScored Examples.noteExact 1].
Proof.
  unfold VectorSearch.search. rewrite scan_javascriptNotes by reflexivity.
  reflexivity.
Qed.

(** ** Sorting by score *)

Section Descending.

Context {A : Type}.
Variable key : A -> R.

Lemma insert_above (x y : A) (l : list A) :
  key y >= key x ->
  Forall (fun z => key y >= key z) l ->
  Forall (fun z => key y >= key z) (JSArray.insert (fun a b => key b - key a) x l).
Proof.
  intros Hx Hl.
  apply (Permutation_Forall (insert_perm (fun a b => key b - key a) x l)).
  constructor; assumption.
Qed.

Lemma insert_sorted (x : A) (l : list A) :
  StronglySorted (fun a b => key a >= key b) l ->
  StronglySorted (fun a b => key a >= key b)
                 (JSArray.insert (fun a b => key b - key a) x l).
Proof.
  induction 1 as [|y l Hsorted IH Hall]; simpl.
  - repeat constructor.
  - destruct (Rgtb (key y - key x) 0) eqn:Hcmp.
    + apply Rgtb_true in Hcmp.
      constructor; [exact IH|].
      apply insert_above; [lra | exact Hall].
    + apply Rgtb_false in Hcmp.
      constructor; [constructor; assumption|].
      constructor; [lra|].
      eapply Forall_impl; [|exact Hall].
      simpl. intros z Hz. lra.
Qed.

Lemma sort_sorted (l : list A) :
  StronglySorted (fun a b => key a >= key b)
                 (JSArray.sort (fun a b => key b - key a) l).
Proof.
  induction l as [|x l IH]; simpl; [constructor | apply insert_sorted, IH].
Qed.

Lemma sorted_firstn (n : nat) (l : list A) :
  StronglySorted (fun a b => key a >= key b) l ->
  StronglySorted (fun a b => key a >= key b) (firstn n l).
Proof.
  intros H. revert n. induction H as [|x l Hsorted IH Hall]; intros [|n]; simpl;
    try constructor.
  - apply IH.
  - rewrite Forall_forall in *. intros y Hy. apply Hall.
    rewrite <- (firstn_skipn n l). apply in_or_app. left. exact Hy.
Qed.

(** In a sorted list a later element is not above an earlier one. *)
Lemma sorted_nth (l : list A) :
  StronglySorted (fun a b => key a >= key b) l ->
  forall i j a b, (i < j)%nat -> nth_error l i = Some a -> nth_error l j = Some b ->
                  key b <= key a.
Proof.
  induction 1 as [|x l Hsorted IH Hall]; intros i j a b Hij Hi Hj.
  - destruct i; discriminate.
  - destruct j as [|j]; [lia|]. simpl in Hj.
    destruct i as [|i]; simpl in Hi.
    + injection Hi as <-. apply nth_error_In in Hj.
      rewrite Forall_forall in Hall. specialize (Hall b Hj).
      simpl in Hall. lra.
    + apply (IH i j); [lia | assumption | assumption].
Qed.

End Descending.

Lemma byScoreDesc_sorted (l : list ScoredNote) :
  Spec.descending (JSArray.sort Ranking.scoreDesc l).
Proof.
  unfold Spec.descending. apply (sorted_nth score), (sort_sorted score).
Qed.

Lemma top_descending (n : nat) (l : list ScoredNote) :
  Spec.descending (JSArray.slice0 n (JSArray.sort Ranking.scoreDesc l)).
Proof.
  unfold Spec.descending, JSArray.slice0.
  apply (sorted_nth score), sorted_firstn, (sort_sorted score).
Qed.

(** ** Tag search *)

Lemma prefix_refl (s : string) : String.prefix s s = true.
Proof.
  induction s as [|c s IH]; simpl; [reflexivity|].
  destruct (ascii_dec c c); [exact IH | contradiction].
Qed.

Lemma includes_of_prefix (s sub : string) :
  String.prefix sub s = true -> JSString.includes s sub = true.
Proof. intros H. destruct s; cbn [JSString.includes]; rewrite H; reflexivity. Qed.

Lemma includes_refl (s : string) : JSString.includes s s = true.
Proof. apply includes_of_prefix, prefix_refl. Qed.

Section TagSearch.

Import Ranking.

Lemma awardTag_spec (term tag : string) (acc : R) :
  awardTag (JSString.toLowerCase term) acc tag = acc + Spec.tagAward term tag.
Proof.
  unfold awardTag, Spec.tagAward, Spec.contains.
  destruct (String.eqb (JSString.toLowerCase tag) (JSString.toLowerCase term)) eqn:Heq.
  - apply String.eqb_eq in Heq. rewrite Heq, includes_refl. reflexivity.
  - destruct (JSString.includes _ _); lra.
Qed.

Lemma awardTerm_spec (n : Note) (term : string) (acc : R) :
  awardTerm n acc (JSString.toLowerCase term)
  = acc + Spec.Rsum (map (Spec.tagAward term) (tags n)).
Proof.
  unfold awardTerm. generalize (tags n) as ts. intros ts. revert acc.
  induction ts as [|tag ts IH]; intros acc; simpl; [lra|].
  rewrite awardTag_spec, IH. lra.
Qed.

(** The two loops of [tagSearch] add up the awards of the specification. *)
Lemma tagScore_spec (terms : list string) (n : Note) :
  tagScore (map JSString.toLowerCase terms) n = Spec.tagScore terms n.
Proof.
  unfold tagScore, Spec.tagScore.
  enough (H : forall acc,
             fold_left (awardTerm n) (map JSString.toLowerCase terms) acc
             = acc + Spec.Rsum
                       (map (fun term => Spec.Rsum (map (Spec.tagAward term) (tags n)))
                            terms)).
  { rewrite H. lra. }
  induction terms as [|term terms IH]; intros acc; simpl; [lra|].
  rewrite awardTerm_spec, IH. lra.
Qed.

Lemma tagSearch_spec (db : Database.t) (terms : list string) (lim : nat) :
  tagSearch db terms lim = Spec.tagSearch db terms lim.
Proof.
  unfold tagSearch, Spec.tagSearch, Spec.tagCandidates, JSArray.slice0.
  destruct terms as [|t ts]; [reflexivity|].
  do 3 f_equal. apply map_ext. intros n. rewrite tagScore_spec. reflexivity.
Qed.

(** The score of a note with one tag, for one term. *)
Lemma tagScore_single (term tag : string) (n : Note) :
  tags n = [tag] -> Spec.tagScore [term] n = Spec.tagAward term tag.
Proof. intros H. unfold Spec.tagScore. rewrite H. simpl. lra. Qed.

End TagSearch.

Section TagRanking.

Import Ranking.

Variable db : Database.t.

Lemma tagSearch_nth (terms : list string) (lim j : nat) (sn : ScoredNote) :
  terms <> [] ->
  nth_error (tagSearch db terms lim) j = Some sn ->
  (j < lim)%nat
  /\ nth_error (JSArray.sort scoreDesc (Spec.tagCandidates db terms)) j = Some sn
  /\ score sn = Spec.tagScore terms (note sn)
  /\ score sn > 0.
Proof.
  intros Hne Hnth. rewrite tagSearch_spec in Hnth. unfold Spec.tagSearch in Hnth.
  destruct terms as [|t ts]; [contradiction|].
  rewrite nth_error_firstn in Hnth.
  destruct (Nat.ltb j lim) eqn:Hj; [|discriminate].
  apply Nat.ltb_lt in Hj. split; [exact Hj|]. split; [exact Hnth|].
  apply nth_error_In, sort_In, filter_In in Hnth. destruct Hnth as (Hmap & Hpos).
  apply in_map_iff in Hmap. destruct Hmap as (n & <- & _).
  split; [reflexivity | apply Rgtb_true, Hpos].
Qed.

(** C7: [tagSearch] answers the empty list to no terms; otherwise it
    scores each scanned note with 2 for each pair of a term and a tag
    equal to it, case put aside, and 1 for each pair where the tag merely
    contains the term, keeps the notes with a positive score, sorts them
    from the highest and cuts at [limit].  So for one term, a note whose
    only tag equals the term stands before any returned note whose only
    tag merely contains it. *)
Theorem tagSearch_contract (terms : list string) (lim : nat) :
  tagSearch db terms lim = Spec.tagSearch db terms lim
  /\ Spec.descending (tagSearch db terms lim)
  /\ (List.length (tagSearch db terms lim) <= lim)%nat
  /\ (forall term exact partial tagE tagP j sn,
        terms = [term] ->
        In exact (Database.getAllNotes db 1000) ->
        tags exact = [tagE] ->
        JSString.toLowerCase tagE = JSString.toLowerCase term ->
        tags partial = [tagP] ->
        Spec.contains tagP term = true ->
        JSString.toLowerCase tagP <> JSString.toLowerCase term ->
        nth_error (tagSearch db terms lim) j = Some sn ->
        note sn = partial ->
        score sn = 1
        /\ exists i, (i < j)%nat
                     /\ nth_error (tagSearch db terms lim) i = Some (mkScored exact 2)).
Proof.
  split; [apply tagSearch_spec|].
  split.
  { rewrite tagSearch_spec. unfold Spec.tagSearch.
    destruct terms as [|t ts]; [intros i j a b _ Hi; destruct i; discriminate|].
    apply top_descending. }
  split.
  { rewrite tagSearch_spec. unfold Spec.tagSearch.
    destruct terms as [|t ts]; [simpl; lia | apply firstn_le_length]. }
  intros term exact partial tagE tagP j sn -> Hin HtagE HeqE HtagP Hcont Hneq Hnth Hnote.
  assert (Hne : [term] <> []) by discriminate.
  destruct (tagSearch_nth [term] lim j sn Hne Hnth) as (Hj & Hsorted & Hscore & _).
  assert (Hone : score sn = 1).
  { rewrite Hscore, Hnote, (tagScore_single term tagP partial HtagP).
    unfold Spec.tagAward. apply String.eqb_neq in Hneq. rewrite Hneq, Hcont.
    reflexivity. }
  split; [exact Hone|].
  assert (Htwo : Spec.tagScore [term] exact = 2).
  { rewrite (tagScore_single term tagE exact HtagE).
    unfold Spec.tagAward. rewrite HeqE, String.eqb_refl. reflexivity. }
  assert (Hexact : In (mkScored exact 2)
                      (JSArray.sort scoreDesc (Spec.tagCandidates db [term]))).
  { apply sort_In, filter_In. split.
    - apply in_map_iff. exists exact. rewrite Htwo. auto.
    - simpl. apply Rgtb_true. lra. }
  apply In_nth_error in Hexact. destruct Hexact as (i & Hi).
  pose proof (byScoreDesc_sorted (Spec.tagCandidates db [term])) as Hdesc.
  assert (Hij : (i < j)%nat).
  { destruct (Nat.lt_trichotomy i j) as [Hlt | [Heq | Hgt]]; [exact Hlt | |].
    - subst j. rewrite Hi in Hsorted. injection Hsorted as <-. simpl in Hone. lra.
    - pose proof (Hdesc j i sn (mkScored exact 2) Hgt Hsorted Hi) as Hle.
      simpl in Hle. lra. }
  exists i. split; [exact Hij|].
  rewrite tagSearch_spec. unfold Spec.tagSearch.
  rewrite nth_error_firstn.
  assert (Hlt : Nat.ltb i lim = true) by (apply Nat.ltb_lt; lia).
  rewrite Hlt. exact Hi.
Qed.

End TagRanking.

(** The scenario of the specification: the note tagged [javascript] comes
    first, with 2, the note tagged [javascript-frameworks] second, with 1. *)
Lemma tagSearch_javascript :
  Ranking.tagSearch Examples.javascriptNotes ["javascript"%string] 20
  = [mkScored Examples.noteExact 2; mkScored Examples.noteFrameworks 1].
Proof.
  rewrite tagSearch_spec. unfold Spec.tagSearch, Spec.tagCandidates.
  cbn [Database.getAllNotes Examples.javascriptNotes Database.notes firstn map].
  replace (Spec.tagScore ["javascript"%string] Examples.noteFrameworks) with 1
    by (unfold Spec.tagScore, Spec.tagAward, Spec.contains; simpl; lra).
  replace (Spec.tagScore ["javascript"%string] Examples.noteExact) with 2
    by (unfold Spec.tagScore, Spec.tagAward, Spec.contains; simpl; lra).
  simpl. decide_numbers. simpl.
  unfold Ranking.scoreDesc. simpl. decide_numbers. reflexivity.
Qed.

Lemma tagSearch_contract_witness :
  score (mkScored Examples.noteFrameworks 1) = 1
  /\ exists i, (i < 1)%nat
               /\ nth_error (Ranking.tagSearch Examples.javascriptNotes
                               ["javascript"%string] 20) i
                  = Some (mkScored Examples.noteExact 2).
Proof.
  refine (proj2 (proj2 (proj2
            (tagSearch_contract Examples.javascriptNotes ["javascript"%string] 20)))
            "javascript"%string Examples.noteExact Examples.noteFrameworks
            "javascript"%string "javascript-frameworks"%string 1%nat
            (mkScored Examples.noteFrameworks 1) eq_refl _ eq_refl eq_refl eq_refl
            eq_refl _ _ eq_refl).
  - simpl. right. left. reflexivity.
  - discriminate.
  - rewrite tagSearch_javascript. reflexivity.
Defined.

(** ** Keyword search *)

Lemma keywordSearch_no_terms (db : Database.t) (lim : nat) :
  Ranking.keywordSearch db [] lim = Some (Ok []).
Proof. reflexivity. Qed.

(** C5, at the store of the note "C++ primer": for the term [c++] the
    specification counts two occurrences and the title, a score of 4; the
    code builds a regular expression from the term and throws. *)
Theorem keywordSearch_reads_terms_as_patterns :
  Ranking.keywordSearch Examples.primerOnly ["c++"%string] 20
  = Some (Throw RegExp.NothingToRepeat)
  /\ exists s, Spec.keywordSearch Examples.primerOnly ["c++"%string] 20
               = [mkScored Examples.notePrimer s] /\ s = 4.
Proof.
  split; [reflexivity|].
  unfold Spec.keywordSearch.
  cbn [Database.getAllNotes Examples.primerOnly Database.notes firstn map].
  assert (Hscore : Spec.keywordScore ["c++"%string] Examples.notePrimer = 4).
  { unfold Spec.keywordScore, Spec.keywordTermScore, Spec.contains. simpl. lra. }
  rewrite Hscore. simpl. decide_numbers. simpl.
  eexists. split; [reflexivity|]. lra.
Qed.

(** The wildcard: for the term [m.] the code counts the two places of
    the text of the first example note where an [m] is followed by any
    character, and returns the note; the text does not contain [m.]. *)
Lemma keywordSearch_wildcard :
  (exists s, Ranking.keywordSearch (Database.mk [Examples.noteA] []) ["m."%string] 20
             = Some (Ok [mkScored Examples.noteA s]) /\ s = 2)
  /\ Spec.keywordSearch (Database.mk [Examples.noteA] []) ["m."%string] 20 = [].
Proof.
  split.
  - unfold Ranking.keywordSearch. simpl. decide_numbers. simpl.
    eexists. split; [reflexivity|]. simpl. lra.
  - unfold Spec.keywordSearch.
    cbn [Database.getAllNotes Database.notes firstn map].
    assert (Hscore : Spec.keywordScore ["m."%string] Examples.noteA = 0).
    { unfold Spec.keywordScore, Spec.keywordTermScore, Spec.contains. simpl. lra. }
    rewrite Hscore. simpl. decide_numbers. reflexivity.
Qed.

(** *** Keywords without pattern syntax *)

Section PlainKeywords.

Import RegExp.

Lemma lowerChar_idempotent (c : ascii) :
  JSString.lowerChar (JSString.lowerChar c) = JSString.lowerChar c.
Proof. destruct c as [[] [] [] [] [] [] [] []]; reflexivity. Qed.









End PlainKeywords.

Lemma Rsum_cons (x : R) (l : list R) : Spec.Rsum (x :: l) = x + Spec.Rsum l.
Proof. reflexivity. Qed.

Section KeywordRefinement.

Import Ranking.




End KeywordRefinement.

(** ** The merge of the hybrid search *)

Lemma get_set {V : Type} (m : JSMap.t V) (k : string) (v : V) (k' : string) :
  JSMap.get (JSMap.set m k v) k'
  = if String.eqb k' k then Some v else JSMap.get m k'.
Proof.
  induction m as [|[k0 v0] m IH]; simpl.
  - reflexivity.
  - destruct (String.eqb k k0) eqn:Hk; simpl.
    + apply String.eqb_eq in Hk. subst k0.
      destruct (String.eqb k' k); reflexivity.
    + rewrite IH. destruct (String.eqb k' k0) eqn:Hk0; [|reflexivity].
      apply String.eqb_eq in Hk0. subst k0.
      rewrite String.eqb_sym, Hk. reflexivity.
Qed.

Lemma lookupFrom_None (key : string) (l : list ScoredNote) :
  forall index, ~ In key (Spec.ids l) -> Spec.lookupFrom key index l = None.
Proof.
  induction l as [|x l IH]; intros index Hnotin; simpl; [reflexivity|].
  destruct (String.eqb (id (note x)) key) eqn:Heq.
  - apply String.eqb_eq in Heq. exfalso. apply Hnotin. left. exact Heq.
  - apply IH. intros Hin. apply Hnotin. right. exact Hin.
Qed.

Lemma lookupFrom_Some (key : string) (l : list ScoredNote) :
  forall index i x,
    Spec.lookupFrom key index l = Some (i, x) ->
    (index <= i)%nat /\ nth_error l (i - index) = Some x /\ id (note x) = key.
Proof.
  induction l as [|y l IH]; intros index i x H; simpl in H; [discriminate|].
  destruct (String.eqb (id (note y)) key) eqn:Heq.
  - injection H as <- <-. rewrite Nat.sub_diag. simpl.
    apply String.eqb_eq in Heq. auto.
  - apply IH in H. destruct H as (Hle & Hnth & Hid).
    split; [lia|]. split; [|exact Hid].
    replace (i - index)%nat with (S (i - S index)) by lia. exact Hnth.
Qed.

Lemma lookupFrom_nth (l : list ScoredNote) :
  forall index i x,
    NoDup (Spec.ids l) -> nth_error l i = Some x ->
    Spec.lookupFrom (id (note x)) index l = Some ((index + i)%nat, x).
Proof.
  induction l as [|y l IH]; intros index i x Hnd Hnth; [destruct i; discriminate|].
  simpl in Hnd. inversion Hnd as [|? ? Hnotin Hnd']; subst.
  destruct i as [|i]; simpl in Hnth.
  - injection Hnth as <-. simpl. rewrite String.eqb_refl, Nat.add_0_r. reflexivity.
  - simpl. destruct (String.eqb (id (note y)) (id (note x))) eqn:Heq.
    + apply String.eqb_eq in Heq. exfalso. apply Hnotin. rewrite Heq.
      apply nth_error_In in Hnth. apply in_map_iff. exists x. auto.
    + rewrite (IH (S index) i x Hnd' Hnth). do 2 f_equal. lia.
Qed.

Section Merge.

Import Ranking.

Variable o : HybridOptions.

Lemma addSemantic_get (total : nat) (key : string) (sem : list ScoredNote) :
  forall (index : nat) (m : JSMap.t ScoredNote),
    NoDup (Spec.ids sem) ->
    JSMap.get (addSemantic o total index sem m) key
    = match Spec.lookupFrom key index sem with
      | Some (i, r) => Some (mkScored (note r) (semanticContribution o (score r) i total))
      | None => JSMap.get m key
      end.
Proof.
  induction sem as [|r sem IH]; intros index m Hnd; [reflexivity|].
  simpl in Hnd. inversion Hnd as [|? ? Hnotin Hnd']; subst.
  cbn [addSemantic Spec.lookupFrom]. rewrite (IH _ _ Hnd').
  destruct (String.eqb (id (note r)) key) eqn:Heq.
  - apply String.eqb_eq in Heq. subst key.
    rewrite (lookupFrom_None _ _ _ Hnotin), get_set, String.eqb_refl. reflexivity.
  - destruct (Spec.lookupFrom key (S index) sem) as [[i r']|]; [reflexivity|].
    rewrite get_set, String.eqb_sym, Heq. reflexivity.
Qed.

Lemma addKeyword_get (total : nat) (key : string) (kws : list ScoredNote) :
  forall (index : nat) (m : JSMap.t ScoredNote),
    NoDup (Spec.ids kws) ->
    JSMap.get (addKeyword o total index kws m) key
    = match Spec.lookupFrom key index kws with
      | Some (j, k) =>
          match JSMap.get m key with
          | Some existing =>
              Some (mkScored (note existing)
                             (score existing + keywordContribution o j total))
          | None => Some (mkScored (note k) (keywordContribution o j total))
          end
      | None => JSMap.get m key
      end.
Proof.
  induction kws as [|k kws IH]; intros index m Hnd; [reflexivity|].
  simpl in Hnd. inversion Hnd as [|? ? Hnotin Hnd']; subst.
  cbn [addKeyword Spec.lookupFrom]. rewrite (IH _ _ Hnd').
  destruct (String.eqb (id (note k)) key) eqn:Heq.
  - apply String.eqb_eq in Heq. subst key.
    rewrite (lookupFrom_None _ _ _ Hnotin).
    destruct (JSMap.get m (id (note k))); rewrite get_set, String.eqb_refl;
      reflexivity.
  - assert (Hget : forall v,
               JSMap.get (JSMap.set m (id (note k)) v) key = JSMap.get m key).
    { intros v. rewrite get_set, String.eqb_sym, Heq. reflexivity. }
    destruct (JSMap.get m (id (note k))); rewrite Hget; reflexivity.
Qed.

(** The score of each note after the merge: its semantic contribution
    when it is a semantic result, plus its keyword contribution when it
    is a keyword result. *)
Lemma mergeScores_get (sem kws : list ScoredNote) (key : string) :
  NoDup (Spec.ids sem) -> NoDup (Spec.ids kws) ->
  JSMap.get (mergeScores o sem kws) key
  = match Spec.lookup key sem, Spec.lookup key kws with
    | Some (i, r), Some (j, _) =>
        Some (mkScored (note r)
                (semanticContribution o (score r) i (List.length sem)
                 + keywordContribution o j (List.length kws)))
    | Some (i, r), None =>
        Some (mkScored (note r)
                (semanticContribution o (score r) i (List.length sem)))
    | None, Some (j, k) =>
        Some (mkScored (note k) (keywordContribution o j (List.length kws)))
    | None, None => None
    end.
Proof.
  intros Hsem Hkws. unfold mergeScores, Spec.lookup.
  rewrite (addKeyword_get _ _ _ _ _ Hkws), (addSemantic_get _ _ _ _ _ Hsem).
  destruct (Spec.lookupFrom key 0 sem) as [[i r]|];
    destruct (Spec.lookupFrom key 0 kws) as [[j k]|]; reflexivity.
Qed.

End Merge.

(** ** The rank of an entry in the sorted list *)

Section Rank.

Import Ranking.

Lemma insert_before (a x : ScoredNote) (l1 l2 : list ScoredNote) :
  score x <= score a ->
  JSArray.insert scoreDesc a (l1 ++ x :: l2)
  = JSArray.insert scoreDesc a l1 ++ x :: l2.
Proof.
  intros Hle. induction l1 as [|y l1 IH]; simpl.
  - assert (H : Rgtb (scoreDesc a x) 0 = false)
      by (apply Rgtb_false; unfold scoreDesc; lra).
    rewrite H. reflexivity.
  - destruct (Rgtb (scoreDesc a y) 0); [rewrite IH|]; reflexivity.
Qed.

Lemma insert_after (a x : ScoredNote) (l1 l2 : list ScoredNote) :
  Forall (fun y => score y > score a) l1 ->
  score x > score a ->
  JSArray.insert scoreDesc a (l1 ++ x :: l2)
  = l1 ++ x :: JSArray.insert scoreDesc a l2.
Proof.
  intros Hall Hgt. induction Hall as [|y l1 Hy Hall IH]; simpl.
  - assert (H : Rgtb (scoreDesc a x) 0 = true)
      by (apply Rgtb_true; unfold scoreDesc; lra).
    rewrite H. reflexivity.
  - assert (H : Rgtb (scoreDesc a y) 0 = true)
      by (apply Rgtb_true; unfold scoreDesc; lra).
    rewrite H, IH. reflexivity.
Qed.

Lemma sorted_before (x : ScoredNote) (l1 l2 : list ScoredNote) :
  StronglySorted (fun a b => score a >= score b) (l1 ++ x :: l2) ->
  Forall (fun y => score y >= score x) l1.
Proof.
  induction l1 as [|y l1 IH]; simpl; intros H; [constructor|].
  inversion H as [|? ? Hsorted Hall]; subst. constructor.
  - rewrite Forall_forall in Hall. apply Hall, in_or_app. right. left. reflexivity.
  - apply IH, Hsorted.
Qed.

Lemma filter_length_perm {A : Type} (f : A -> bool) (l l' : list A) :
  Permutation l l' -> List.length (filter f l) = List.length (filter f l').
Proof.
  induction 1 as [|x l l' _ IH|x y l|l l' l'' _ IH1 _ IH2]; simpl.
  - reflexivity.
  - destruct (f x); simpl; rewrite IH; reflexivity.
  - destruct (f x), (f y); reflexivity.
  - rewrite IH1. exact IH2.
Qed.

Lemma filter_length_le {A : Type} (f g : A -> bool) (l : list A) :
  (forall y, f y = true -> g y = true) ->
  (List.length (filter f l) <= List.length (filter g l))%nat.
Proof.
  intros Himp. induction l as [|y l IH]; simpl; [lia|].
  destruct (f y) eqn:Hf.
  - rewrite (Himp y Hf). simpl. lia.
  - destruct (g y); simpl; lia.
Qed.

Lemma insert_position (x : ScoredNote) (l : list ScoredNote) :
  StronglySorted (fun a b => score a >= score b) l ->
  exists l1 l2,
    JSArray.insert scoreDesc x l = l1 ++ x :: l2
    /\ List.length l1 = Spec.ahead x [] l.
Proof.
  unfold Spec.ahead. simpl.
  induction 1 as [|y l Hsorted IH Hall]; simpl.
  - exists [], []. auto.
  - destruct (Rgtb (scoreDesc x y) 0) eqn:Hcmp.
    + apply Rgtb_true in Hcmp. unfold scoreDesc in Hcmp.
      destruct IH as (l1 & l2 & Heq & Hlen).
      exists (y :: l1), l2. rewrite Heq. split; [reflexivity|].
      assert (H : Rgtb (score y) (score x) = true) by (apply Rgtb_true; lra).
      rewrite H. simpl. rewrite Hlen. reflexivity.
    + apply Rgtb_false in Hcmp. unfold scoreDesc in Hcmp.
      exists [], (y :: l). split; [reflexivity|].
      assert (H : Rgtb (score y) (score x) = false) by (apply Rgtb_false; lra).
      rewrite H. simpl.
      assert (Hnone : filter (fun z => Rgtb (score z) (score x)) l = []).
      { clear IH Hsorted. induction Hall as [|z l Hz Hall IH]; [reflexivity|].
        simpl. assert (Hzx : Rgtb (score z) (score x) = false)
          by (apply Rgtb_false; lra).
        rewrite Hzx. exact IH. }
      rewrite Hnone. reflexivity.
Qed.

Lemma sort_position (x : ScoredNote) (post : list ScoredNote) :
  forall pre : list ScoredNote,
  exists l1 l2,
    JSArray.sort scoreDesc (pre ++ x :: post) = l1 ++ x :: l2
    /\ List.length l1 = Spec.ahead x pre post.
Proof.
  induction pre as [|a pre IH].
  - simpl.
    destruct (insert_position x (JSArray.sort scoreDesc post)
                (sort_sorted score post)) as (l1 & l2 & Heq & Hlen).
    exists l1, l2. split; [exact Heq|]. rewrite Hlen. unfold Spec.ahead. simpl.
    apply filter_length_perm, Permutation_sym, sort_perm.
  - destruct IH as (l1 & l2 & Heq & Hlen).
    pose proof (sort_sorted score (pre ++ x :: post)) as Hsorted.
    change (JSArray.sort (fun a b => score b - score a) (pre ++ x :: post))
      with (JSArray.sort scoreDesc (pre ++ x :: post)) in Hsorted.
    rewrite Heq in Hsorted.
    change (JSArray.sort scoreDesc ((a :: pre) ++ x :: post))
      with (JSArray.insert scoreDesc a (JSArray.sort scoreDesc (pre ++ x :: post))).
    rewrite Heq. unfold Spec.ahead in *. simpl.
    destruct (Rgeb (score a) (score x)) eqn:Hax.
    + apply Rgeb_true in Hax.
      rewrite insert_before by lra.
      exists (JSArray.insert scoreDesc a l1), l2.
      split; [reflexivity|].
      rewrite <- (Permutation_length (insert_perm scoreDesc a l1)).
      simpl. lia.
    + apply Rgeb_false in Hax.
      rewrite insert_after.
      * exists l1, (JSArray.insert scoreDesc a l2). split; [reflexivity | exact Hlen].
      * apply sorted_before in Hsorted.
        eapply Forall_impl; [|exact Hsorted]. simpl. intros y Hy. lra.
      * lra.
Qed.

End Rank.

Lemma position_middle (x : ScoredNote) (l1 l2 : list ScoredNote) :
  NoDup (Spec.ids (l1 ++ x :: l2)) ->
  Spec.position (id (note x)) (l1 ++ x :: l2) = Some (List.length l1).
Proof.
  intros Hnd. unfold Spec.position, Spec.lookup.
  rewrite (lookupFrom_nth _ 0 (List.length l1) x Hnd).
  - reflexivity.
  - rewrite nth_error_app2, Nat.sub_diag by lia. reflexivity.
Qed.

Lemma lookupFrom_firstn (key : string) (n : nat) :
  forall (l : list ScoredNote) (index : nat),
    Spec.lookupFrom key index (firstn n l)
    = match Spec.lookupFrom key index l with
      | Some (i, x) => if Nat.ltb (i - index) n then Some (i, x) else None
      | None => None
      end.
Proof.
  induction n as [|n IH]; intros l index.
  - simpl. destruct (Spec.lookupFrom key index l) as [[i x]|]; reflexivity.
  - destruct l as [|y l]; [reflexivity|]. simpl.
    destruct (String.eqb (id (note y)) key).
    + rewrite Nat.sub_diag. reflexivity.
    + rewrite IH.
      destruct (Spec.lookupFrom key (S index) l) as [[i x]|] eqn:Hl; [|reflexivity].
      apply lookupFrom_Some in Hl. destruct Hl as (Hle & _).
      replace (i - index)%nat with (S (i - S index)) by lia. reflexivity.
Qed.

Lemma position_firstn (key : string) (n : nat) (l : list ScoredNote) :
  Spec.position key (firstn n l)
  = match Spec.position key l with
    | Some p => if Nat.ltb p n then Some p else None
    | None => None
    end.
Proof.
  unfold Spec.position, Spec.lookup. rewrite lookupFrom_firstn.
  destruct (Spec.lookupFrom key 0 l) as [[i x]|]; [|reflexivity].
  simpl. rewrite Nat.sub_0_r. destruct (Nat.ltb i n); reflexivity.
Qed.

Lemma ahead_antitone (x x' : ScoredNote) (pre post : list ScoredNote) :
  score x <= score x' -> (Spec.ahead x' pre post <= Spec.ahead x pre post)%nat.
Proof.
  intros Hle. unfold Spec.ahead. apply Nat.add_le_mono; apply filter_length_le.
  - intros y Hy. apply Rgeb_true in Hy. apply Rgeb_true. lra.
  - intros y Hy. apply Rgtb_true in Hy. apply Rgtb_true. lra.
Qed.

(** The position of an entry in the ranking of a score map. *)
Lemma rankMerged_position (o : Ranking.HybridOptions) (k : string) (x : ScoredNote)
      (pre post : JSMap.t ScoredNote) :
  NoDup (Spec.ids (JSMap.values (pre ++ (k, x) :: post))) ->
  Spec.position (id (note x)) (Ranking.rankMerged o (pre ++ (k, x) :: post))
  = if Nat.ltb (Spec.ahead x (JSMap.values pre) (JSMap.values post)) (Ranking.hLimit o)
    then Some (Spec.ahead x (JSMap.values pre) (JSMap.values post))
    else None.
Proof.
  intros Hnd. unfold Ranking.rankMerged, JSArray.slice0. rewrite position_firstn.
  unfold JSMap.values in *. rewrite map_app in *. simpl map in *.
  destruct (sort_position x (map snd post) (map snd pre)) as (l1 & l2 & Heq & Hlen).
  rewrite Heq, position_middle, Hlen; [reflexivity|].
  rewrite <- Heq. eapply Permutation_NoDup; [|exact Hnd].
  apply Permutation_map, sort_perm.
Qed.

(** All else equal, an entry with a higher score does not rank lower. *)
Lemma rankMerged_monotone (o : Ranking.HybridOptions) (k : string) (x x' : ScoredNote)
      (pre post : JSMap.t ScoredNote) (p : nat) :
  NoDup (Spec.ids (JSMap.values (pre ++ (k, x) :: post))) ->
  id (note x') = id (note x) ->
  score x <= score x' ->
  Spec.position (id (note x)) (Ranking.rankMerged o (pre ++ (k, x) :: post)) = Some p ->
  exists p',
    Spec.position (id (note x)) (Ranking.rankMerged o (pre ++ (k, x') :: post)) = Some p'
    /\ (p' <= p)%nat.
Proof.
  intros Hnd Hid Hle Hp.
  rewrite (rankMerged_position o k x pre post Hnd) in Hp.
  destruct (Nat.ltb _ _) eqn:Hlt in Hp; [|discriminate].
  injection Hp as <-. apply Nat.ltb_lt in Hlt.
  assert (Hnd' : NoDup (Spec.ids (JSMap.values (pre ++ (k, x') :: post)))).
  { unfold Spec.ids, JSMap.values in *. rewrite !map_app in *. simpl in *.
    rewrite Hid. exact Hnd. }
  rewrite <- Hid, (rankMerged_position o k x' pre post Hnd').
  pose proof (ahead_antitone x x' (JSMap.values pre) (JSMap.values post) Hle) as Ha.
  assert (Hlt' : Nat.ltb (Spec.ahead x' (JSMap.values pre) (JSMap.values post))
                         (Ranking.hLimit o) = true) by (apply Nat.ltb_lt; lia).
  rewrite Hlt'. eexists. split; [reflexivity | exact Ha].
Qed.

(** ** The ids of the results are distinct *)

Lemma firstn_NoDup {A : Type} (n : nat) (l : list A) : NoDup l -> NoDup (firstn n l).
Proof.
  intros H. rewrite <- (firstn_skipn n l) in H. apply NoDup_app_remove_r in H. exact H.
Qed.

Lemma filterMap_ids (f : string * R -> option ScoredNote) (l : list (string * R)) :
  (forall r sn, f r = Some sn -> id (note sn) = fst r) ->
  NoDup (map fst l) -> NoDup (Spec.ids (JSArray.filterMap f l)).
Proof.
  intros Hf. induction l as [|r l IH]; simpl; intros Hnd; [constructor|].
  inversion Hnd as [|? ? Hnotin Hnd']; subst.
  destruct (f r) as [sn|] eqn:Hr; [|apply IH, Hnd'].
  simpl. constructor; [|apply IH, Hnd'].
  intros Hin. apply Hnotin. unfold Spec.ids in Hin.
  apply in_map_iff in Hin. destruct Hin as (sn' & Hid & Hin').
  apply filterMap_In in Hin'. destruct Hin' as (r' & Hr' & Hfr').
  apply Hf in Hfr'. apply Hf in Hr. apply in_map_iff. exists r'. split; [congruence | exact Hr'].
Qed.

Lemma search_ids (db : Database.t) (vs : VectorSearch.t) (q : list R)
      (opts : VectorSearch.SearchOptions) (results : list ScoredNote) :
  VectorSearch.distinctKeys vs ->
  snd (VectorSearch.search db vs q opts) = Ok results ->
  NoDup (Spec.ids results).
Proof.
  intros Hkeys. unfold VectorSearch.search. simpl.
  destruct (VectorSearch.scan q opts _ []) as [found|err] eqn:Hscan; [|discriminate].
  intros H. injection H as <-.
  destruct (scan_kept q opts _ found Hscan) as (_ & _ & Hnd).
  apply filterMap_ids.
  - intros r sn Hres. apply resolve_Some in Hres. apply Hres.
  - unfold JSArray.slice0. rewrite <- firstn_map. apply firstn_NoDup.
    eapply Permutation_NoDup; [apply Permutation_map, sort_perm|].
    apply Hnd, distinctKeys_ensureCache, Hkeys.
Qed.

Lemma scoreAll_notes (keywordLower : list string) (allNotes : list Note) :
  forall scored,
    Ranking.scoreAll keywordLower allNotes = Some (Ok scored) ->
    map note scored = allNotes.
Proof.
  induction allNotes as [|n allNotes IH]; intros scored H; simpl in H.
  - injection H as <-. reflexivity.
  - destruct (Ranking.scoreKeywords n keywordLower 0) as [[s|e]|]; try discriminate.
    destruct (Ranking.scoreAll keywordLower allNotes) as [[rest|e]|]; try discriminate.
    injection H as <-. simpl. rewrite (IH rest eq_refl). reflexivity.
Qed.

Lemma ids_filter (f : ScoredNote -> bool) (l : list ScoredNote) :
  NoDup (Spec.ids l) -> NoDup (Spec.ids (filter f l)).
Proof.
  induction l as [|x l IH]; simpl; intros Hnd; [constructor|].
  inversion Hnd as [|? ? Hnotin Hnd']; subst.
  destruct (f x); [|apply IH, Hnd'].
  simpl. constructor; [|apply IH, Hnd'].
  intros Hin. apply Hnotin. unfold Spec.ids in *.
  apply in_map_iff in Hin. destruct Hin as (y & Hy & Hin).
  apply filter_In in Hin. apply in_map_iff. exists y. tauto.
Qed.

Lemma keywordSearch_ids (db : Database.t) (keywords : list string) (lim : nat)
      (results : list ScoredNote) :
  Database.uniqueIds db ->
  Ranking.keywordSearch db keywords lim = Some (Ok results) ->
  NoDup (Spec.ids results).
Proof.
  intros Huniq. unfold Ranking.keywordSearch.
  destruct keywords as [|k ks]; [intros H; injection H as <-; constructor|].
  destruct (Ranking.scoreAll _ _) as [[scored|e]|] eqn:Hall; try discriminate.
  intros H. injection H as <-.
  apply scoreAll_notes in Hall.
  assert (Hscored : NoDup (Spec.ids scored)).
  { unfold Spec.ids. rewrite <- (map_map note id), Hall.
    unfold Database.getAllNotes. rewrite <- firstn_map. apply firstn_NoDup, Huniq. }
  unfold Spec.ids. rewrite map_map. simpl.
  change (NoDup (Spec.ids (JSArray.slice0 lim
            (JSArray.sort Ranking.scoreDesc
               (filter (fun item => Rgtb (score item) 0) scored))))).
  unfold JSArray.slice0, Spec.ids. rewrite <- firstn_map. apply firstn_NoDup.
  eapply Permutation_NoDup; [apply Permutation_map, sort_perm|].
  apply ids_filter, Hscored.
Qed.

(** ** Bounds on the scores *)

Lemma square_le (u v : R) : 0 <= v -> u * u <= v * v -> u <= v.
Proof. intros Hv Hsq. destruct (Rle_lt_dec u v) as [H|H]; [exact H | nra]. Qed.

(** Cauchy and Schwarz, on the sums that [cosineSimilarity] builds. *)
Lemma dot_square (a : list R) :
  forall b : list R,
    Spec.dot a b * Spec.dot a b
    <= Spec.Rsum (map (fun x => x * x) a) * Spec.Rsum (map (fun x => x * x) b).
Proof.
  induction a as [|x a IH]; intros [|y b]; unfold Spec.dot; simpl; try lra.
  specialize (IH b). unfold Spec.dot in IH.
  set (d := Spec.Rsum (map (fun xy => fst xy * snd xy) (combine a b))) in *.
  pose proof (Rsum_squares_nonneg a) as HA.
  pose proof (Rsum_squares_nonneg b) as HB.
  set (A := Spec.Rsum (map (fun x => x * x) a)) in *.
  set (B := Spec.Rsum (map (fun x => x * x) b)) in *.
  assert (Hcross : 2 * (x * y * d) <= x * x * B + y * y * A).
  { apply square_le.
    - pose proof (Rle_0_sqr x) as Hx. pose proof (Rle_0_sqr y) as Hy.
      unfold Rsqr in *. nra.
    - pose proof (Rle_0_sqr (x * x * B - y * y * A)) as Hsq.
      pose proof (Rle_0_sqr (x * y)) as Hxy. unfold Rsqr in *.
      assert (Hprod : 0 <= (x * y) * (x * y) * (A * B - d * d)) by nra.
      nra. }
  nra.
Qed.

Lemma cosineSimilarity_le_1 (a b : list R) (s : R) :
  VectorSearch.cosineSimilarity a b = Ok s -> s <= 1.
Proof.
  destruct (Nat.eq_dec (List.length a) (List.length b)) as [Hlen|Hlen].
  - rewrite (cosineSimilarity_equal_length a b Hlen).
    destruct (Reqb (Spec.norm a * Spec.norm b) 0) eqn:Hden; intros H; injection H as <-;
      [lra|].
    apply Reqb_false in Hden.
    assert (Ha : 0 <= Spec.norm a) by apply sqrt_pos.
    assert (Hb : 0 <= Spec.norm b) by apply sqrt_pos.
    assert (Hpos : 0 < Spec.norm a * Spec.norm b) by nra.
    apply (Rmult_le_reg_r (Spec.norm a * Spec.norm b)); [exact Hpos|].
    unfold Rdiv. rewrite Rmult_assoc, Rinv_l, Rmult_1_r, Rmult_1_l by lra.
    apply square_le; [lra|].
    pose proof (dot_square a b) as Hcs.
    unfold Spec.norm in *.
    pose proof (sqrt_sqrt _ (Rsum_squares_nonneg a)) as Hsa.
    pose proof (sqrt_sqrt _ (Rsum_squares_nonneg b)) as Hsb.
    nra.
  - rewrite (cosineSimilarity_unequal_length a b Hlen). discriminate.
Qed.

Lemma ratio_bounds (i total : nat) :
  (i < total)%nat -> 0 <= INR i / INR total < 1.
Proof.
  intros Hlt. assert (Hi : 0 <= INR i) by apply pos_INR.
  assert (Hit : INR i < INR total) by (apply lt_INR; exact Hlt).
  assert (Ht : 0 < INR total) by lra.
  split.
  - apply Rmult_le_reg_r with (INR total); [exact Ht|].
    unfold Rdiv. rewrite Rmult_assoc, Rinv_l by lra. lra.
  - apply Rmult_lt_reg_r with (INR total); [exact Ht|].
    unfold Rdiv. rewrite Rmult_assoc, Rinv_l by lra. lra.
Qed.

Section Contributions.

Import Ranking.

Variable o : HybridOptions.

Lemma keywordContribution_bounds (j total : nat) :
  (j < total)%nat -> 0 <= keywordWeight o ->
  0 <= keywordContribution o j total <= keywordWeight o.
Proof.
  intros Hlt Hw. pose proof (ratio_bounds j total Hlt) as Hr.
  unfold keywordContribution. nra.
Qed.


Lemma semanticContribution_bounds (raw : R) (i total : nat) :
  (i < total)%nat -> 0 <= semanticWeight o -> 0 <= raw <= 1 ->
  0 <= semanticContribution o raw i total <= semanticWeight o.
Proof.
  intros Hlt Hw Hraw. pose proof (ratio_bounds i total Hlt) as Hr.
  unfold semanticContribution.
  assert (Hboost : 0 <= 1 - INR i / INR total * (1 / 10) <= 1) by lra.
  assert (Hrw : 0 <= raw * semanticWeight o <= semanticWeight o) by nra.
  nra.
Qed.


End Contributions.

(** ** Hybrid search *)

Section Hybrid.

Import VectorSearch Ranking.

Variable db : Database.t.
Variable vs : VectorSearch.t.
Variable queryEmbedding : list R.
Variable keywords : list string.
Variable o : HybridOptions.

Lemma hybridSearch_Ok (results : list ScoredNote) :
  snd (hybridSearch db vs queryEmbedding keywords o) = Some (Ok results)
  <-> exists sem kws,
      snd (search db vs queryEmbedding (semanticOptions o)) = Ok sem
      /\ keywordSearch db keywords (hLimit o * 2) = Some (Ok kws)
      /\ results = rankMerged o (mergeScores o sem kws).
Proof.
  unfold hybridSearch.
  destruct (search db vs queryEmbedding (semanticOptions o)) as [vs' [sem|e]]; simpl.
  - destruct (keywordSearch db keywords (hLimit o * 2)) as [[kws|e]|]; split.
    + intros H. injection H as <-. exists sem, kws. auto.
    + intros (sem' & kws' & Hs & Hk & ->). congruence.
    + discriminate.
    + intros (sem' & kws' & _ & Hk & _). discriminate.
    + discriminate.
    + intros (sem' & kws' & _ & Hk & _). discriminate.
  - split; [discriminate|]. intros (sem' & kws' & Hs & _). discriminate.
Qed.

(** The raw score of a semantic result lies between the threshold and 1. *)
Lemma semantic_raw_bounds (sem : list ScoredNote) (r : ScoredNote) :
  snd (search db vs queryEmbedding (semanticOptions o)) = Ok sem ->
  In r sem -> hThreshold o <= score r <= 1.
Proof.
  intros Hs Hin. apply search_results in Hs. destruct Hs as (_ & Hall).
  destruct (Hall r Hin) as ((_ & Hth & e & _ & Hcos) & _). simpl in Hth, Hcos.
  apply cosineSimilarity_le_1 in Hcos. lra.
Qed.

(** C3, as the code has it: when the weights and the threshold are not
    negative, a note that is both the semantic result [i] and the keyword
    result [j] gets the sum of the two contributions, which is at least
    the score it gets when it is absent from the keyword results, and at
    least the score it gets when it is absent from the semantic results;
    and among the same other entries, an entry whose score is raised to
    that sum does not rank lower. *)
Theorem hybridSearch_sums_contributions
        (sem kws : list ScoredNote) (i j : nat) (r k : ScoredNote) :
  VectorSearch.distinctKeys vs ->
  Database.uniqueIds db ->
  0 <= hThreshold o -> 0 <= semanticWeight o -> 0 <= keywordWeight o ->
  snd (search db vs queryEmbedding (semanticOptions o)) = Ok sem ->
  keywordSearch db keywords (hLimit o * 2) = Some (Ok kws) ->
  nth_error sem i = Some r ->
  nth_error kws j = Some k ->
  id (note k) = id (note r) ->
  let semantic := semanticContribution o (score r) i (List.length sem) in
  let keyword := keywordContribution o j (List.length kws) in
  snd (hybridSearch db vs queryEmbedding keywords o)
  = Some (Ok (rankMerged o (mergeScores o sem kws)))
  /\ JSMap.get (mergeScores o sem kws) (id (note r))
     = Some (mkScored (note r) (semantic + keyword))
  /\ (forall kws', NoDup (Spec.ids kws') -> ~ In (id (note r)) (Spec.ids kws') ->
        JSMap.get (mergeScores o sem kws') (id (note r))
        = Some (mkScored (note r) semantic))
  /\ (forall sem', NoDup (Spec.ids sem') -> ~ In (id (note r)) (Spec.ids sem') ->
        JSMap.get (mergeScores o sem' kws) (id (note r))
        = Some (mkScored (note k) keyword))
  /\ semantic <= semantic + keyword
  /\ keyword <= semantic + keyword
  /\ (forall pre post key x p,
        NoDup (Spec.ids (JSMap.values (pre ++ (key, x) :: post))) ->
        id (note x) = id (note r) ->
        score x <= semantic + keyword ->
        Spec.position (id (note r)) (rankMerged o (pre ++ (key, x) :: post)) = Some p ->
        exists p',
          Spec.position (id (note r))
            (rankMerged o (pre ++ (key, mkScored (note r) (semantic + keyword)) :: post))
          = Some p'
          /\ (p' <= p)%nat).
Proof.
  intros Hkeys Huniq Hth Hsw Hkw Hsem Hkws Hi Hj Hid semantic keyword.
  pose proof (search_ids db vs queryEmbedding (semanticOptions o) sem Hkeys Hsem) as Hnd.
  pose proof (keywordSearch_ids db keywords _ kws Huniq Hkws) as Hndk.
  pose proof (lookupFrom_nth sem 0 i r Hnd Hi) as Hlr. simpl in Hlr.
  pose proof (lookupFrom_nth kws 0 j k Hndk Hj) as Hlk. simpl in Hlk.
  rewrite Hid in Hlk.
  assert (Hilt : (i < List.length sem)%nat)
    by (apply nth_error_Some; rewrite Hi; discriminate).
  assert (Hjlt : (j < List.length kws)%nat)
    by (apply nth_error_Some; rewrite Hj; discriminate).
  pose proof (semantic_raw_bounds sem r Hsem (nth_error_In _ _ Hi)) as Hraw.
  assert (Hs0 : 0 <= semantic).
  { apply semanticContribution_bounds; [exact Hilt | exact Hsw | lra]. }
  assert (Hk0 : 0 <= keyword).
  { apply keywordContribution_bounds; [exact Hjlt | exact Hkw]. }
  split; [apply hybridSearch_Ok; exists sem, kws; auto|].
  split.
  { rewrite (mergeScores_get o sem kws _ Hnd Hndk). unfold Spec.lookup.
    rewrite Hlr, Hlk. reflexivity. }
  split.
  { intros kws' Hnd' Hnotin.
    rewrite (mergeScores_get o sem kws' _ Hnd Hnd'). unfold Spec.lookup.
    rewrite Hlr, (lookupFrom_None _ _ 0 Hnotin). reflexivity. }
  split.
  { intros sem' Hnd' Hnotin.
    rewrite (mergeScores_get o sem' kws _ Hnd' Hndk). unfold Spec.lookup.
    rewrite Hlk, (lookupFrom_None _ _ 0 Hnotin). reflexivity. }
  split; [lra|]. split; [lra|].
  intros pre post key x p Hndm Hidx Hle Hp.
  rewrite <- Hidx in Hp |- *.
  apply (rankMerged_monotone o key x _ pre post p Hndm);
    [symmetry; exact Hidx | exact Hle | exact Hp].
Qed.

End Hybrid.

(** *** Hybrid search on the example store *)

(** Proves that two result lists with the same notes have equal scores. *)
Ltac same_scores :=
  repeat match goal with
         | |- Some _ = Some _ => apply f_equal
         | |- Ok _ = Ok _ => apply f_equal
         | |- _ :: _ = _ :: _ => apply f_equal2
         | |- mkScored _ _ = mkScored _ _ => apply f_equal; lra
         | |- [] = [] => reflexivity
         end.

Lemma norm_minus_e1 : Spec.norm [-1; 0] = 1.
Proof.
  unfold Spec.norm. simpl.
  replace (-1 * -1 + (0 * 0 + 0)) with 1 by lra. apply sqrt_1.
Qed.

Lemma cosine_minus_e1_e1 : VectorSearch.cosineSimilarity [-1; 0] [1; 0] = Ok (-1).
Proof.
  rewrite cosineSimilarity_equal_length by reflexivity.
  rewrite norm_minus_e1, norm_e1. decide_numbers. f_equal. unfold Spec.dot. simpl. lra.
Qed.

Lemma cosine_minus_e1_e2 : VectorSearch.cosineSimilarity [-1; 0] [0; 1] = Ok 0.
Proof.
  rewrite cosineSimilarity_equal_length by reflexivity.
  rewrite norm_minus_e1, norm_e2. decide_numbers. f_equal. unfold Spec.dot. simpl. lra.
Qed.

(** Unfolds the merge and the ranking down to the numbers. *)
Ltac rank_merged :=
  unfold Ranking.rankMerged, Ranking.mergeScores; simpl;
  unfold Ranking.scoreDesc; simpl;
  unfold Ranking.semanticContribution, Ranking.keywordContribution; simpl;
  decide_numbers; simpl.

(** With the threshold at -1 and the query opposite to the embedding of
    the first note, that note is a semantic result with similarity -1 and
    the only keyword result for [basics]: its combined score is negative
    and it ranks second.  Once its embedding is deleted it is a keyword
    result alone: it scores 0.3 and ranks first. *)
Lemma hybridSearch_negative_similarity :
  exists both alone,
    snd (Ranking.hybridSearch Examples.twoNotes VectorSearch.new [-1; 0]
           ["basics"%string] Examples.negativeThreshold) = Some (Ok both)
    /\ snd (Ranking.hybridSearch (Database.deleteEmbedding Examples.twoNotes "a")
              VectorSearch.new [-1; 0] ["basics"%string] Examples.negativeThreshold)
       = Some (Ok alone)
    /\ both = [mkScored Examples.noteB 0; mkScored Examples.noteA (- (73 / 200))]
    /\ alone = [mkScored Examples.noteA (3 / 10); mkScored Examples.noteB 0]
    /\ Spec.position "a" both = Some 1%nat
    /\ Spec.position "a" alone = Some 0%nat.
Proof.
  exists [mkScored Examples.noteB 0; mkScored Examples.noteA (- (73 / 200))],
         [mkScored Examples.noteA (3 / 10); mkScored Examples.noteB 0].
  split; [|split; [|repeat split]].
  - unfold Ranking.hybridSearch, VectorSearch.search. simpl.
    rewrite cosine_minus_e1_e1. decide_numbers. simpl.
    rewrite cosine_minus_e1_e2. decide_numbers. simpl.
    unfold VectorSearch.byScoreDesc. simpl. decide_numbers. simpl.
    rank_merged. same_scores.
  - unfold Ranking.hybridSearch, VectorSearch.search. simpl.
    rewrite cosine_minus_e1_e2. decide_numbers. simpl.
    rank_merged. same_scores.
Qed.

Lemma search_twoNotes_wide :
  snd (VectorSearch.search Examples.twoNotes VectorSearch.new [1; 0]
         (VectorSearch.mkOptions (20 * 2) (3 / 10) None []))
  = Ok [mkScored Examples.noteA 1].
Proof.
  unfold VectorSearch.search. simpl.
  rewrite cosine_e1_e1. decide_numbers. simpl.
  rewrite cosine_e1_e2. decide_numbers. simpl.
  reflexivity.
Qed.

Lemma keywordSearch_basics :
  Ranking.keywordSearch Examples.twoNotes ["basics"%string] (20 * 2)
  = Some (Ok [mkScored Examples.noteA 4]).
Proof.
  unfold Ranking.keywordSearch. simpl. decide_numbers. simpl.
  unfold Ranking.normalize. simpl. same_scores.
Qed.

Lemma uniqueIds_twoNotes : Database.uniqueIds Examples.twoNotes.
Proof.
  unfold Database.uniqueIds. simpl.
  constructor; [intros [H | []]; discriminate|].
  constructor; [intros [] | constructor].
Qed.

Lemma hybridSearch_sums_contributions_witness :
  JSMap.get
    (Ranking.mergeScores Ranking.defaultHybrid
       [mkScored Examples.noteA 1] [mkScored Examples.noteA 4]) "a"
  = Some (mkScored Examples.noteA
            (Ranking.semanticContribution Ranking.defaultHybrid 1 0 1
             + Ranking.keywordContribution Ranking.defaultHybrid 0 1)).
Proof.
  refine (proj1 (proj2
    (hybridSearch_sums_contributions Examples.twoNotes VectorSearch.new [1; 0]
       ["basics"%string] Ranking.defaultHybrid
       [mkScored Examples.noteA 1] [mkScored Examples.noteA 4] 0 0
       (mkScored Examples.noteA 1) (mkScored Examples.noteA 4)
       distinctKeys_new uniqueIds_twoNotes _ _ _
       search_twoNotes_wide keywordSearch_basics eq_refl eq_refl eq_refl)));
    simpl; lra.
Defined.

(** *** The range of the combined scores *)

Lemma get_of_In {V : Type} (m : JSMap.t V) (k : string) (v : V) :
  NoDup (JSMap.keys m) -> In (k, v) m -> JSMap.get m k = Some v.
Proof.
  induction m as [|[k' v'] m IH]; simpl; intros Hnd Hin; [contradiction|].
  inversion Hnd as [|? ? Hnotin Hnd']; subst.
  destruct Hin as [Heq | Hin].
  - injection Heq as -> ->. rewrite String.eqb_refl. reflexivity.
  - destruct (String.eqb k k') eqn:Hk; [|apply IH; assumption].
    apply String.eqb_eq in Hk. subst k'. exfalso. apply Hnotin.
    apply in_map_iff. exists (k, v). auto.
Qed.

Section MergedKeys.

Import Ranking.

Variable o : HybridOptions.

Lemma addSemantic_keys (total : nat) (sem : list ScoredNote) :
  forall (index : nat) (m : JSMap.t ScoredNote),
    NoDup (JSMap.keys m) -> NoDup (JSMap.keys (addSemantic o total index sem m)).
Proof.
  induction sem as [|r sem IH]; intros index m Hnd; simpl; [exact Hnd|].
  apply IH, set_NoDup, Hnd.
Qed.

Lemma addKeyword_keys (total : nat) (kws : list ScoredNote) :
  forall (index : nat) (m : JSMap.t ScoredNote),
    NoDup (JSMap.keys m) -> NoDup (JSMap.keys (addKeyword o total index kws m)).
Proof.
  induction kws as [|k kws IH]; intros index m Hnd; simpl; [exact Hnd|].
  apply IH. destruct (JSMap.get m (id (note k))); apply set_NoDup, Hnd.
Qed.

Lemma mergeScores_keys (sem kws : list ScoredNote) :
  NoDup (JSMap.keys (mergeScores o sem kws)).
Proof. apply addKeyword_keys, addSemantic_keys. constructor. Qed.

End MergedKeys.


(** On the example store the default options give the first note, with
    0.7 for the semantic signal and 0.3 for the keyword [basics]. *)
Lemma hybridSearch_twoNotes :
  snd (Ranking.hybridSearch Examples.twoNotes VectorSearch.new [1; 0]
         ["basics"%string] Ranking.defaultHybrid)
  = Some (Ok [mkScored Examples.noteA 1]).
Proof.
  unfold Ranking.hybridSearch, VectorSearch.search. simpl.
  rewrite cosine_e1_e1. decide_numbers. simpl.
  rewrite cosine_e1_e2. decide_numbers. simpl.
  rank_merged. same_scores.
Qed.



(** ** The query router *)

Example parse_tag_query :
  SearchView.parseSearchQuery "TAG:  react   hooks"
  = SearchView.mkParsed SearchView.TagQuery ["react"%string; "hooks"%string].
Proof. reflexivity. Qed.

Example parse_keyword_query :
  SearchView.parseSearchQuery "a neural  network"
  = SearchView.mkParsed SearchView.KeywordQuery ["neural"%string; "network"%string].
Proof. reflexivity. Qed.

Example parse_tag_without_term :
  SearchView.parseSearchQuery "tag:"
  = SearchView.mkParsed SearchView.KeywordQuery ["tag:"%string].
Proof. reflexivity. Qed.

Example compile_examples :
  RegExp.compile "node.js"
  = RegExp.Pattern [RegExp.Char "n"; RegExp.Char "o"; RegExp.Char "d"; RegExp.Char "e";
                    RegExp.AnyChar; RegExp.Char "j"; RegExp.Char "s"]
  /\ RegExp.compile "c++" = RegExp.Invalid
  /\ RegExp.compile "*" = RegExp.Invalid
  /\ RegExp.compile "c+" = RegExp.Unmodelled
  /\ RegExp.matchCount "aa" "aaaaa" = Some (Ok 2%nat)
  /\ RegExp.matchCount "" "ab" = Some (Ok 3%nat).
Proof. repeat split. Qed.

Section Router.

Import Ranking SearchView.

Variable embed : string -> option (list R).
Variable db : Database.t.
Variable vs : VectorSearch.t.


End Router.


(** * Further properties of the search core *)

(** ** Order and completeness of [search] *)

Lemma filterMap_sorted {A B : Type} (ka : A -> R) (kb : B -> R)
      (f : A -> option B) (l : list A) :
  (forall x y, f x = Some y -> kb y = ka x) ->
  StronglySorted (fun a b => ka a >= ka b) l ->
  StronglySorted (fun a b => kb a >= kb b) (JSArray.filterMap f l).
Proof.
  intros Hf. induction 1 as [|x l Hsorted IH Hall]; simpl; [constructor|].
  destruct (f x) as [y|] eqn:Hx; [|exact IH].
  constructor; [exact IH|].
  rewrite Forall_forall in *. intros z Hz.
  apply filterMap_In in Hz. destruct Hz as (x' & Hin & Hx').
  rewrite (Hf _ _ Hx), (Hf _ _ Hx'). apply Hall, Hin.
Qed.

(** X1: The results of [search] stand from the highest score to the lowest. *)
Theorem search_sorted (db : Database.t) (vs : VectorSearch.t) (q : list R)
        (opts : VectorSearch.SearchOptions) (results : list ScoredNote) :
  snd (VectorSearch.search db vs q opts) = Ok results ->
  Spec.descending results.
Proof.
  unfold VectorSearch.search. simpl.
  destruct (VectorSearch.scan q opts _ []) as [found|err]; [|discriminate].
  intros H. injection H as <-.
  unfold Spec.descending. apply (sorted_nth score).
  apply (filterMap_sorted snd score).
  - intros r sn Hres. apply resolve_Some in Hres. apply Hres.
  - apply sorted_firstn. apply (sort_sorted snd).
Qed.

Lemma search_sorted_witness : Spec.descending [mkScored Examples.noteA 1].
Proof.
  exact (search_sorted Examples.twoNotes VectorSearch.new [1; 0]
           VectorSearch.defaultOptions [mkScored Examples.noteA 1] search_twoNotes).
Defined.

(** X2: Each result of [search] is the record that the store holds under its
    id, scored with the cosine similarity of the query and of the cached
    vector of that id; and no note comes twice. *)
Theorem search_returns_stored_notes (db : Database.t) (vs : VectorSearch.t)
        (q : list R) (opts : VectorSearch.SearchOptions) (results : list ScoredNote) :
  VectorSearch.distinctKeys vs ->
  snd (VectorSearch.search db vs q opts) = Ok results ->
  NoDup (Spec.ids results)
  /\ forall sn, In sn results ->
       Database.getNote db (id (note sn)) = Some (note sn)
       /\ exists e,
           In (id (note sn), e) (VectorSearch.cacheOf (VectorSearch.ensureCache db vs))
           /\ VectorSearch.cosineSimilarity q (vector e) = Ok (score sn).
Proof.
  intros Hkeys H. split; [apply (search_ids db vs q opts results Hkeys H)|].
  apply search_results in H. destruct H as (_ & Hall).
  intros sn Hin. destruct (Hall sn Hin) as ((_ & _ & e & He & Hcos) & Hget).
  split; [exact Hget|]. exists e. auto.
Qed.

Lemma search_returns_stored_notes_witness :
  NoDup (Spec.ids [mkScored Examples.noteA 1])
  /\ forall sn, In sn [mkScored Examples.noteA 1] ->
       Database.getNote Examples.twoNotes (id (note sn)) = Some (note sn)
       /\ exists e,
           In (id (note sn), e)
              (VectorSearch.cacheOf
                 (VectorSearch.ensureCache Examples.twoNotes VectorSearch.new))
           /\ VectorSearch.cosineSimilarity [1; 0] (vector e) = Ok (score sn).
Proof.
  exact (search_returns_stored_notes Examples.twoNotes VectorSearch.new [1; 0]
           VectorSearch.defaultOptions [mkScored Examples.noteA 1]
           distinctKeys_new search_twoNotes).
Defined.

Lemma scan_length (q : list R) (opts : VectorSearch.SearchOptions)
      (cache : JSMap.t EmbeddingRecord) :
  forall found,
    VectorSearch.scan q opts cache [] = Ok found ->
    (List.length found <= List.length cache)%nat.
Proof.
  induction cache as [|[key e] cache IH]; intros found H; simpl in H.
  - injection H as <-. simpl. lia.
  - destruct (JSArray.includes (VectorSearch.excludeIds opts) key).
    + specialize (IH found H). simpl. lia.
    + destruct (VectorSearch.cosineSimilarity q (vector e)) as [s|err]; [|discriminate].
      destruct (Rgeb s (VectorSearch.threshold opts)).
      * rewrite scan_accumulator in H.
        destruct (VectorSearch.scan q opts cache []) as [rest|err]; [|discriminate].
        simpl in H. injection H as <-. specialize (IH rest eq_refl). simpl. lia.
      * specialize (IH found H). simpl. lia.
Qed.

Lemma scan_complete (q : list R) (opts : VectorSearch.SearchOptions)
      (cache : JSMap.t EmbeddingRecord) :
  forall found,
    VectorSearch.scan q opts cache [] = Ok found ->
    forall key e s,
      In (key, e) cache ->
      ~ In key (VectorSearch.excludeIds opts) ->
      VectorSearch.cosineSimilarity q (vector e) = Ok s ->
      s >= VectorSearch.threshold opts ->
      In (key, s) found.
Proof.
  induction cache as [|[key0 e0] cache IH]; intros found H key e s Hin Hexcl Hcos Hth;
    [contradiction|].
  simpl in H.
  destruct (JSArray.includes (VectorSearch.excludeIds opts) key0) eqn:Hex0.
  - destruct Hin as [Heq | Hin]; [|apply (IH found H key e s); assumption].
    injection Heq as -> ->. apply includes_In in Hex0. contradiction.
  - destruct (VectorSearch.cosineSimilarity q (vector e0)) as [s0|err] eqn:Hcos0;
      [|discriminate].
    destruct (Rgeb s0 (VectorSearch.threshold opts)) eqn:Hth0.
    + rewrite scan_accumulator in H.
      destruct (VectorSearch.scan q opts cache []) as [rest|err]; [|discriminate].
      simpl in H. injection H as <-.
      destruct Hin as [Heq | Hin].
      * injection Heq as -> ->. left. congruence.
      * right. apply (IH rest eq_refl key e s); assumption.
    + destruct Hin as [Heq | Hin]; [|apply (IH found H key e s); assumption].
      injection Heq as -> ->. apply Rgeb_false in Hth0.
      assert (s0 = s) by congruence. subst. lra.
Qed.

Lemma search_keeps (db : Database.t) (vs : VectorSearch.t) (q : list R)
      (opts : VectorSearch.SearchOptions) (results : list ScoredNote)
      (key : string) (e : EmbeddingRecord) (s : R) (n : Note) :
  snd (VectorSearch.search db vs q opts) = Ok results ->
  (List.length (VectorSearch.cacheOf (VectorSearch.ensureCache db vs))
   <= VectorSearch.limit opts)%nat ->
  In (key, e) (VectorSearch.cacheOf (VectorSearch.ensureCache db vs)) ->
  ~ In key (VectorSearch.excludeIds opts) ->
  VectorSearch.cosineSimilarity q (vector e) = Ok s ->
  s >= VectorSearch.threshold opts ->
  Database.getNote db key = Some n ->
  (forall t ts, VectorSearch.tagFilter opts = Some (t :: ts) ->
                Spec.passesByEquality (t :: ts) n) ->
  In (mkScored n s) results.
Proof.
  unfold VectorSearch.search. simpl.
  destruct (VectorSearch.scan q opts _ []) as [found|err] eqn:Hscan; [|discriminate].
  intros H Hlimit Hin Hexcl Hcos Hth Hget Hfilter. injection H as <-.
  apply filterMap_In. exists (key, s). split.
  - unfold JSArray.slice0. rewrite firstn_all2.
    + apply sort_In. apply (scan_complete q opts _ found Hscan key e s); assumption.
    + rewrite sort_length. apply scan_length in Hscan. lia.
  - apply resolve_cases. simpl. auto.
Qed.

(** X3: When [limit] is at least the size of the cache, nothing is cut: every
    cached entry that is not excluded, whose similarity reaches the
    threshold, whose note is in the store and passes the tag filter, is
    among the results. *)
Theorem search_complete (db : Database.t) (vs : VectorSearch.t) (q : list R)
        (opts : VectorSearch.SearchOptions) (results : list ScoredNote)
        (key : string) (e : EmbeddingRecord) (s : R) (n : Note) :
  snd (VectorSearch.search db vs q opts) = Ok results ->
  (List.length (VectorSearch.cacheOf (VectorSearch.ensureCache db vs))
   <= VectorSearch.limit opts)%nat ->
  In (key, e) (VectorSearch.cacheOf (VectorSearch.ensureCache db vs)) ->
  ~ In key (VectorSearch.excludeIds opts) ->
  VectorSearch.cosineSimilarity q (vector e) = Ok s ->
  s >= VectorSearch.threshold opts ->
  Database.getNote db key = Some n ->
  (forall t ts, VectorSearch.tagFilter opts = Some (t :: ts) ->
                Spec.passesByEquality (t :: ts) n) ->
  In (mkScored n s) results.
Proof. apply search_keeps. Qed.

Lemma search_complete_witness :
  In (mkScored Examples.noteA 1) [mkScored Examples.noteA 1].
Proof.
  refine (search_complete Examples.twoNotes VectorSearch.new [1; 0]
            VectorSearch.defaultOptions [mkScored Examples.noteA 1]
            "a"%string (mkEmbedding "a" [1; 0] "all-MiniLM-L6-v2") 1 Examples.noteA
            search_twoNotes _ _ _ cosine_e1_e1 _ eq_refl _).
  - simpl. lia.
  - simpl. left. reflexivity.
  - simpl. intros [].
  - simpl. lra.
  - simpl. discriminate.
Defined.

(** ** The cache between refreshes *)

(** X4: While the cache is marked valid, [search] reads the store for the
    notes alone: two stores with the same notes give the same answer,
    whatever embeddings they hold, and the cache stays as it is. *)
Theorem search_valid_cache_is_not_refreshed (db db' : Database.t)
        (vs : VectorSearch.t) (cache : JSMap.t EmbeddingRecord) (q : list R)
        (opts : VectorSearch.SearchOptions) :
  VectorSearch.cacheValid vs = true ->
  VectorSearch.embeddingCache vs = Some cache ->
  Database.notes db = Database.notes db' ->
  VectorSearch.search db vs q opts = VectorSearch.search db' vs q opts
  /\ fst (VectorSearch.search db vs q opts) = vs.
Proof.
  intros Hvalid Hcache Hnotes.
  assert (Hensure : forall d, VectorSearch.ensureCache d vs = vs).
  { intros d. unfold VectorSearch.ensureCache. rewrite Hcache, Hvalid. reflexivity. }
  unfold VectorSearch.search. rewrite !Hensure. split; [|reflexivity].
  f_equal. destruct (VectorSearch.scan q opts (VectorSearch.cacheOf vs) []);
    [|reflexivity].
  f_equal. unfold VectorSearch.resolve, Database.getNote. rewrite Hnotes. reflexivity.
Qed.

Lemma search_valid_cache_is_not_refreshed_witness :
  VectorSearch.search Examples.twoNotes
    (VectorSearch.refreshCache Examples.twoNotes VectorSearch.new) [1; 0]
    VectorSearch.defaultOptions
  = VectorSearch.search (Database.deleteEmbedding Examples.twoNotes "a")
      (VectorSearch.refreshCache Examples.twoNotes VectorSearch.new) [1; 0]
      VectorSearch.defaultOptions.
Proof.
  exact (proj1 (search_valid_cache_is_not_refreshed Examples.twoNotes
                  (Database.deleteEmbedding Examples.twoNotes "a")
                  (VectorSearch.refreshCache Examples.twoNotes VectorSearch.new)
                  (Database.getAllEmbeddings Examples.twoNotes) [1; 0]
                  VectorSearch.defaultOptions eq_refl eq_refl eq_refl)).
Defined.

Section Consistent.

Import VectorSearch.

Variable db : Database.t.

Lemma consistent_new : consistent new.
Proof. intros H. discriminate. Qed.

Lemma consistent_refreshCache (vs : t) : consistent (refreshCache db vs).
Proof. intros _. discriminate. Qed.

Lemma consistent_invalidateCache (vs : t) : consistent (invalidateCache vs).
Proof. intros H. discriminate. Qed.

Lemma consistent_warmUp (vs : t) : consistent vs -> consistent (warmUp db vs).
Proof.
  intros H. unfold warmUp. destruct (cacheValid vs) eqn:Hv; simpl.
  - exact H.
  - apply consistent_refreshCache.
Qed.

Lemma consistent_search (vs : t) (q : list R) (opts : SearchOptions) :
  consistent vs -> consistent (fst (search db vs q opts)).
Proof.
  intros H. unfold search, ensureCache. simpl.
  destruct (embeddingCache vs) eqn:Hc; [|apply consistent_refreshCache].
  destruct (cacheValid vs) eqn:Hv; simpl; [|apply consistent_refreshCache].
  intros _. rewrite Hc. discriminate.
Qed.

(** X5: [warmUp] leaves the cache valid, a second [warmUp] changes nothing,
    and the search that follows on the same store works on the warmed
    cache without reading the embeddings again. *)
Theorem warmUp_then_search (vs : t) (q : list R) (opts : SearchOptions) :
  consistent vs ->
  cacheValid (warmUp db vs) = true
  /\ warmUp db (warmUp db vs) = warmUp db vs
  /\ fst (search db (warmUp db vs) q opts) = warmUp db vs
  /\ (cacheValid vs = false ->
      embeddingCache (warmUp db vs) = Some (Database.getAllEmbeddings db)).
Proof.
  intros Hcons. unfold warmUp. destruct (cacheValid vs) eqn:Hv; simpl.
  - rewrite Hv. simpl. repeat split; try discriminate.
    unfold ensureCache. rewrite Hv.
    destruct (embeddingCache vs) eqn:Hc; [reflexivity|].
    exfalso. apply (Hcons Hv). exact Hc.
  - repeat split.
Qed.

End Consistent.

Lemma warmUp_then_search_witness :
  VectorSearch.cacheValid (VectorSearch.warmUp Examples.twoNotes VectorSearch.new) = true
  /\ VectorSearch.warmUp Examples.twoNotes
       (VectorSearch.warmUp Examples.twoNotes VectorSearch.new)
     = VectorSearch.warmUp Examples.twoNotes VectorSearch.new
  /\ fst (VectorSearch.search Examples.twoNotes
            (VectorSearch.warmUp Examples.twoNotes VectorSearch.new) [1; 0]
            VectorSearch.defaultOptions)
     = VectorSearch.warmUp Examples.twoNotes VectorSearch.new
  /\ (VectorSearch.cacheValid VectorSearch.new = false ->
      VectorSearch.embeddingCache (VectorSearch.warmUp Examples.twoNotes VectorSearch.new)
      = Some (Database.getAllEmbeddings Examples.twoNotes)).
Proof.
  exact (warmUp_then_search Examples.twoNotes VectorSearch.new [1; 0]
           VectorSearch.defaultOptions consistent_new).
Defined.

(** *** The statistics of the cache *)

Lemma set_fresh_length {V : Type} (m : JSMap.t V) (k : string) (v : V) :
  ~ In k (JSMap.keys m) ->
  List.length (JSMap.set m k v) = S (List.length m).
Proof.
  induction m as [|[k' v'] m IH]; simpl; intros Hnotin; [reflexivity|].
  destruct (String.eqb k k') eqn:Hk.
  - apply String.eqb_eq in Hk. exfalso. apply Hnotin. left. symmetry. exact Hk.
  - simpl. rewrite IH; [reflexivity|]. intros Hin. apply Hnotin. right. exact Hin.
Qed.

Lemma set_keys_fresh {V : Type} (m : JSMap.t V) (k : string) (v : V) :
  ~ In k (JSMap.keys m) -> JSMap.keys (JSMap.set m k v) = JSMap.keys m ++ [k].
Proof.
  intros Hnotin. rewrite set_keys.
  destruct (JSArray.includes (JSMap.keys m) k) eqn:Hin; [|reflexivity].
  apply includes_In in Hin. contradiction.
Qed.

Lemma fold_set_length (es : list EmbeddingRecord) :
  forall m : JSMap.t EmbeddingRecord,
    NoDup (JSMap.keys m ++ map noteId es) ->
    List.length (fold_left (fun cache e => JSMap.set cache (noteId e) e) es m)
    = (List.length m + List.length es)%nat.
Proof.
  induction es as [|e es IH]; intros m Hnd; simpl; [lia|].
  simpl in Hnd.
  assert (Hfresh : ~ In (noteId e) (JSMap.keys m)).
  { intros Hin. apply NoDup_remove_2 in Hnd. apply Hnd.
    apply in_or_app. left. exact Hin. }
  rewrite IH.
  - rewrite set_fresh_length by exact Hfresh. lia.
  - rewrite set_keys_fresh by exact Hfresh. rewrite <- app_assoc. exact Hnd.
Qed.

(** X6: After a refresh on a store with one embedding per key, the statistics
    tell a valid cache with one entry per embedding of the store and 1536
    bytes for each; [invalidateCache] changes the flag alone. *)
Theorem getCacheStats_after_refresh (db : Database.t) (vs : VectorSearch.t) :
  Database.uniqueEmbeddings db ->
  VectorSearch.getCacheStats (VectorSearch.refreshCache db vs)
  = VectorSearch.mkStats true (List.length (Database.embeddings db))
                         (List.length (Database.embeddings db) * 1536)
  /\ VectorSearch.getCacheStats
       (VectorSearch.invalidateCache (VectorSearch.refreshCache db vs))
     = VectorSearch.mkStats false (List.length (Database.embeddings db))
                            (List.length (Database.embeddings db) * 1536).
Proof.
  intros Huniq.
  assert (Hlen : List.length (Database.getAllEmbeddings db)
                 = List.length (Database.embeddings db)).
  { unfold Database.getAllEmbeddings. rewrite fold_set_length; [reflexivity|].
    exact Huniq. }
  unfold VectorSearch.getCacheStats. simpl. rewrite Hlen.
  split; f_equal; lia.
Qed.

Lemma uniqueEmbeddings_twoNotes : Database.uniqueEmbeddings Examples.twoNotes.
Proof.
  unfold Database.uniqueEmbeddings. simpl.
  constructor; [intros [H | []]; discriminate|].
  constructor; [intros [] | constructor].
Qed.

Lemma getCacheStats_after_refresh_witness :
  VectorSearch.getCacheStats
    (VectorSearch.refreshCache Examples.twoNotes VectorSearch.new)
  = VectorSearch.mkStats true 2 3072.
Proof.
  exact (proj1 (getCacheStats_after_refresh Examples.twoNotes VectorSearch.new
                  uniqueEmbeddings_twoNotes)).
Defined.

(** ** Similar notes, as the code has them *)

(** X7: [findSimilar] answers the empty list, and leaves the object as it is,
    when the note has no embedding in the store; otherwise its results
    are at most [limit + 1] notes of the store, none of them the note
    itself, each with a similarity of 0.5 at least. *)
Theorem findSimilar_contract (db : Database.t) (vs : VectorSearch.t) (key : string)
        (lim : nat) :
  (Database.getEmbedding db key = None ->
   VectorSearch.findSimilar db vs key lim = (vs, Ok []))
  /\ forall results,
      snd (VectorSearch.findSimilar db vs key lim) = Ok results ->
      (List.length results <= lim + 1)%nat
      /\ forall sn, In sn results ->
           id (note sn) <> key
           /\ score sn >= 5 / 10
           /\ Database.getNote db (id (note sn)) = Some (note sn).
Proof.
  split; [apply findSimilar_no_embedding|].
  intros results H.
  destruct (findSimilar_results db vs key lim results H) as (Hlen & Hall).
  split; [exact Hlen|]. intros sn Hin. destruct (Hall sn Hin) as (Hid & Hscore).
  split; [exact Hid|]. split; [exact Hscore|].
  unfold VectorSearch.findSimilar in H.
  destruct (Database.getEmbedding db key) as [e|].
  - apply search_results in H. destruct H as (_ & Hres). apply (Hres sn Hin).
  - simpl in H. injection H as <-. contradiction.
Qed.

Lemma findSimilar_threeAlike :
  snd (VectorSearch.findSimilar Examples.threeAlike VectorSearch.new "a" 2)
  = Ok [mkScored Examples.noteB 1; mkScored Examples.noteC 1].
Proof.
  unfold VectorSearch.findSimilar, VectorSearch.search. simpl.
  rewrite cosine_e1_e1. decide_numbers. simpl.
  unfold VectorSearch.byScoreDesc. simpl. decide_numbers.
  reflexivity.
Qed.

Lemma findSimilar_contract_witness :
  (List.length [mkScored Examples.noteB 1; mkScored Examples.noteC 1] <= 2 + 1)%nat
  /\ forall sn, In sn [mkScored Examples.noteB 1; mkScored Examples.noteC 1] ->
       id (note sn) <> "a"%string
       /\ score sn >= 5 / 10
       /\ Database.getNote Examples.threeAlike (id (note sn)) = Some (note sn).
Proof.
  exact (proj2 (findSimilar_contract Examples.threeAlike VectorSearch.new "a" 2)
           [mkScored Examples.noteB 1; mkScored Examples.noteC 1]
           findSimilar_threeAlike).
Defined.

(** ** The shape of the hybrid results *)

Lemma get_Some_In {V : Type} (m : JSMap.t V) (k : string) (v : V) :
  JSMap.get m k = Some v -> In (k, v) m.
Proof.
  induction m as [|[k' v'] m IH]; simpl; [discriminate|].
  destruct (String.eqb k k') eqn:Hk.
  - apply String.eqb_eq in Hk. subst k'. intros H. injection H as <-. left. reflexivity.
  - intros H. right. apply IH, H.
Qed.

Section MergedEntries.

Import Ranking.

Variable o : HybridOptions.

Lemma filed_set (sem kws : list ScoredNote) (m : JSMap.t ScoredNote)
      (r : ScoredNote) (s : R) :
  Spec.filed sem kws m -> In r (sem ++ kws) ->
  Spec.filed sem kws (JSMap.set m (id (note r)) (mkScored (note r) s)).
Proof.
  intros Hm Hr k v Hin. apply set_In in Hin. destruct Hin as [Heq | Hin].
  - injection Heq as -> ->. simpl. split; [reflexivity|]. exists r. auto.
  - apply Hm, Hin.
Qed.

Lemma addSemantic_filed (sem kws : list ScoredNote) (total : nat)
      (rest : list ScoredNote) :
  forall (index : nat) (m : JSMap.t ScoredNote),
    incl rest sem -> Spec.filed sem kws m ->
    Spec.filed sem kws (addSemantic o total index rest m).
Proof.
  induction rest as [|r rest IH]; intros index m Hincl Hm; simpl; [exact Hm|].
  apply IH.
  - intros x Hx. apply Hincl. right. exact Hx.
  - apply filed_set; [exact Hm|]. apply in_or_app. left. apply Hincl. left. reflexivity.
Qed.

Lemma addKeyword_filed (sem kws : list ScoredNote) (total : nat)
      (rest : list ScoredNote) :
  forall (index : nat) (m : JSMap.t ScoredNote),
    incl rest kws -> Spec.filed sem kws m ->
    Spec.filed sem kws (addKeyword o total index rest m).
Proof.
  induction rest as [|r rest IH]; intros index m Hincl Hm; simpl; [exact Hm|].
  apply IH; [intros x Hx; apply Hincl; right; exact Hx|].
  destruct (JSMap.get m (id (note r))) as [existing|] eqn:Hget.
  - apply get_Some_In in Hget. destruct (Hm _ _ Hget) as (Hid & r' & Hr' & Hnote).
    intros k v Hin. apply set_In in Hin. destruct Hin as [Heq | Hin]; [|apply Hm, Hin].
    injection Heq as -> ->. simpl. split; [exact Hid|]. exists r'. auto.
  - apply filed_set; [exact Hm|]. apply in_or_app. right. apply Hincl. left. reflexivity.
Qed.

Lemma mergeScores_filed (sem kws : list ScoredNote) :
  Spec.filed sem kws (mergeScores o sem kws).
Proof.
  apply addKeyword_filed; [apply incl_refl|].
  apply addSemantic_filed; [apply incl_refl|]. intros k v [].
Qed.

Lemma filed_ids (sem kws : list ScoredNote) (m : JSMap.t ScoredNote) :
  Spec.filed sem kws m -> Spec.ids (JSMap.values m) = JSMap.keys m.
Proof.
  unfold Spec.ids, JSMap.values, JSMap.keys. rewrite map_map.
  induction m as [|[k v] m IH]; intros Hm; simpl; [reflexivity|].
  f_equal.
  - apply (Hm k v). left. reflexivity.
  - apply IH. intros k' v' Hin. apply Hm. right. exact Hin.
Qed.

End MergedEntries.

(** X8: A list that [hybridSearch] returns has at most [limit] entries, from
    the highest combined score to the lowest; each is a note of the
    semantic or of the keyword results, and none comes twice, also when it
    is in both lists. *)
Theorem hybridSearch_shape (db : Database.t) (vs : VectorSearch.t) (q : list R)
        (keywords : list string) (o : Ranking.HybridOptions)
        (results : list ScoredNote) :
  snd (Ranking.hybridSearch db vs q keywords o) = Some (Ok results) ->
  (List.length results <= Ranking.hLimit o)%nat
  /\ Spec.descending results
  /\ NoDup (Spec.ids results)
  /\ exists sem kws,
      snd (VectorSearch.search db vs q (Ranking.semanticOptions o)) = Ok sem
      /\ Ranking.keywordSearch db keywords (Ranking.hLimit o * 2) = Some (Ok kws)
      /\ forall sn, In sn results -> In (note sn) (map note (sem ++ kws)).
Proof.
  intros H. apply hybridSearch_Ok in H. destruct H as (sem & kws & Hsem & Hkws & ->).
  pose proof (mergeScores_filed o sem kws) as Hfiled.
  unfold Ranking.rankMerged.
  split; [apply slice0_length|]. split; [apply top_descending|]. split.
  - unfold JSArray.slice0, Spec.ids. rewrite <- firstn_map. apply firstn_NoDup.
    eapply Permutation_NoDup; [apply Permutation_map, sort_perm|].
    fold (Spec.ids (JSMap.values (Ranking.mergeScores o sem kws))).
    rewrite (filed_ids sem kws _ Hfiled). apply mergeScores_keys.
  - exists sem, kws. split; [exact Hsem|]. split; [exact Hkws|].
    intros sn Hin. apply slice0_In, sort_In in Hin.
    unfold JSMap.values in Hin. apply in_map_iff in Hin.
    destruct Hin as ([k v] & Hv & Hin). simpl in Hv. subst v.
    destruct (Hfiled k sn Hin) as (_ & r & Hr & Hnote).
    rewrite Hnote. apply in_map, Hr.
Qed.

Lemma hybridSearch_shape_witness :
  (List.length [mkScored Examples.noteA 1] <= 20)%nat
  /\ Spec.descending [mkScored Examples.noteA 1]
  /\ NoDup (Spec.ids [mkScored Examples.noteA 1])
  /\ exists sem kws,
      snd (VectorSearch.search Examples.twoNotes VectorSearch.new [1; 0]
             (Ranking.semanticOptions Ranking.defaultHybrid)) = Ok sem
      /\ Ranking.keywordSearch Examples.twoNotes ["basics"%string] (20 * 2)
         = Some (Ok kws)
      /\ forall sn, In sn [mkScored Examples.noteA 1] ->
                    In (note sn) (map note (sem ++ kws)).
Proof.
  exact (hybridSearch_shape Examples.twoNotes VectorSearch.new [1; 0]
           ["basics"%string] Ranking.defaultHybrid [mkScored Examples.noteA 1]
           hybridSearch_twoNotes).
Defined.

(** ** The results of the keyword and of the tag search *)

Lemma map_sorted {A B : Type} (ka : A -> R) (kb : B -> R) (f : A -> B) (l : list A) :
  (forall x y, ka x >= ka y -> kb (f x) >= kb (f y)) ->
  StronglySorted (fun a b => ka a >= ka b) l ->
  StronglySorted (fun a b => kb a >= kb b) (map f l).
Proof.
  intros Hf. induction 1 as [|x l Hsorted IH Hall]; simpl; constructor; [exact IH|].
  rewrite Forall_forall in *. intros z Hz. apply in_map_iff in Hz.
  destruct Hz as (y & <- & Hy). apply Hf, Hall, Hy.
Qed.

(** X9: A list that [keywordSearch] returns has at most [limit] entries, from
    the highest score to the lowest, each with a positive score and each
    among the first 1000 notes of the scan; on a store with one note per
    id none comes twice. *)
Theorem keywordSearch_results (db : Database.t) (keywords : list string) (lim : nat)
        (results : list ScoredNote) :
  Ranking.keywordSearch db keywords lim = Some (Ok results) ->
  (List.length results <= lim)%nat
  /\ Spec.descending results
  /\ (forall sn, In sn results ->
        score sn > 0 /\ In (note sn) (firstn 1000 (Database.notes db)))
  /\ (Database.uniqueIds db -> NoDup (Spec.ids results)).
Proof.
  intros H. split; [|split; [|split]].
  - unfold Ranking.keywordSearch in H. destruct keywords as [|k ks].
    + injection H as <-. simpl. lia.
    + destruct (Ranking.scoreAll _ _) as [[scored|e]|]; try discriminate.
      injection H as <-. rewrite length_map. apply slice0_length.
  - unfold Ranking.keywordSearch in H. destruct keywords as [|k ks].
    + injection H as <-. intros i j a b _ Hi. destruct i; discriminate.
    + destruct (Ranking.scoreAll _ _) as [[scored|e]|]; try discriminate.
      injection H as <-. unfold Spec.descending. apply (sorted_nth score).
      apply (map_sorted score score).
      * intros x y Hxy. unfold Ranking.normalize. simpl.
        assert (Hpos : 0 < INR (S (List.length (map JSString.toLowerCase ks))))
          by (apply lt_0_INR; lia).
        unfold Rdiv. apply Rle_ge, Rmult_le_compat_r; [|lra].
        apply Rlt_le, Rinv_0_lt_compat, Hpos.
      * apply sorted_firstn, (sort_sorted score).
  - unfold Ranking.keywordSearch in H. destruct keywords as [|k ks].
    + injection H as <-. contradiction.
    + destruct (Ranking.scoreAll _ _) as [[scored|e]|] eqn:Hall; try discriminate.
      injection H as <-. intros sn Hin. apply in_map_iff in Hin.
      destruct Hin as (item & <- & Hitem).
      apply slice0_In, sort_In, filter_In in Hitem. destruct Hitem as (Hitem & Hpos).
      apply Rgtb_true in Hpos. apply scoreAll_notes in Hall. split.
      * unfold Ranking.normalize. simpl.
        assert (Hn : 0 < INR (S (List.length (map JSString.toLowerCase ks))))
          by (apply lt_0_INR; lia).
        apply Rlt_gt, Rdiv_lt_0_compat; [lra | exact Hn].
      * unfold Ranking.normalize. cbn [note].
        unfold Database.getAllNotes in Hall. rewrite <- Hall.
        apply in_map, Hitem.
  - intros Huniq. apply (keywordSearch_ids db keywords lim results Huniq H).
Qed.

Lemma keywordSearch_results_witness :
  (List.length [mkScored Examples.noteA 4] <= 20 * 2)%nat
  /\ Spec.descending [mkScored Examples.noteA 4]
  /\ (forall sn, In sn [mkScored Examples.noteA 4] ->
        score sn > 0 /\ In (note sn) (firstn 1000 (Database.notes Examples.twoNotes)))
  /\ (Database.uniqueIds Examples.twoNotes -> NoDup (Spec.ids [mkScored Examples.noteA 4])).
Proof.
  exact (keywordSearch_results Examples.twoNotes ["basics"%string] (20 * 2)
           [mkScored Examples.noteA 4] keywordSearch_basics).
Defined.

Lemma Rsum_bounded (bound : nat) (l : list R) :
  (forall x, In x l -> exists k, (k <= bound)%nat /\ x = INR k) ->
  exists total, (total <= bound * List.length l)%nat /\ Spec.Rsum l = INR total.
Proof.
  induction l as [|x l IH]; intros Hall.
  - exists 0%nat. simpl. split; [lia | reflexivity].
  - destruct (Hall x (or_introl eq_refl)) as (k & Hk & ->).
    destruct IH as (total & Htotal & Hsum); [intros y Hy; apply Hall; right; exact Hy|].
    exists (k + total)%nat. split; [simpl; lia|].
    rewrite Rsum_cons, Hsum, plus_INR. reflexivity.
Qed.

Lemma tagScore_natural (terms : list string) (n : Note) :
  exists k, (k <= 2 * List.length (tags n) * List.length terms)%nat
            /\ Spec.tagScore terms n = INR k.
Proof.
  unfold Spec.tagScore.
  destruct (Rsum_bounded (2 * List.length (tags n))
              (map (fun term => Spec.Rsum (map (Spec.tagAward term) (tags n))) terms))
    as (total & Htotal & Hsum).
  - intros x Hx. apply in_map_iff in Hx. destruct Hx as (term & <- & _).
    destruct (Rsum_bounded 2 (map (Spec.tagAward term) (tags n)))
      as (k & Hk & Hsum).
    + intros y Hy. apply in_map_iff in Hy. destruct Hy as (tag & <- & _).
      unfold Spec.tagAward.
      destruct (String.eqb _ _); [exists 2%nat; split; [lia | reflexivity]|].
      destruct (Spec.contains tag term);
        [exists 1%nat | exists 0%nat]; split; try lia; reflexivity.
    + rewrite length_map in Hk. exists k. split; [lia | exact Hsum].
  - rewrite length_map in Htotal. exists total. split; [exact Htotal | exact Hsum].
Qed.

(** X10: Each score that [tagSearch] returns is a whole number, 1 at least and
    at most 2 for each pair of a term and a tag of the note; each note is
    among the first 1000 of the scan, and on a store with one note per id
    none comes twice. *)
Theorem tagSearch_scores (db : Database.t) (terms : list string) (lim : nat)
        (sn : ScoredNote) :
  In sn (Ranking.tagSearch db terms lim) ->
  (exists k, score sn = INR k
             /\ (1 <= k <= 2 * List.length (tags (note sn)) * List.length terms)%nat)
  /\ In (note sn) (firstn 1000 (Database.notes db))
  /\ (Database.uniqueIds db -> NoDup (Spec.ids (Ranking.tagSearch db terms lim))).
Proof.
  rewrite tagSearch_spec. unfold Spec.tagSearch.
  destruct terms as [|t ts]; [contradiction|].
  intros Hin. pose proof Hin as Hin'.
  apply (slice0_In lim), sort_In, filter_In in Hin. destruct Hin as (Hmap & Hpos).
  apply Rgtb_true in Hpos. apply in_map_iff in Hmap. destruct Hmap as (n & <- & Hn).
  simpl in *. split; [|split; [exact Hn|]].
  - destruct (tagScore_natural (t :: ts) n) as (k & Hk & Hscore).
    exists k. split; [exact Hscore|]. split; [|exact Hk].
    rewrite Hscore in Hpos. destruct k; [simpl in Hpos; lra | lia].
  - intros Huniq. unfold Spec.ids. rewrite <- firstn_map. apply firstn_NoDup.
    eapply Permutation_NoDup; [apply Permutation_map, sort_perm|].
    apply ids_filter. unfold Spec.ids. rewrite map_map. simpl.
    unfold Database.getAllNotes. rewrite <- firstn_map. apply firstn_NoDup, Huniq.
Qed.

Lemma tagSearch_scores_witness :
  (exists k, score (mkScored Examples.noteExact 2) = INR k
             /\ (1 <= k <= 2 * List.length (tags Examples.noteExact)
                            * List.length ["javascript"%string])%nat)
  /\ In Examples.noteExact (firstn 1000 (Database.notes Examples.javascriptNotes))
  /\ (Database.uniqueIds Examples.javascriptNotes ->
      NoDup (Spec.ids (Ranking.tagSearch Examples.javascriptNotes
                         ["javascript"%string] 20))).
Proof.
  apply (tagSearch_scores Examples.javascriptNotes ["javascript"%string] 20
           (mkScored Examples.noteExact 2)).
  rewrite tagSearch_javascript. left. reflexivity.
Defined.

(** * The record store *)

(** ** Pages of notes *)

Lemma cursorLoop_pages (limit offset : nat) (cursor : list Note) :
  forall (skipped : nat) (results : list Note),
    Database.cursorLoop limit offset cursor skipped results
    = results ++ firstn (limit - List.length results)
                        (skipn (offset - skipped) cursor).
Proof.
  induction cursor as [|value rest IH]; intros skipped results.
  - simpl. rewrite skipn_nil, firstn_nil, app_nil_r. reflexivity.
  - cbn [Database.cursorLoop].
    destruct (Nat.leb limit (List.length results)) eqn:Hfull.
    + apply Nat.leb_le in Hfull.
      replace (limit - List.length results)%nat with 0%nat by lia.
      simpl. rewrite app_nil_r. reflexivity.
    + apply Nat.leb_gt in Hfull.
      destruct (Nat.ltb skipped offset) eqn:Hskip.
      * apply Nat.ltb_lt in Hskip. rewrite IH.
        replace (offset - skipped)%nat with (S (offset - S skipped)) by lia.
        reflexivity.
      * apply Nat.ltb_ge in Hskip. rewrite IH, length_app. simpl.
        replace (offset - skipped)%nat with 0%nat by lia.
        replace (limit - List.length results)%nat
          with (S (limit - (List.length results + 1))) by lia.
        simpl. rewrite <- app_assoc. reflexivity.
Qed.

Lemma firstn_add {A : Type} (a b : nat) (l : list A) :
  firstn a l ++ firstn b (skipn a l) = firstn (a + b) l.
Proof.
  revert l. induction a as [|a IH]; intros l; [reflexivity|].
  destruct l as [|x l]; simpl.
  - rewrite firstn_nil. reflexivity.
  - rewrite IH. reflexivity.
Qed.

(** X11: The cursor of [getAllNotes] passes over [offset] notes and reads the
    [limit] next ones; without offset this is the scan of the searches;
    and the page that starts where a page ends continues it. *)
Theorem getAllNotesPaged_pages (db : Database.t) (limit limit' offset : nat) :
  Database.getAllNotesPaged db limit offset
  = firstn limit (skipn offset (Database.notes db))
  /\ Database.getAllNotesPaged db limit 0 = Database.getAllNotes db limit
  /\ Database.getAllNotesPaged db limit offset
     ++ Database.getAllNotesPaged db limit' (offset + limit)
     = Database.getAllNotesPaged db (limit + limit') offset
  /\ (List.length (Database.getAllNotesPaged db limit offset) <= limit)%nat.
Proof.
  assert (Hpage : forall l o,
             Database.getAllNotesPaged db l o = firstn l (skipn o (Database.notes db))).
  { intros l o. unfold Database.getAllNotesPaged. rewrite cursorLoop_pages. simpl.
    rewrite !Nat.sub_0_r. reflexivity. }
  split; [apply Hpage|]. split; [rewrite Hpage; reflexivity|]. split.
  - rewrite !Hpage. rewrite <- (firstn_add limit limit'), skipn_skipn.
    rewrite (Nat.add_comm limit offset). reflexivity.
  - rewrite Hpage. apply firstn_le_length.
Qed.

(** ** Deleting a note *)

Lemma find_filter_other {A : Type} (f g : A -> bool) (l : list A) :
  (forall x, f x = true -> g x = true) ->
  find f (filter g l) = find f l.
Proof.
  intros Himp. induction l as [|x l IH]; simpl; [reflexivity|].
  destruct (g x) eqn:Hg; simpl.
  - destruct (f x); [reflexivity | exact IH].
  - destruct (f x) eqn:Hf; [|exact IH]. rewrite (Himp x Hf) in Hg. discriminate.
Qed.

Lemma find_filter_none {A : Type} (f g : A -> bool) (l : list A) :
  (forall x, f x = true -> g x = false) ->
  find f (filter g l) = None.
Proof.
  intros Himp. induction l as [|x l IH]; simpl; [reflexivity|].
  destruct (g x) eqn:Hg; simpl; [|exact IH].
  destruct (f x) eqn:Hf; [|exact IH]. rewrite (Himp x Hf) in Hg. discriminate.
Qed.

Lemma filter_NoDup_map {A B : Type} (f : A -> B) (g : A -> bool) (l : list A) :
  NoDup (map f l) -> NoDup (map f (filter g l)).
Proof.
  induction l as [|x l IH]; simpl; intros Hnd; [constructor|].
  inversion Hnd as [|? ? Hnotin Hnd']; subst.
  destruct (g x); [|apply IH, Hnd'].
  simpl. constructor; [|apply IH, Hnd'].
  intros Hin. apply Hnotin. apply in_map_iff in Hin.
  destruct Hin as (y & Hy & Hin). apply filter_In in Hin.
  apply in_map_iff. exists y. tauto.
Qed.

Lemma filter_sorted {A : Type} (R : A -> A -> Prop) (g : A -> bool) (l : list A) :
  StronglySorted R l -> StronglySorted R (filter g l).
Proof.
  induction 1 as [|x l Hsorted IH Hall]; simpl; [constructor|].
  destruct (g x); [|exact IH]. constructor; [exact IH|].
  rewrite Forall_forall in *. intros y Hy. apply filter_In in Hy. apply Hall, Hy.
Qed.

(** X12: After [deleteNote] the store has neither the note nor its embedding;
    every other note and embedding is as before; and the store keeps one
    note per id and the order of its embedding keys. *)
Theorem deleteNote_removes (db : Database.t) (key : string) :
  Database.getNote (Database.deleteNote db key) key = None
  /\ Database.getEmbedding (Database.deleteNote db key) key = None
  /\ (forall other, other <> key ->
        Database.getNote (Database.deleteNote db key) other = Database.getNote db other
        /\ Database.getEmbedding (Database.deleteNote db key) other
           = Database.getEmbedding db other)
  /\ (Database.uniqueIds db -> Database.uniqueIds (Database.deleteNote db key))
  /\ (Database.keyOrdered db -> Database.keyOrdered (Database.deleteNote db key)).
Proof.
  unfold Database.getNote, Database.getEmbedding, Database.deleteNote. simpl.
  split; [|split; [|split; [|split]]].
  - apply find_filter_none. intros n Hn. rewrite Hn. reflexivity.
  - apply find_filter_none. intros e He. rewrite He. reflexivity.
  - intros other Hne. split; apply find_filter_other.
    + intros n Hn. apply String.eqb_eq in Hn. apply negb_true_iff, String.eqb_neq.
      congruence.
    + intros e He. apply String.eqb_eq in He. apply negb_true_iff, String.eqb_neq.
      congruence.
  - unfold Database.uniqueIds. simpl. apply filter_NoDup_map.
  - unfold Database.keyOrdered. simpl. apply filter_sorted.
Qed.

Lemma notes_after_deleteNote (db : Database.t) (key : string) (n : Note) :
  In n (firstn 1000 (Database.notes (Database.deleteNote db key))) -> id n <> key.
Proof.
  intros Hin Heq.
  assert (Hin' : In n (Database.notes (Database.deleteNote db key))).
  { rewrite <- (firstn_skipn 1000 (Database.notes _)). apply in_or_app. left. exact Hin. }
  simpl in Hin'. apply filter_In in Hin'. destruct Hin' as (_ & Hne).
  rewrite Heq, String.eqb_refl in Hne. discriminate.
Qed.

Lemma getNote_deleteNote (db : Database.t) (key : string) :
  Database.getNote (Database.deleteNote db key) key = None.
Proof.
  unfold Database.getNote, Database.deleteNote. simpl.
  apply find_filter_none. intros n Hn. rewrite Hn. reflexivity.
Qed.

Lemma keywordSearch_notes (db : Database.t) (keywords : list string) (lim : nat)
      (results : list ScoredNote) :
  Ranking.keywordSearch db keywords lim = Some (Ok results) ->
  forall sn, In sn results -> In (note sn) (firstn 1000 (Database.notes db)).
Proof.
  intros H. unfold Ranking.keywordSearch in H. destruct keywords as [|k ks].
  - injection H as <-. contradiction.
  - destruct (Ranking.scoreAll _ _) as [[scored|e]|] eqn:Hall; try discriminate.
    injection H as <-. intros sn Hin. apply in_map_iff in Hin.
    destruct Hin as (item & <- & Hitem).
    apply slice0_In, sort_In, filter_In in Hitem. destruct Hitem as (Hitem & _).
    apply scoreAll_notes in Hall. unfold Ranking.normalize. cbn [note].
    unfold Database.getAllNotes in Hall. rewrite <- Hall. apply in_map, Hitem.
Qed.

Lemma tagSearch_notes (db : Database.t) (terms : list string) (lim : nat)
      (sn : ScoredNote) :
  In sn (Ranking.tagSearch db terms lim) ->
  In (note sn) (firstn 1000 (Database.notes db)).
Proof.
  rewrite tagSearch_spec. unfold Spec.tagSearch.
  destruct terms as [|t ts]; [contradiction|].
  intros Hin. apply (slice0_In lim), sort_In, filter_In in Hin.
  destruct Hin as (Hmap & _). apply in_map_iff in Hmap.
  destruct Hmap as (n & <- & Hn). exact Hn.
Qed.

Lemma hybridSearch_notes (db : Database.t) (vs : VectorSearch.t) (q : list R)
      (keywords : list string) (o : Ranking.HybridOptions)
      (results : list ScoredNote) :
  snd (Ranking.hybridSearch db vs q keywords o) = Some (Ok results) ->
  exists sem kws,
    snd (VectorSearch.search db vs q (Ranking.semanticOptions o)) = Ok sem
    /\ Ranking.keywordSearch db keywords (Ranking.hLimit o * 2) = Some (Ok kws)
    /\ forall sn, In sn results -> In (note sn) (map note (sem ++ kws)).
Proof.
  intros H. apply hybridSearch_Ok in H. destruct H as (sem & kws & Hsem & Hkws & ->).
  pose proof (mergeScores_filed o sem kws) as Hfiled.
  exists sem, kws. split; [exact Hsem|]. split; [exact Hkws|].
  intros sn Hin. unfold Ranking.rankMerged in Hin. apply slice0_In, sort_In in Hin.
  unfold JSMap.values in Hin. apply in_map_iff in Hin.
  destruct Hin as ([k v] & Hv & Hin). simpl in Hv. subst v.
  destruct (Hfiled k sn Hin) as (_ & r & Hr & Hnote).
  rewrite Hnote. apply in_map, Hr.
Qed.

(** X13: Once a note is deleted no search returns it, whatever the cache
    holds and whether it was invalidated or not: [search] and
    [hybridSearch] drop the entry whose note is gone, [keywordSearch] and
    [tagSearch] read the store. *)
Theorem deleted_note_is_never_returned (db : Database.t) (vs : VectorSearch.t)
        (key : string) (q : list R) (terms : list string) :
  (forall opts results,
      snd (VectorSearch.search (Database.deleteNote db key) vs q opts) = Ok results ->
      ~ In key (Spec.ids results))
  /\ (forall lim results,
        Ranking.keywordSearch (Database.deleteNote db key) terms lim
        = Some (Ok results) ->
        ~ In key (Spec.ids results))
  /\ (forall lim,
        ~ In key (Spec.ids (Ranking.tagSearch (Database.deleteNote db key) terms lim)))
  /\ (forall o results,
        snd (Ranking.hybridSearch (Database.deleteNote db key) vs q terms o)
        = Some (Ok results) ->
        ~ In key (Spec.ids results)).
Proof.
  assert (Hsearch : forall opts results,
             snd (VectorSearch.search (Database.deleteNote db key) vs q opts)
             = Ok results ->
             forall sn, In sn results -> id (note sn) <> key).
  { intros opts results H sn Hin Heq. apply search_results in H.
    destruct H as (_ & Hall). destruct (Hall sn Hin) as (_ & Hget).
    rewrite Heq, getNote_deleteNote in Hget. discriminate. }
  assert (Hkeyword : forall lim results,
             Ranking.keywordSearch (Database.deleteNote db key) terms lim
             = Some (Ok results) ->
             forall sn, In sn results -> id (note sn) <> key).
  { intros lim results H sn Hin.
    apply (notes_after_deleteNote db key), (keywordSearch_notes _ _ _ _ H sn Hin). }
  assert (Hids : forall results,
             (forall sn, In sn results -> id (note sn) <> key) ->
             ~ In key (Spec.ids results)).
  { intros results Hall Hin. unfold Spec.ids in Hin. apply in_map_iff in Hin.
    destruct Hin as (sn & Hid & Hsn). apply (Hall sn Hsn Hid). }
  split; [|split; [|split]].
  - intros opts results H. apply Hids, (Hsearch opts results H).
  - intros lim results H. apply Hids, (Hkeyword lim results H).
  - intros lim. apply Hids. intros sn Hin.
    apply (notes_after_deleteNote db key), (tagSearch_notes _ _ _ _ Hin).
  - intros o results H. apply Hids. intros sn Hin.
    apply hybridSearch_notes in H.
    destruct H as (sem & kws & Hsem & Hkws & Hall).
    specialize (Hall sn Hin). apply in_map_iff in Hall.
    destruct Hall as (r & Hnote & Hr). rewrite <- Hnote.
    apply in_app_or in Hr. destruct Hr as [Hr | Hr].
    + apply (Hsearch _ sem Hsem r Hr).
    + apply (Hkeyword _ kws Hkws r Hr).
Qed.

(** ** Saving an embedding *)

Section PutEmbedding.

Import OrdersEx.

Lemma compare_refl (s : string) : String_as_OT.compare s s = Eq.
Proof.
  destruct (String_as_OT.compare_spec s s) as [_ | H | H]; [reflexivity | |];
    exfalso; apply (RelationClasses.StrictOrder_Irreflexive s H).
Qed.

Lemma compare_Eq (s s' : string) : String_as_OT.compare s s' = Eq -> s = s'.
Proof.
  intros H. destruct (String_as_OT.compare_spec s s'); [assumption | |]; discriminate.
Qed.

Lemma compare_Gt (s s' : string) :
  String_as_OT.compare s s' = Gt -> String_as_OT.lt s' s.
Proof.
  intros H. destruct (String_as_OT.compare_spec s s'); [discriminate | discriminate|].
  assumption.
Qed.

Lemma find_putEmbedding_same (e : EmbeddingRecord) (store : list EmbeddingRecord) :
  find (fun x => String.eqb (noteId x) (noteId e)) (Database.putEmbedding e store)
  = Some e.
Proof.
  induction store as [|x store IH]; simpl.
  - rewrite String.eqb_refl. reflexivity.
  - destruct (String_as_OT.compare (noteId e) (noteId x)) eqn:Hcmp; simpl.
    + rewrite String.eqb_refl. reflexivity.
    + rewrite String.eqb_refl. reflexivity.
    + destruct (String.eqb (noteId x) (noteId e)) eqn:Heq; [|exact IH].
      apply String.eqb_eq in Heq. rewrite Heq, compare_refl in Hcmp. discriminate.
Qed.

Lemma find_putEmbedding_other (e : EmbeddingRecord) (store : list EmbeddingRecord)
      (key : string) :
  key <> noteId e ->
  find (fun x => String.eqb (noteId x) key) (Database.putEmbedding e store)
  = find (fun x => String.eqb (noteId x) key) store.
Proof.
  intros Hne.
  assert (He : String.eqb (noteId e) key = false)
    by (apply String.eqb_neq; congruence).
  induction store as [|x store IH]; simpl.
  - rewrite He. reflexivity.
  - destruct (String_as_OT.compare (noteId e) (noteId x)) eqn:Hcmp; simpl.
    + apply compare_Eq in Hcmp. rewrite He, <- Hcmp, He. reflexivity.
    + rewrite He. reflexivity.
    + rewrite IH. reflexivity.
Qed.

Lemma putEmbedding_In (e x : EmbeddingRecord) (store : list EmbeddingRecord) :
  In x (Database.putEmbedding e store) -> x = e \/ In x store.
Proof.
  induction store as [|y store IH]; simpl.
  - intros [H | []]. left. symmetry. exact H.
  - destruct (String_as_OT.compare (noteId e) (noteId y)); simpl.
    + intros [H | H]; [left; symmetry; exact H | right; right; exact H].
    + intros [H | H]; [left; symmetry; exact H | right; exact H].
    + intros [H | H]; [right; left; exact H|].
      destruct (IH H); [left | right; right]; assumption.
Qed.

Lemma putEmbedding_sorted (e : EmbeddingRecord) (store : list EmbeddingRecord) :
  StronglySorted (fun a b => String_as_OT.lt (noteId a) (noteId b)) store ->
  StronglySorted (fun a b => String_as_OT.lt (noteId a) (noteId b))
                 (Database.putEmbedding e store).
Proof.
  induction 1 as [|x store Hsorted IH Hall]; simpl.
  - repeat constructor.
  - destruct (String_as_OT.compare (noteId e) (noteId x)) eqn:Hcmp.
    + apply compare_Eq in Hcmp. constructor; [exact Hsorted|].
      rewrite Hcmp. exact Hall.
    + assert (Hlt : String_as_OT.lt (noteId e) (noteId x)) by exact Hcmp.
      constructor; [constructor; assumption|].
      constructor; [exact Hlt|].
      eapply Forall_impl; [|exact Hall]. intros y Hy. simpl in Hy.
      apply (RelationClasses.StrictOrder_Transitive _ _ _ Hlt Hy).
    + apply compare_Gt in Hcmp. constructor; [exact IH|].
      rewrite Forall_forall in *. intros y Hy.
      apply putEmbedding_In in Hy. destruct Hy as [-> | Hy]; [exact Hcmp|].
      apply Hall, Hy.
Qed.

Lemma sorted_keys_NoDup (store : list EmbeddingRecord) :
  StronglySorted (fun a b => String_as_OT.lt (noteId a) (noteId b)) store ->
  NoDup (map noteId store).
Proof.
  induction 1 as [|x store Hsorted IH Hall]; simpl; constructor; [|exact IH].
  intros Hin. apply in_map_iff in Hin. destruct Hin as (y & Hy & Hin).
  rewrite Forall_forall in Hall. specialize (Hall y Hin). simpl in Hall.
  rewrite Hy in Hall. apply (RelationClasses.StrictOrder_Irreflexive _ Hall).
Qed.

End PutEmbedding.

Lemma keyOrdered_unique (db : Database.t) :
  Database.keyOrdered db -> Database.uniqueEmbeddings db.
Proof. apply sorted_keys_NoDup. Qed.

(** With one embedding per key, [getAllEmbeddings] is the list of the
    records of the store, each under its key, in the order of the store. *)
Lemma getAllEmbeddings_unique (db : Database.t) :
  Database.uniqueEmbeddings db ->
  Database.getAllEmbeddings db
  = map (fun e => (noteId e, e)) (Database.embeddings db).
Proof.
  unfold Database.uniqueEmbeddings, Database.getAllEmbeddings.
  enough (H : forall es (m : JSMap.t EmbeddingRecord),
             NoDup (JSMap.keys m ++ map noteId es) ->
             fold_left (fun cache e => JSMap.set cache (noteId e) e) es m
             = m ++ map (fun e => (noteId e, e)) es).
  { intros Hnd. apply (H _ []). exact Hnd. }
  induction es as [|e es IH]; intros m Hnd; simpl; [rewrite app_nil_r; reflexivity|].
  simpl in Hnd.
  assert (Hfresh : ~ In (noteId e) (JSMap.keys m)).
  { intros Hin. apply NoDup_remove_2 in Hnd. apply Hnd.
    apply in_or_app. left. exact Hin. }
  assert (Hset : JSMap.set m (noteId e) e = m ++ [(noteId e, e)]).
  { clear -Hfresh. induction m as [|[k v] m IHm]; simpl; [reflexivity|].
    destruct (String.eqb (noteId e) k) eqn:Hk.
    - apply String.eqb_eq in Hk. exfalso. apply Hfresh. left. symmetry. exact Hk.
    - rewrite IHm; [reflexivity|]. intros Hin. apply Hfresh. right. exact Hin. }
  rewrite IH.
  - rewrite Hset, <- app_assoc. reflexivity.
  - rewrite set_keys_fresh by exact Hfresh. rewrite <- app_assoc. exact Hnd.
Qed.

(** X14: [saveEmbedding] then [getEmbedding] gives the record back, whether
    the key was there or not; the other embeddings and the notes are as
    before; the order of the keys is kept, so the store still has one
    record per key; and the cache that the next refresh builds holds the
    record under its key. *)
Theorem saveEmbedding_getEmbedding (db : Database.t) (key : string) (v : list R)
        (model : string) :
  Database.getEmbedding (Database.saveEmbedding db key v model) key
  = Some (mkEmbedding key v model)
  /\ (forall other, other <> key ->
        Database.getEmbedding (Database.saveEmbedding db key v model) other
        = Database.getEmbedding db other)
  /\ Database.notes (Database.saveEmbedding db key v model) = Database.notes db
  /\ (Database.keyOrdered db ->
      Database.keyOrdered (Database.saveEmbedding db key v model)
      /\ Database.uniqueEmbeddings (Database.saveEmbedding db key v model)
      /\ JSMap.get (Database.getAllEmbeddings (Database.saveEmbedding db key v model))
                   key
         = Some (mkEmbedding key v model)).
Proof.
  split; [apply (find_putEmbedding_same (mkEmbedding key v model))|].
  split; [intros other Hne;
          apply (find_putEmbedding_other (mkEmbedding key v model)); exact Hne|].
  split; [reflexivity|].
  intros Hord.
  assert (Hord' : Database.keyOrdered (Database.saveEmbedding db key v model))
    by (apply putEmbedding_sorted, Hord).
  pose proof (keyOrdered_unique _ Hord') as Huniq.
  split; [exact Hord'|]. split; [exact Huniq|].
  apply get_of_In; [apply getAllEmbeddings_NoDup|].
  rewrite (getAllEmbeddings_unique _ Huniq). apply in_map_iff.
  exists (mkEmbedding key v model). split; [reflexivity|].
  pose proof (find_putEmbedding_same (mkEmbedding key v model) (Database.embeddings db))
    as Hfind.
  apply find_some in Hfind. apply Hfind.
Qed.

(** ** A saved embedding is found *)












(** * The embedding client *)

Section Requests.

Import EmbeddingClient.

Lemma has_In (pending : list nat) (id : nat) :
  has pending id = true <-> In id pending.
Proof.
  unfold has. rewrite existsb_exists. split.
  - intros (x & Hx & Heq). apply Nat.eqb_eq in Heq. subst. exact Hx.
  - intros H. exists id. split; [exact H | apply Nat.eqb_refl].
Qed.

Lemma delete_In (pending : list nat) (id k : nat) :
  In k (delete pending id) <-> In k pending /\ k <> id.
Proof.
  unfold delete. rewrite filter_In, negb_true_iff, Nat.eqb_neq. reflexivity.
Qed.

Lemma accounts_idle (c c1 : t) :
  wellFormed c ->
  pendingRequests c1 = pendingRequests c -> requestId c1 = requestId c ->
  accounts c c1 [].
Proof.
  intros Hwf Hp Hr. unfold accounts, wellFormed. rewrite Hp, Hr, Nat.sub_diag.
  simpl. split; [exact Hwf|]. split; [reflexivity|]. split; [lia|].
  split; [constructor|]. split; [intros id []|].
  intros id Hin. left. exact Hin.
Qed.

Lemma accounts_settle (c c0 : t) (id : nat) (events : list event) :
  wellFormed c ->
  pendingRequests c0 = pendingRequests c -> requestId c0 = requestId c ->
  settledIds events = [id] -> postedIds events = [] ->
  In id (pendingRequests c) ->
  accounts c
    (mk (worker c0) (isLoaded c0) (isLoading c0) (delete (pendingRequests c0) id)
        (requestId c0))
    events.
Proof.
  intros (Hnd & Hrange) Hp Hr Hsettled Hposted Hin.
  unfold accounts, wellFormed. simpl. rewrite Hp, Hr, Hsettled, Hposted, Nat.sub_diag.
  simpl. split; [split|].
  - apply NoDup_filter, Hnd.
  - intros k Hk. apply delete_In in Hk. apply Hrange, Hk.
  - split; [reflexivity|]. split; [lia|]. split; [repeat constructor; intros []|].
    split.
    + intros k [<- | []]. split; [left; exact Hin|].
      intros Hk. apply delete_In in Hk. destruct Hk as (_ & Hne). apply Hne. reflexivity.
    + intros k Hk. apply delete_In in Hk. left. apply Hk.
Qed.

Lemma resolveRequest_accounts (c c0 : t) (id : nat) (result : value) :
  wellFormed c ->
  pendingRequests c0 = pendingRequests c -> requestId c0 = requestId c ->
  accounts c (fst (resolveRequest c0 id result)) (snd (resolveRequest c0 id result)).
Proof.
  intros Hwf Hp Hr. unfold resolveRequest.
  destruct (has (pendingRequests c0) id) eqn:Hhas; simpl.
  - apply accounts_settle; try assumption; try reflexivity.
    rewrite <- Hp. apply has_In, Hhas.
  - apply accounts_idle; assumption.
Qed.

Lemma rejectRequest_accounts (c : t) (id : nat) (error : exn) :
  wellFormed c ->
  accounts c (fst (rejectRequest c id error)) (snd (rejectRequest c id error)).
Proof.
  intros Hwf. unfold rejectRequest.
  destruct (has (pendingRequests c) id) eqn:Hhas; simpl.
  - apply accounts_settle; try assumption; try reflexivity.
    apply has_In, Hhas.
  - apply accounts_idle; [assumption | reflexivity | reflexivity].
Qed.

Lemma sendMessage_accounts (c : t) (type : string) :
  wellFormed c ->
  accounts c (fst (sendMessage c type)) (snd (sendMessage c type)).
Proof.
  intros (Hnd & Hrange).
  assert (Hp : pendingRequests (initWorker c) = pendingRequests c)
    by (unfold initWorker; destruct (worker c); reflexivity).
  assert (Hr : requestId (initWorker c) = requestId c)
    by (unfold initWorker; destruct (worker c); reflexivity).
  unfold sendMessage, accounts, wellFormed.
  cbn [fst snd pendingRequests requestId postedIds settledIds]. rewrite Hp, Hr.
  assert (Hfresh : has (pendingRequests c) (S (requestId c)) = false).
  { destruct (has _ _) eqn:Hhas; [|reflexivity].
    apply has_In, Hrange in Hhas. lia. }
  unfold set. rewrite Hfresh.
  replace (S (requestId c) - requestId c)%nat with 1%nat by lia.
  cbn [seq].
  split; [split|].
  - apply NoDup_app; [exact Hnd | repeat constructor; intros [] |].
    intros k Hk [<- | []]. apply Hrange in Hk. lia.
  - intros k Hk. apply in_app_or in Hk. destruct Hk as [Hk | [<- | []]]; [|lia].
    apply Hrange in Hk. lia.
  - split; [reflexivity|]. split; [lia|]. split; [constructor|].
    split; [intros k []|].
    intros k Hk. apply in_app_or in Hk.
    destruct Hk as [Hk | [<- | []]]; [left; exact Hk | right; left; reflexivity].
Qed.

Lemma step_accounts (c : t) (a : action) :
  wellFormed c -> accounts c (fst (step c a)) (snd (step c a)).
Proof.
  intros Hwf. destruct a as [type | m | |]; simpl.
  - apply sendMessage_accounts, Hwf.
  - destruct m; simpl;
      try (apply accounts_idle; [assumption | reflexivity | reflexivity]);
      try (apply resolveRequest_accounts; [assumption | reflexivity | reflexivity]).
    apply rejectRequest_accounts, Hwf.
  - apply accounts_idle; [assumption | reflexivity | reflexivity].
  - unfold accounts, wellFormed. simpl. rewrite Nat.sub_diag. simpl.
    split; [split; [constructor | intros id []]|].
    split; [reflexivity|]. split; [lia|]. split; [constructor|].
    split; intros id [].
Qed.

Lemma postedIds_app (l l' : list event) :
  postedIds (l ++ l') = postedIds l ++ postedIds l'.
Proof.
  induction l as [|[type id | id v | id e] l IH]; simpl; [reflexivity | | |];
    rewrite IH; reflexivity.
Qed.

Lemma settledIds_app (l l' : list event) :
  settledIds (l ++ l') = settledIds l ++ settledIds l'.
Proof.
  induction l as [|[type id | id v | id e] l IH]; simpl; [reflexivity | | |];
    rewrite IH; reflexivity.
Qed.

Lemma accounts_trans (c c1 c2 : t) (l1 l2 : list event) :
  wellFormed c -> accounts c c1 l1 -> accounts c1 c2 l2 ->
  accounts c c2 (l1 ++ l2).
Proof.
  intros (_ & Hrange) (Hwf1 & Hposted1 & Hle1 & Hnd1 & Hsettled1 & Hpending1)
         (Hwf2 & Hposted2 & Hle2 & Hnd2 & Hsettled2 & Hpending2).
  assert (Hnew : forall id, In id (postedIds l2) -> (requestId c1 < id)%nat).
  { intros id Hin. rewrite Hposted2 in Hin. apply in_seq in Hin. lia. }
  assert (Hold : forall id, In id (pendingRequests c) \/ In id (postedIds l1) ->
                            (id <= requestId c1)%nat).
  { intros id [Hin | Hin]; [apply Hrange in Hin; lia|].
    rewrite Hposted1 in Hin. apply in_seq in Hin. lia. }
  unfold accounts. rewrite postedIds_app, settledIds_app.
  split; [exact Hwf2|]. split.
  { rewrite Hposted1, Hposted2.
    replace (requestId c2 - requestId c)%nat
      with ((requestId c1 - requestId c) + (requestId c2 - requestId c1))%nat by lia.
    rewrite seq_app. f_equal. f_equal. lia. }
  split; [lia|]. split.
  { apply NoDup_app; [exact Hnd1 | exact Hnd2|].
    intros id Hin1 Hin2. destruct (Hsettled1 id Hin1) as (Hfrom & Hout).
    destruct (Hsettled2 id Hin2) as ([H | H] & _); [exact (Hout H)|].
    apply Hnew in H. apply Hold in Hfrom. lia. }
  split.
  - intros id Hin. apply in_app_or in Hin. destruct Hin as [Hin | Hin].
    + destruct (Hsettled1 id Hin) as (Hfrom & Hout). split.
      * destruct Hfrom as [H | H]; [left; exact H|].
        right. apply in_or_app. left. exact H.
      * intros H2. destruct (Hpending2 id H2) as [H | H]; [exact (Hout H)|].
        apply Hnew in H. apply Hold in Hfrom. lia.
    + destruct (Hsettled2 id Hin) as (Hfrom & Hout). split; [|exact Hout].
      destruct Hfrom as [H | H].
      * destruct (Hpending1 id H) as [H0 | H0]; [left; exact H0|].
        right. apply in_or_app. left. exact H0.
      * right. apply in_or_app. right. exact H.
  - intros id Hin. destruct (Hpending2 id Hin) as [H | H].
    + destruct (Hpending1 id H) as [H0 | H0]; [left; exact H0|].
      right. apply in_or_app. left. exact H0.
    + right. apply in_or_app. right. exact H.
Qed.

Lemma run_accounts (actions : list action) :
  forall c, wellFormed c -> accounts c (fst (run c actions)) (snd (run c actions)).
Proof.
  induction actions as [|a rest IH]; intros c Hwf.
  - simpl. apply accounts_idle; [assumption | reflexivity | reflexivity].
  - simpl. pose proof (step_accounts c a Hwf) as Hstep.
    destruct (step c a) as [c1 events]. simpl in Hstep.
    pose proof (IH c1 (proj1 Hstep)) as Hrun.
    destruct (run c1 rest) as [c2 later]. simpl in *.
    apply (accounts_trans c c1 c2); assumption.
Qed.

Lemma wellFormed_new : wellFormed new.
Proof. split; [constructor | intros id []]. Qed.

Lemma run_app (actions more : list action) :
  forall c,
    run c (actions ++ more)
    = (fst (run (fst (run c actions)) more),
       snd (run c actions) ++ snd (run (fst (run c actions)) more)).
Proof.
  induction actions as [|a rest IH]; intros c; simpl.
  - destruct (run c more). reflexivity.
  - destruct (step c a) as [c1 events]. rewrite IH.
    destruct (run c1 rest) as [c2 later]. simpl.
    rewrite app_assoc. reflexivity.
Qed.

End Requests.

(** X17: Whatever is called on a new client, in whatever order: the requests
    are numbered 1, 2, 3, ... in the order they are posted, across
    [terminate] too, so no number is used twice; no request is settled
    twice; a request that is settled was posted; and a request that is
    still pending was posted and is not settled. *)
Theorem requests_settle_at_most_once (actions : list EmbeddingClient.action) :
  EmbeddingClient.postedIds (snd (EmbeddingClient.run EmbeddingClient.new actions))
  = seq 1 (EmbeddingClient.requestId
             (fst (EmbeddingClient.run EmbeddingClient.new actions)))
  /\ NoDup (EmbeddingClient.settledIds
              (snd (EmbeddingClient.run EmbeddingClient.new actions)))
  /\ (forall id,
        In id (EmbeddingClient.settledIds
                 (snd (EmbeddingClient.run EmbeddingClient.new actions))) ->
        In id (EmbeddingClient.postedIds
                 (snd (EmbeddingClient.run EmbeddingClient.new actions))))
  /\ (forall id,
        In id (EmbeddingClient.pendingRequests
                 (fst (EmbeddingClient.run EmbeddingClient.new actions))) ->
        In id (EmbeddingClient.postedIds
                 (snd (EmbeddingClient.run EmbeddingClient.new actions)))
        /\ ~ In id (EmbeddingClient.settledIds
                      (snd (EmbeddingClient.run EmbeddingClient.new actions)))).
Proof.
  destruct (run_accounts actions EmbeddingClient.new wellFormed_new)
    as (_ & Hposted & _ & Hnd & Hsettled & Hpending).
  simpl in Hposted. rewrite Nat.sub_0_r in Hposted.
  split; [exact Hposted|]. split; [exact Hnd|]. split.
  - intros id Hin. destruct (Hsettled id Hin) as ([[] | H] & _). exact H.
  - intros id Hin. split.
    + destruct (Hpending id Hin) as [[] | H]. exact H.
    + intros H. apply (proj2 (Hsettled id H)), Hin.
Qed.

(** X18: [terminate] forgets the pending requests without settling them: a
    request posted before [terminate] and still pending then is never
    settled, whatever the worker answers afterwards, and an answer that
    comes late never settles a request posted after [terminate]. *)
Theorem terminate_drops_pending_requests (before after : list EmbeddingClient.action)
        (id : nat) :
  In id (EmbeddingClient.pendingRequests
           (fst (EmbeddingClient.run EmbeddingClient.new before))) ->
  ~ In id (EmbeddingClient.settledIds
             (snd (EmbeddingClient.run EmbeddingClient.new
                     (before ++ EmbeddingClient.Terminate :: after))))
  /\ ~ In id (EmbeddingClient.postedIds
                (snd (EmbeddingClient.run
                        (EmbeddingClient.terminate
                           (fst (EmbeddingClient.run EmbeddingClient.new before)))
                        after))).
Proof.
  intros Hin.
  pose proof (run_accounts before EmbeddingClient.new wellFormed_new) as Hbefore.
  destruct Hbefore as (Hwf & _ & _ & _ & Hsettled & _).
  set (c := fst (EmbeddingClient.run EmbeddingClient.new before)) in *.
  assert (Hwft : EmbeddingClient.wellFormed (EmbeddingClient.terminate c))
    by (split; [constructor | intros k []]).
  pose proof (run_accounts after _ Hwft) as Hafter.
  destruct Hafter as (_ & Hposted & _ & _ & Hsettled' & _).
  simpl in Hposted, Hsettled'.
  assert (Hfresh : ~ In id (EmbeddingClient.postedIds
                              (snd (EmbeddingClient.run
                                      (EmbeddingClient.terminate c) after)))).
  { intros H. rewrite Hposted in H. apply in_seq in H.
    apply (proj2 Hwf) in Hin. lia. }
  split; [|exact Hfresh].
  rewrite run_app. fold c. cbn [snd]. rewrite settledIds_app.
  intros H. apply in_app_or in H. destruct H as [H | H].
  - apply (proj2 (Hsettled id H)), Hin.
  - simpl in H. change (EmbeddingClient.mk false false false []
                          (EmbeddingClient.requestId c))
      with (EmbeddingClient.terminate c) in H.
    destruct (EmbeddingClient.run (EmbeddingClient.terminate c) after)
      as [c2 later] eqn:Hrun.
    simpl in *. destruct (Hsettled' id H) as ([[] | Hp] & _). exact (Hfresh Hp).
Qed.

Lemma terminate_drops_pending_requests_witness :
  ~ In 1%nat
      (EmbeddingClient.settledIds
         (snd (EmbeddingClient.run EmbeddingClient.new
                 ([EmbeddingClient.SendMessage "EMBED"]
                    ++ EmbeddingClient.Terminate
                    :: [EmbeddingClient.OnMessage
                          (EmbeddingClient.EMBEDDING_RESULT 1 [1; 0])]))))
  /\ ~ In 1%nat
        (EmbeddingClient.postedIds
           (snd (EmbeddingClient.run
                   (EmbeddingClient.terminate
                      (fst (EmbeddingClient.run EmbeddingClient.new
                              [EmbeddingClient.SendMessage "EMBED"])))
                   [EmbeddingClient.OnMessage
                      (EmbeddingClient.EMBEDDING_RESULT 1 [1; 0])]))).
Proof.
  apply (terminate_drops_pending_requests
           [EmbeddingClient.SendMessage "EMBED"]
           [EmbeddingClient.OnMessage (EmbeddingClient.EMBEDDING_RESULT 1 [1; 0])]
           1%nat).
  simpl. left. reflexivity.
Defined.

(** * The handlers of the search view *)

Lemma getEmbedding_deleteNote (db : Database.t) (key : string) :
  Database.getEmbedding (Database.deleteNote db key) key = None.
Proof.
  unfold Database.getEmbedding, Database.deleteNote. simpl.
  apply find_filter_none. intros e He. rewrite He. reflexivity.
Qed.

Lemma deleteNote_other (db : Database.t) (key other : string) :
  other <> key ->
  Database.getNote (Database.deleteNote db key) other = Database.getNote db other
  /\ Database.getEmbedding (Database.deleteNote db key) other
     = Database.getEmbedding db other.
Proof.
  intros Hne. unfold Database.getNote, Database.getEmbedding, Database.deleteNote.
  simpl. split; apply find_filter_other.
  - intros n Hn. apply String.eqb_eq in Hn. apply negb_true_iff, String.eqb_neq.
    congruence.
  - intros e He. apply String.eqb_eq in He. apply negb_true_iff, String.eqb_neq.
    congruence.
Qed.

Lemma deleteNotes_other (keys : list string) (other : string) :
  ~ In other keys ->
  forall db,
    Database.getNote (fold_left Database.deleteNote keys db) other
    = Database.getNote db other
    /\ Database.getEmbedding (fold_left Database.deleteNote keys db) other
       = Database.getEmbedding db other.
Proof.
  induction keys as [|k keys IH]; intros Hout db; simpl; [split; reflexivity|].
  destruct (IH (fun H => Hout (or_intror H)) (Database.deleteNote db k)) as (Hn & He).
  rewrite Hn, He. apply deleteNote_other. intros Heq. apply Hout. left. symmetry.
  exact Heq.
Qed.

Lemma deleteNotes_gone (keys : list string) (key : string) :
  In key keys ->
  forall db,
    Database.getNote (fold_left Database.deleteNote keys db) key = None
    /\ Database.getEmbedding (fold_left Database.deleteNote keys db) key = None.
Proof.
  induction keys as [|k keys IH]; intros Hin db; [contradiction|]. simpl.
  destruct (in_dec string_dec key keys) as [Hlater | Hlast]; [apply IH, Hlater|].
  destruct Hin as [-> | Hin]; [|contradiction].
  destruct (deleteNotes_other keys key Hlast (Database.deleteNote db key)) as (Hn & He).
  rewrite Hn, He. split; [apply getNote_deleteNote | apply getEmbedding_deleteNote].
Qed.

Lemma deleteNotes_uniqueIds (keys : list string) :
  forall db, Database.uniqueIds db ->
             Database.uniqueIds (fold_left Database.deleteNote keys db).
Proof.
  induction keys as [|k keys IH]; intros db Huniq; simpl; [exact Huniq|].
  apply IH. unfold Database.uniqueIds. simpl. apply filter_NoDup_map, Huniq.
Qed.

(** X19: Ticking and unticking: the selection never holds an id twice; after
    the call it holds [key] exactly when the box was ticked, and the other
    ids exactly as before; nothing else of the view changes. *)
Theorem handleSelect_selection (v : SearchView.View) (key : string) (selected : bool) :
  NoDup (SearchView.selectedIds v) ->
  NoDup (SearchView.selectedIds (SearchView.handleSelect v key selected))
  /\ (forall k, In k (SearchView.selectedIds (SearchView.handleSelect v key selected))
                <-> (k = key /\ selected = true)
                    \/ (k <> key /\ In k (SearchView.selectedIds v)))
  /\ SearchView.db (SearchView.handleSelect v key selected) = SearchView.db v
  /\ SearchView.vectorSearch (SearchView.handleSelect v key selected)
     = SearchView.vectorSearch v
  /\ SearchView.results (SearchView.handleSelect v key selected)
     = SearchView.results v.
Proof.
  intros Hnd. unfold SearchView.handleSelect.
  destruct selected; simpl.
  - destruct (JSArray.includes (SearchView.selectedIds v) key) eqn:Hinc; simpl.
    + apply includes_In in Hinc. split; [exact Hnd|]. split; [|auto].
      intros k. split.
      * intros Hk. destruct (string_dec k key) as [-> | Hne]; auto.
      * intros [(-> & _) | (_ & Hk)]; assumption.
    + assert (Hout : ~ In key (SearchView.selectedIds v)).
      { intros H. apply includes_In in H. congruence. }
      split; [|split; [|auto]].
      * apply NoDup_app; [exact Hnd | repeat constructor; intros [] |].
        intros k Hk [<- | []]. exact (Hout Hk).
      * intros k. rewrite in_app_iff. simpl. split.
        -- intros [Hk | [<- | []]]; [|left; auto].
           right. split; [|exact Hk]. intros ->. exact (Hout Hk).
        -- intros [(-> & _) | (_ & Hk)]; auto.
  - split; [apply NoDup_filter, Hnd|]. split; [|auto].
    intros k. rewrite filter_In, negb_true_iff, String.eqb_neq. split.
    + intros (Hk & Hne). right. auto.
    + intros [(_ & H) | (Hne & Hk)]; [discriminate | auto].
Qed.

Lemma handleSelect_selection_witness :
  NoDup (SearchView.selectedIds
           (SearchView.handleSelect
              (SearchView.mkView Examples.twoNotes VectorSearch.new [] ["a"%string])
              "b"%string true))
  /\ (forall k,
         In k (SearchView.selectedIds
                 (SearchView.handleSelect
                    (SearchView.mkView Examples.twoNotes VectorSearch.new []
                                       ["a"%string])
                    "b"%string true))
         <-> (k = "b"%string /\ true = true)
             \/ (k <> "b"%string /\ In k ["a"%string]))
  /\ SearchView.db
       (SearchView.handleSelect
          (SearchView.mkView Examples.twoNotes VectorSearch.new [] ["a"%string])
          "b"%string true)
     = Examples.twoNotes
  /\ SearchView.vectorSearch
       (SearchView.handleSelect
          (SearchView.mkView Examples.twoNotes VectorSearch.new [] ["a"%string])
          "b"%string true)
     = VectorSearch.new
  /\ SearchView.results
       (SearchView.handleSelect
          (SearchView.mkView Examples.twoNotes VectorSearch.new [] ["a"%string])
          "b"%string true)
     = [].
Proof.
  apply (handleSelect_selection
           (SearchView.mkView Examples.twoNotes VectorSearch.new [] ["a"%string])
           "b"%string true).
  simpl. constructor; [intros [] | constructor].
Defined.

(** X20: Deleting from the results: the note and its embedding leave the
    store, the note leaves the results on display and the selection, every
    other note stays where it was, and the cache is marked stale, so that
    no later search returns the note. *)
Theorem handleDelete_removes_note (v : SearchView.View) (n : Note) :
  Database.getNote (SearchView.db (SearchView.handleDelete v n)) (id n) = None
  /\ Database.getEmbedding (SearchView.db (SearchView.handleDelete v n)) (id n) = None
  /\ (forall other, other <> id n ->
        Database.getNote (SearchView.db (SearchView.handleDelete v n)) other
        = Database.getNote (SearchView.db v) other
        /\ Database.getEmbedding (SearchView.db (SearchView.handleDelete v n)) other
           = Database.getEmbedding (SearchView.db v) other)
  /\ (forall r, In r (SearchView.results (SearchView.handleDelete v n))
                <-> In r (SearchView.results v) /\ id (note r) <> id n)
  /\ (forall k, In k (SearchView.selectedIds (SearchView.handleDelete v n))
                <-> In k (SearchView.selectedIds v) /\ k <> id n)
  /\ VectorSearch.cacheValid (SearchView.vectorSearch (SearchView.handleDelete v n))
     = false
  /\ (forall q opts found,
        snd (VectorSearch.search (SearchView.db (SearchView.handleDelete v n))
               (SearchView.vectorSearch (SearchView.handleDelete v n)) q opts)
        = Ok found ->
        ~ In (id n) (Spec.ids found)).
Proof.
  unfold SearchView.handleDelete. cbn [SearchView.db SearchView.vectorSearch
                                        SearchView.results SearchView.selectedIds].
  split; [apply getNote_deleteNote|]. split; [apply getEmbedding_deleteNote|].
  split; [intros other Hne; apply deleteNote_other, Hne|].
  split; [intros r; rewrite filter_In, negb_true_iff, String.eqb_neq; reflexivity|].
  split; [intros k; rewrite filter_In, negb_true_iff, String.eqb_neq; reflexivity|].
  split; [reflexivity|].
  intros q opts found H Hin. unfold Spec.ids in Hin. apply in_map_iff in Hin.
  destruct Hin as (sn & Hid & Hsn). apply search_results in H.
  destruct H as (_ & Hall). destruct (Hall sn Hsn) as (_ & Hget).
  rewrite Hid, getNote_deleteNote in Hget. discriminate.
Qed.

(** X21: Deleting the selection, once confirmed: every selected note leaves
    the store with its embedding, and leaves the results; a note that is
    not selected stays in the store and in the results; the selection is
    emptied and the cache marked stale.  Without the confirmation nothing
    changes. *)
Theorem handleBulkDelete_removes_selection (v : SearchView.View) :
  (forall k, In k (SearchView.selectedIds v) ->
     Database.getNote (SearchView.db (SearchView.handleBulkDelete v true)) k = None
     /\ Database.getEmbedding (SearchView.db (SearchView.handleBulkDelete v true)) k
        = None
     /\ ~ In k (Spec.ids (SearchView.results (SearchView.handleBulkDelete v true))))
  /\ (forall k, ~ In k (SearchView.selectedIds v) ->
        Database.getNote (SearchView.db (SearchView.handleBulkDelete v true)) k
        = Database.getNote (SearchView.db v) k
        /\ Database.getEmbedding (SearchView.db (SearchView.handleBulkDelete v true)) k
           = Database.getEmbedding (SearchView.db v) k)
  /\ (forall r, In r (SearchView.results (SearchView.handleBulkDelete v true))
                <-> In r (SearchView.results v)
                    /\ ~ In (id (note r)) (SearchView.selectedIds v))
  /\ SearchView.selectedIds (SearchView.handleBulkDelete v true) = []
  /\ VectorSearch.cacheValid
       (SearchView.vectorSearch (SearchView.handleBulkDelete v true)) = false
  /\ (Database.uniqueIds (SearchView.db v) ->
      Database.uniqueIds (SearchView.db (SearchView.handleBulkDelete v true)))
  /\ SearchView.handleBulkDelete v false = v.
Proof.
  unfold SearchView.handleBulkDelete.
  cbn [negb SearchView.db SearchView.vectorSearch SearchView.results
       SearchView.selectedIds].
  assert (Hresults :
            forall r,
              In r (filter (fun r => negb (JSArray.includes (SearchView.selectedIds v)
                                                          (id (note r))))
                           (SearchView.results v))
              <-> In r (SearchView.results v)
                  /\ ~ In (id (note r)) (SearchView.selectedIds v)).
  { intros r. rewrite filter_In, negb_true_iff. split.
    - intros (Hr & Hinc). split; [exact Hr|]. intros H. apply includes_In in H.
      congruence.
    - intros (Hr & Hout). split; [exact Hr|].
      destruct (JSArray.includes _ _) eqn:Hinc; [|reflexivity].
      apply includes_In in Hinc. contradiction. }
  split.
  { intros k Hk. destruct (deleteNotes_gone _ k Hk (SearchView.db v)) as (Hn & He).
    split; [exact Hn|]. split; [exact He|].
    intros Hin. unfold Spec.ids in Hin. apply in_map_iff in Hin.
    destruct Hin as (r & Hid & Hr). apply Hresults in Hr. destruct Hr as (_ & Hout).
    rewrite Hid in Hout. exact (Hout Hk). }
  split; [intros k Hk; apply deleteNotes_other, Hk|].
  split; [exact Hresults|]. split; [reflexivity|]. split; [reflexivity|].
  split; [apply deleteNotes_uniqueIds | reflexivity].
Qed.

Lemma getNote_id (db : Database.t) (key : string) (n : Note) :
  Database.getNote db key = Some n -> id n = key.
Proof.
  unfold Database.getNote. intros H. apply find_some in H.
  apply String.eqb_eq, H.
Qed.

(** X22: The export of the selection hands over the stored notes of the
    selected ids, in the order of the selection; an id whose note is gone
    is passed over.  After [handleDelete] the export is the one before
    without the deleted note. *)
Theorem handleBulkExport_selection (v : SearchView.View) :
  (forall m, In m (SearchView.handleBulkExport v)
             <-> In (id m) (SearchView.selectedIds v)
                 /\ Database.getNote (SearchView.db v) (id m) = Some m)
  /\ (List.length (SearchView.handleBulkExport v)
      <= List.length (SearchView.selectedIds v))%nat
  /\ (forall n,
        SearchView.handleBulkExport (SearchView.handleDelete v n)
        = filter (fun m => negb (String.eqb (id m) (id n)))
                 (SearchView.handleBulkExport v)).
Proof.
  unfold SearchView.handleBulkExport. split; [|split].
  - intros m. rewrite filterMap_In. split.
    + intros (k & Hk & Hget). pose proof (getNote_id _ _ _ Hget) as Hid.
      rewrite Hid. auto.
    + intros (Hin & Hget). exists (id m). auto.
  - apply filterMap_length.
  - intros n. unfold SearchView.handleDelete.
    cbn [SearchView.db SearchView.selectedIds].
    induction (SearchView.selectedIds v) as [|k keys IH]; [reflexivity|].
    cbn [filter JSArray.filterMap].
    destruct (String.eqb k (id n)) eqn:Hk; cbn [negb JSArray.filterMap].
    + apply String.eqb_eq in Hk. rewrite IH.
      destruct (Database.getNote (SearchView.db v) k) as [m|] eqn:Hget;
        [|reflexivity].
      cbn [filter]. apply getNote_id in Hget. rewrite Hget, Hk, String.eqb_refl.
      reflexivity.
    + apply String.eqb_neq in Hk.
      rewrite (proj1 (deleteNote_other (SearchView.db v) (id n) k Hk)), IH.
      destruct (Database.getNote (SearchView.db v) k) as [m|] eqn:Hget;
        [|reflexivity].
      cbn [filter]. apply getNote_id in Hget. rewrite Hget.
      apply String.eqb_neq in Hk. rewrite Hk. reflexivity.
Qed.

(** ** The terms of a query *)

Lemma spaceFree_app (s s' : string) :
  Spec.spaceFree (s ++ s') = andb (Spec.spaceFree s) (Spec.spaceFree s').
Proof.
  induction s as [|c s IH]; simpl; [reflexivity|].
  rewrite IH, andb_assoc. reflexivity.
Qed.

Lemma splitFrom_spaceFree (s : string) :
  forall (cur : string) (inRun : bool) (field : string),
    Spec.spaceFree cur = true ->
    In field (JSString.splitFrom cur inRun s) ->
    Spec.spaceFree field = true.
Proof.
  induction s as [|c s IH]; intros cur inRun field Hcur Hin; simpl in Hin.
  - destruct Hin as [<- | []]. exact Hcur.
  - destruct (JSString.isSpace c) eqn:Hc.
    + destruct inRun.
      * apply (IH cur true field Hcur Hin).
      * destruct Hin as [<- | Hin]; [exact Hcur|].
        apply (IH EmptyString true field eq_refl Hin).
    + apply (IH (cur ++ String c EmptyString)%string false field); [|exact Hin].
      rewrite spaceFree_app, Hcur. simpl. rewrite Hc. reflexivity.
Qed.

(** X23: The terms that [parseSearchQuery] hands to the searches hold no white
    space and are not empty; those of a keyword query have two characters
    at least; and a query is a tag query only when it begins with [tag:],
    in any case of the letters. *)
Theorem parseSearchQuery_terms (query term : string) :
  In term (SearchView.terms (SearchView.parseSearchQuery query)) ->
  Spec.spaceFree term = true
  /\ (1 <= String.length term)%nat
  /\ (SearchView.type (SearchView.parseSearchQuery query) = SearchView.KeywordQuery ->
      (2 <= String.length term)%nat)
  /\ (SearchView.type (SearchView.parseSearchQuery query) = SearchView.TagQuery ->
      JSString.toLowerCase (String.substring 0 4 query) = "tag:"%string).
Proof.
  unfold SearchView.parseSearchQuery.
  destruct (SearchView.matchTag query) as [group|] eqn:Hmatch;
    cbn [SearchView.terms SearchView.type]; intros Hin;
    apply filter_In in Hin; destruct Hin as (Hin & Hlen);
    apply Nat.ltb_lt in Hlen;
    apply (splitFrom_spaceFree _ EmptyString false term eq_refl) in Hin.
  - split; [exact Hin|]. split; [lia|]. split; [discriminate|].
    intros _. unfold SearchView.matchTag in Hmatch.
    destruct (String.eqb _ "tag:") eqn:Hprefix; [|discriminate].
    apply String.eqb_eq, Hprefix.
  - split; [exact Hin|]. split; [lia|]. split; [intros _; lia | discriminate].
Qed.

Lemma parseSearchQuery_terms_witness :
  Spec.spaceFree "hooks" = true
  /\ (1 <= String.length "hooks")%nat
  /\ (SearchView.type (SearchView.parseSearchQuery "TAG:  react   hooks")
      = SearchView.KeywordQuery ->
      (2 <= String.length "hooks")%nat)
  /\ (SearchView.type (SearchView.parseSearchQuery "TAG:  react   hooks")
      = SearchView.TagQuery ->
      JSString.toLowerCase (String.substring 0 4 "TAG:  react   hooks")
      = "tag:"%string).
Proof.
  apply (parseSearchQuery_terms "TAG:  react   hooks" "hooks").
  simpl. right. left. reflexivity.
Defined.

(** * Formatting *)

(** ** Strings *)

Lemma length_append (s s' : string) :
  String.length (s ++ s') = (String.length s + String.length s')%nat.
Proof. induction s as [|c s IH]; simpl; [reflexivity | rewrite IH; reflexivity]. Qed.

Lemma append_assoc (s s' s'' : string) : ((s ++ s') ++ s'' = s ++ (s' ++ s''))%string.
Proof. induction s as [|c s IH]; simpl; [reflexivity | rewrite IH; reflexivity]. Qed.

Lemma append_empty (s : string) : (s ++ "")%string = s.
Proof. induction s as [|c s IH]; simpl; [reflexivity | rewrite IH; reflexivity]. Qed.

Lemma length_trimStart (s : string) :
  (String.length (JSString.trimStart s) <= String.length s)%nat.
Proof.
  induction s as [|c s IH]; simpl; [lia|].
  destruct (JSString.isSpace c); simpl; lia.
Qed.

Lemma length_trimEnd (s : string) :
  (String.length (JSString.trimEnd s) <= String.length s)%nat.
Proof.
  induction s as [|c s IH]; simpl; [lia|].
  destruct (JSString.trimEnd s); simpl in *; [destruct (JSString.isSpace c); simpl|];
    lia.
Qed.

Lemma length_trim (s : string) :
  (String.length (JSString.trim s) <= String.length s)%nat.
Proof.
  unfold JSString.trim.
  pose proof (length_trimEnd (JSString.trimStart s)). pose proof (length_trimStart s).
  lia.
Qed.

Lemma length_substring0 (n : nat) :
  forall s, String.length (String.substring 0 n s) = Nat.min n (String.length s).
Proof.
  induction n as [|n IH]; intros [|c s]; simpl; try reflexivity.
  rewrite IH. reflexivity.
Qed.

Lemma substring0_prefix (n : nat) :
  forall s, exists tail, s = (String.substring 0 n s ++ tail)%string.
Proof.
  induction n as [|n IH]; intros [|c s]; simpl.
  - exists EmptyString. reflexivity.
  - exists (String c s). reflexivity.
  - exists EmptyString. reflexivity.
  - destruct (IH s) as (tail & Htail). exists tail. rewrite <- Htail. reflexivity.
Qed.

(** ** [truncate] *)

(** X24: With room for the ellipsis, the text that [truncate] returns fits in
    [maxLength] characters: a text that fits comes back as it is, a longer
    one is cut to its first [maxLength - 3] characters, trimmed and
    followed by the three dots. *)
Theorem truncate_fits (text : string) (maxLength : nat) :
  (3 <= maxLength)%nat ->
  (String.length (Formatters.truncate text maxLength) <= maxLength)%nat
  /\ ((String.length text <= maxLength)%nat ->
      Formatters.truncate text maxLength = text)
  /\ ((maxLength < String.length text)%nat ->
      Formatters.truncate text maxLength
      = (JSString.trim (String.substring 0 (maxLength - 3) text) ++ "...")%string).
Proof.
  intros Hroom. unfold Formatters.truncate.
  assert (Hslice : (maxLength < String.length text)%nat ->
                   Formatters.slice0 text (Z.of_nat maxLength - 3)
                   = String.substring 0 (maxLength - 3) text).
  { intros Hlong. unfold Formatters.slice0.
    destruct (Z.ltb_spec (Z.of_nat maxLength - 3) 0) as [Hneg | _]; [lia|].
    f_equal. lia. }
  destruct (String.eqb text "") eqn:Hempty; simpl.
  - apply String.eqb_eq in Hempty. subst text. simpl.
    split; [lia|]. split; [reflexivity | lia].
  - destruct (Nat.leb_spec (String.length text) maxLength) as [Hshort | Hlong].
    + split; [exact Hshort|]. split; [reflexivity | lia].
    + rewrite (Hslice Hlong). split; [|split; [lia | reflexivity]].
      rewrite length_append. simpl.
      pose proof (length_trim (String.substring 0 (maxLength - 3) text)) as Htrim.
      rewrite length_substring0 in Htrim. lia.
Qed.

Lemma truncate_fits_witness :
  (String.length (Formatters.truncate "semantic search" 10) <= 10)%nat
  /\ ((String.length "semantic search" <= 10)%nat ->
      Formatters.truncate "semantic search" 10 = "semantic search"%string)
  /\ ((10 < String.length "semantic search")%nat ->
      Formatters.truncate "semantic search" 10
      = (JSString.trim (String.substring 0 (10 - 3) "semantic search") ++ "...")%string).
Proof.
  apply (truncate_fits "semantic search" 10). lia.
Defined.

(** ** [formatRelativeTime] *)

Lemma formatRelativeTime_age (now timestamp : Z) :
  ((now - timestamp) / 1000 / 60 = (now - timestamp) / 60000
   /\ (now - timestamp) / 1000 / 60 / 60 = (now - timestamp) / 3600000
   /\ (now - timestamp) / 1000 / 60 / 60 / 24 = (now - timestamp) / 86400000)%Z.
Proof. rewrite !Z.div_div by lia. simpl. auto. Qed.

(** X25: What [formatRelativeTime] prints, by the age of the timestamp: the
    whole minutes under an hour, the whole hours under a day, the whole
    days under a week, the whole weeks under 28 days, then the months of
    30 days under 360 days and the years of 365 days beyond.  The two last
    scales start below their unit: an age of 28 or 29 days prints as 0
    months, and an age of 360 to 364 days as 0 years. *)
Theorem formatRelativeTime_scales (now timestamp : Z) :
  let age := (now - timestamp)%Z in
  let days := (age / 86400000)%Z in
  ((age < 60000)%Z -> Formatters.formatRelativeTime now timestamp = "just now"%string)
  /\ ((60000 <= age < 3600000)%Z ->
      Formatters.formatRelativeTime now timestamp
      = (Formatters.showInt (age / 60000) ++ "m ago")%string)
  /\ ((3600000 <= age < 86400000)%Z ->
      Formatters.formatRelativeTime now timestamp
      = (Formatters.showInt (age / 3600000) ++ "h ago")%string)
  /\ ((1 <= days < 7)%Z ->
      Formatters.formatRelativeTime now timestamp
      = (Formatters.showInt days ++ "d ago")%string)
  /\ ((7 <= days < 28)%Z ->
      Formatters.formatRelativeTime now timestamp
      = (Formatters.showInt (days / 7) ++ "w ago")%string)
  /\ ((30 <= days < 360)%Z ->
      Formatters.formatRelativeTime now timestamp
      = (Formatters.showInt (days / 30) ++ "mo ago")%string)
  /\ ((365 <= days)%Z ->
      Formatters.formatRelativeTime now timestamp
      = (Formatters.showInt (days / 365) ++ "y ago")%string)
  /\ ((28 <= days < 30)%Z ->
      Formatters.formatRelativeTime now timestamp = "0mo ago"%string)
  /\ ((360 <= days < 365)%Z ->
      Formatters.formatRelativeTime now timestamp = "0y ago"%string).
Proof.
  intros age days. unfold Formatters.formatRelativeTime.
  destruct (formatRelativeTime_age now timestamp) as (Hm & Hh & Hd).
  fold age in Hm, Hh, Hd |- *. rewrite Hd, Hh, Hm. fold days.
  assert (Hs : (age / 1000 <? 60)%Z = (age <? 60000)%Z).
  { destruct (Z.ltb_spec (age / 1000) 60), (Z.ltb_spec age 60000);
      try reflexivity; exfalso; PreOmega.Z.div_mod_to_equations; lia. }
  rewrite Hs.
  repeat split; intros Hrange;
    repeat match goal with
      | |- context [(?x <? ?y)%Z] =>
          let H := fresh "H" in
          destruct (Z.ltb_spec x y) as [H | H]
      end;
    try reflexivity;
    try (exfalso; unfold days in *; PreOmega.Z.div_mod_to_equations; lia).
  - replace (days / 30)%Z with 0%Z
      by (symmetry; apply Z.div_small; lia).
    reflexivity.
  - replace (days / 365)%Z with 0%Z
      by (symmetry; apply Z.div_small; lia).
    reflexivity.
Qed.

(** ** [parseTags] and [formatTags] *)

Section Tags.

Import Formatters.

Lemma separator_is_space (c : ascii) :
  isTagSeparator c = false -> JSString.isSpace c = false.
Proof. unfold isTagSeparator. intros H. apply orb_false_iff in H. apply H. Qed.

Lemma isTagSeparator_lowerChar (c : ascii) :
  isTagSeparator (JSString.lowerChar c) = isTagSeparator c.
Proof. destruct c as [[] [] [] [] [] [] [] []]; reflexivity. Qed.

Lemma separatorFree_app (s s' : string) :
  Spec.separatorFree (s ++ s')
  = andb (Spec.separatorFree s) (Spec.separatorFree s').
Proof.
  induction s as [|c s IH]; simpl; [reflexivity|].
  rewrite IH, andb_assoc. reflexivity.
Qed.

Lemma separatorFree_toLowerCase (s : string) :
  Spec.separatorFree (JSString.toLowerCase s) = Spec.separatorFree s.
Proof.
  induction s as [|c s IH]; simpl; [reflexivity|].
  rewrite isTagSeparator_lowerChar, IH. reflexivity.
Qed.

Lemma toLowerCase_idempotent (s : string) :
  JSString.toLowerCase (JSString.toLowerCase s) = JSString.toLowerCase s.
Proof.
  induction s as [|c s IH]; simpl; [reflexivity|].
  rewrite lowerChar_idempotent, IH. reflexivity.
Qed.

Lemma length_toLowerCase (s : string) :
  String.length (JSString.toLowerCase s) = String.length s.
Proof. induction s as [|c s IH]; simpl; [reflexivity | rewrite IH; reflexivity]. Qed.

Lemma separatorFree_stripHash (t : string) :
  Spec.separatorFree t = true -> Spec.separatorFree (stripHash t) = true.
Proof.
  destruct t as [|c t]; simpl; [reflexivity|].
  intros H. apply andb_true_iff in H.
  destruct (Ascii.eqb c "#"); [apply H|]. simpl. apply andb_true_iff, H.
Qed.

Lemma trimEnd_separatorFree (t : string) :
  Spec.separatorFree t = true -> JSString.trimEnd t = t.
Proof.
  induction t as [|c t IH]; simpl; [reflexivity|].
  intros H. apply andb_true_iff in H. destruct H as (Hc & Ht).
  apply negb_true_iff, separator_is_space in Hc.
  rewrite (IH Ht), Hc. destruct t; reflexivity.
Qed.

Lemma trim_separatorFree (t : string) :
  Spec.separatorFree t = true -> JSString.trim t = t.
Proof.
  intros H. unfold JSString.trim.
  assert (Hstart : JSString.trimStart t = t).
  { destruct t as [|c t]; simpl; [reflexivity|].
    simpl in H. apply andb_true_iff in H. destruct H as (Hc & _).
    apply negb_true_iff, separator_is_space in Hc. rewrite Hc. reflexivity. }
  rewrite Hstart. apply trimEnd_separatorFree, H.
Qed.

Lemma splitTagsFrom_separatorFree (s : string) :
  forall (cur : string) (inRun : bool) (field : string),
    Spec.separatorFree cur = true ->
    In field (splitTagsFrom cur inRun s) ->
    Spec.separatorFree field = true.
Proof.
  induction s as [|c s IH]; intros cur inRun field Hcur Hin; simpl in Hin.
  - destruct Hin as [<- | []]. exact Hcur.
  - destruct (isTagSeparator c) eqn:Hc.
    + destruct inRun.
      * apply (IH cur true field Hcur Hin).
      * destruct Hin as [<- | Hin]; [exact Hcur|].
        apply (IH EmptyString true field eq_refl Hin).
    + apply (IH (cur ++ String c EmptyString)%string false field); [|exact Hin].
      rewrite separatorFree_app, Hcur. simpl. rewrite Hc. reflexivity.
Qed.

(** The filter of [parseTags] keeps the first occurrence of each tag. *)
Lemma indexOfFrom_app_in (x : string) (suf : list string) (pre : list string) :
  forall i, In x pre ->
            exists j, indexOfFrom i (pre ++ suf) x = Some j
                      /\ (j < i + List.length pre)%nat.
Proof.
  induction pre as [|y pre IH]; intros i Hin; [contradiction|]. simpl.
  destruct (String.eqb x y) eqn:Heq.
  - exists i. split; [reflexivity | lia].
  - destruct Hin as [-> | Hin]; [rewrite String.eqb_refl in Heq; discriminate|].
    destruct (IH (S i) Hin) as (j & Hj & Hlt). exists j. split; [exact Hj | lia].
Qed.

Lemma indexOfFrom_app_out (x : string) (rest : list string) (pre : list string) :
  forall i, ~ In x pre ->
            indexOfFrom i (pre ++ x :: rest) x = Some (i + List.length pre)%nat.
Proof.
  induction pre as [|y pre IH]; intros i Hout; simpl.
  - rewrite String.eqb_refl, Nat.add_0_r. reflexivity.
  - destruct (String.eqb x y) eqn:Heq.
    + apply String.eqb_eq in Heq. exfalso. apply Hout. left. symmetry. exact Heq.
    + rewrite IH by (intros H; apply Hout; right; exact H).
      f_equal. lia.
Qed.

Lemma isFirst_spec (pre : list string) (x : string) (rest : list string) :
  isFirst (pre ++ x :: rest) x (List.length pre) = true <-> ~ In x pre.
Proof.
  unfold isFirst, indexOf. destruct (in_dec string_dec x pre) as [Hin | Hout].
  - destruct (indexOfFrom_app_in x (x :: rest) pre 0 Hin) as (j & Hj & Hlt).
    rewrite Hj. split; [|contradiction].
    intros H. apply Nat.eqb_eq in H. lia.
  - rewrite (indexOfFrom_app_out x rest pre 0 Hout). simpl.
    rewrite Nat.eqb_refl. split; auto.
Qed.

Lemma filterIndexed_first (arr suf : list string) :
  forall pre,
    arr = pre ++ suf ->
    (forall x, In x (filterIndexed (isFirst arr) (List.length pre) suf)
               <-> In x suf /\ ~ In x pre)
    /\ NoDup (filterIndexed (isFirst arr) (List.length pre) suf)
    /\ (NoDup (pre ++ suf) ->
        filterIndexed (isFirst arr) (List.length pre) suf = suf).
Proof.
  induction suf as [|x suf IH]; intros pre Harr.
  - simpl. split; [intros x; tauto|]. split; [constructor | reflexivity].
  - assert (Harr' : arr = (pre ++ [x]) ++ suf)
      by (rewrite <- app_assoc; exact Harr).
    destruct (IH (pre ++ [x]) Harr') as (Hmem & Hnd & Hid).
    rewrite length_app in Hmem, Hnd, Hid. simpl in Hmem, Hnd, Hid.
    rewrite Nat.add_1_r in Hmem, Hnd, Hid.
    cbn [filterIndexed]. pose proof (isFirst_spec pre x suf) as Hfirst.
    rewrite <- Harr in Hfirst.
    destruct (isFirst arr x (List.length pre)) eqn:Hx.
    + assert (Hout : ~ In x pre) by (apply Hfirst; reflexivity).
      split; [|split].
      * intros y. simpl. rewrite Hmem, in_app_iff. simpl. split.
        -- intros [<- | (Hy & Hnot)]; [auto|]. split; [right; exact Hy|].
           intros H. apply Hnot. left. exact H.
        -- intros ([<- | Hy] & Hnot); [left; reflexivity|].
           destruct (string_dec x y) as [-> | Hne]; [left; reflexivity|].
           right. split; [exact Hy|]. intros [H | [H | []]]; auto.
      * constructor; [|exact Hnd]. intros H. apply Hmem in H.
        destruct H as (_ & Hnot). apply Hnot, in_or_app. right. left. reflexivity.
      * intros Hall. f_equal. apply Hid. rewrite <- app_assoc. exact Hall.
    + assert (Hin : In x pre).
      { destruct (in_dec string_dec x pre) as [H | H]; [exact H|].
        apply Hfirst in H. congruence. }
      split; [|split].
      * intros y. rewrite Hmem, in_app_iff. simpl. split.
        -- intros (Hy & Hnot). split; [right; exact Hy|].
           intros H. apply Hnot. left. exact H.
        -- intros ([<- | Hy] & Hnot); [contradiction|].
           split; [exact Hy|]. intros [H | [<- | []]]; contradiction.
      * exact Hnd.
      * intros Hall. apply NoDup_remove_2 in Hall. exfalso. apply Hall.
        apply in_or_app. left. exact Hin.
Qed.

Lemma parseTags_members (input t : string) :
  In t (parseTags input) -> Spec.normalTag t.
Proof.
  unfold parseTags. destruct (String.eqb input ""); [contradiction|].
  cbv zeta. intros Hin.
  apply (proj1 (filterIndexed_first _ _ [] eq_refl)) in Hin.
  destruct Hin as (Hin & _). apply filter_In in Hin. destruct Hin as (Hin & Hlen).
  apply Nat.ltb_lt in Hlen. apply in_map_iff in Hin.
  destruct Hin as (field & <- & Hfield).
  apply (splitTagsFrom_separatorFree _ EmptyString false field eq_refl) in Hfield.
  apply separatorFree_stripHash in Hfield.
  rewrite (trim_separatorFree _ Hfield) in *.
  split; [|split].
  - intros Hempty. rewrite Hempty in Hlen. simpl in Hlen. lia.
  - rewrite separatorFree_toLowerCase. exact Hfield.
  - apply toLowerCase_idempotent.
Qed.

Lemma parseTags_NoDup (input : string) : NoDup (parseTags input).
Proof.
  unfold parseTags. destruct (String.eqb input ""); [constructor|].
  cbv zeta. apply (filterIndexed_first _ _ [] eq_refl).
Qed.

Lemma splitTagsFrom_field (p : string) :
  forall (cur : string) (inRun : bool) (s : string),
    Spec.separatorFree p = true -> p <> EmptyString ->
    splitTagsFrom cur inRun (p ++ s) = splitTagsFrom (cur ++ p) false s.
Proof.
  induction p as [|c p IH]; intros cur inRun s Hfree Hne; [congruence|].
  simpl in Hfree. apply andb_true_iff in Hfree. destruct Hfree as (Hc & Hp).
  apply negb_true_iff in Hc. cbn [append splitTagsFrom]. rewrite Hc.
  destruct p as [|c' p'].
  - reflexivity.
  - rewrite (IH _ false s Hp) by discriminate.
    rewrite append_assoc. reflexivity.
Qed.

Lemma splitTagsFrom_join (rest : list string) :
  forall (p : string) (inRun : bool),
    (forall t, In t (p :: rest) ->
               Spec.separatorFree t = true /\ t <> EmptyString) ->
    splitTagsFrom "" inRun (JSString.join " " (p :: rest)) = p :: rest.
Proof.
  induction rest as [|q rest IH]; intros p inRun Hall.
  - destruct (Hall p (or_introl eq_refl)) as (Hfree & Hne).
    cbn [JSString.join]. rewrite <- (append_empty p) at 1.
    rewrite (splitTagsFrom_field p _ inRun _ Hfree Hne). reflexivity.
  - destruct (Hall p (or_introl eq_refl)) as (Hfree & Hne).
    change (JSString.join " " (p :: q :: rest))
      with (p ++ String " " (JSString.join " " (q :: rest)))%string.
    rewrite (splitTagsFrom_field p _ inRun _ Hfree Hne).
    cbn [splitTagsFrom append]. change (isTagSeparator " ") with true. cbv iota.
    f_equal. apply IH. intros t Ht. apply Hall. right. exact Ht.
Qed.

Lemma filter_all {A : Type} (f : A -> bool) (l : list A) :
  (forall x, In x l -> f x = true) -> filter f l = l.
Proof.
  induction l as [|x l IH]; intros Hall; simpl; [reflexivity|].
  rewrite (Hall x (or_introl eq_refl)), IH; [reflexivity|].
  intros y Hy. apply Hall. right. exact Hy.
Qed.

Lemma formatTags_parseTags (tags : list string) :
  NoDup tags -> (forall t, In t tags -> Spec.normalTag t) ->
  parseTags (formatTags tags) = tags.
Proof.
  intros Hnd Hnormal. destruct tags as [|t0 tags]; [reflexivity|].
  unfold parseTags, formatTags.
  assert (Hfull : String.eqb (JSString.join " " (map (fun t => "#" ++ t)%string
                                                      (t0 :: tags))) ""
                  = false).
  { simpl. destruct (map _ tags); reflexivity. }
  rewrite Hfull. cbv zeta.
  change (map (fun t => ("#" ++ t)%string) (t0 :: tags))
    with (("#" ++ t0)%string :: map (fun t => ("#" ++ t)%string) tags).
  rewrite splitTagsFrom_join.
  - change (("#" ++ t0)%string :: map (fun t => ("#" ++ t)%string) tags)
      with (map (fun t => ("#" ++ t)%string) (t0 :: tags)).
    rewrite map_map.
    assert (Hclean : map (fun t => JSString.toLowerCase
                                     (JSString.trim (stripHash ("#" ++ t))))
                         (t0 :: tags)
                     = t0 :: tags).
    { rewrite <- (map_id (t0 :: tags)) at 2. apply map_ext_in. intros t Ht.
      destruct (Hnormal t Ht) as (_ & Hfree & Hlower). simpl.
      rewrite (trim_separatorFree t Hfree). exact Hlower. }
    rewrite Hclean.
    assert (Hnamed : filter (fun t => Nat.ltb 0 (String.length t)) (t0 :: tags)
                     = t0 :: tags).
    { apply filter_all. intros t Ht. destruct (Hnormal t Ht) as (Hne & _).
      apply Nat.ltb_lt. destruct t; [congruence | simpl; lia]. }
    rewrite Hnamed.
    apply (proj2 (proj2 (filterIndexed_first (t0 :: tags) (t0 :: tags) [] eq_refl))).
    exact Hnd.
  - intros t Ht.
    assert (Hsrc : exists t', t = ("#" ++ t')%string /\ In t' (t0 :: tags)).
    { destruct Ht as [<- | Ht]; [exists t0; split; [reflexivity | left; reflexivity]|].
      apply in_map_iff in Ht. destruct Ht as (t' & <- & Ht').
      exists t'. split; [reflexivity | right; exact Ht']. }
    destruct Hsrc as (t' & -> & Ht'). destruct (Hnormal t' Ht') as (_ & Hfree & _).
    split; [simpl; exact Hfree | discriminate].
Qed.

End Tags.

(** X26: What [parseTags] returns is in normal form: no tag comes twice, none
    is empty, none holds a comma or white space, all are in lower case.
    Printing the tags with [formatTags] and parsing the text again gives
    the same tags. *)
Theorem parseTags_normal_form (input : string) :
  NoDup (Formatters.parseTags input)
  /\ (forall t, In t (Formatters.parseTags input) -> Spec.normalTag t)
  /\ Formatters.parseTags (Formatters.formatTags (Formatters.parseTags input))
     = Formatters.parseTags input.
Proof.
  split; [apply parseTags_NoDup|]. split; [apply parseTags_members|].
  apply formatTags_parseTags; [apply parseTags_NoDup | apply parseTags_members].
Qed.

(** X27: [parseTags] undoes [formatTags] on tags in normal form, in their
    order. *)
Theorem parseTags_formatTags (tags : list string) :
  NoDup tags -> (forall t, In t tags -> Spec.normalTag t) ->
  Formatters.parseTags (Formatters.formatTags tags) = tags.
Proof. apply formatTags_parseTags. Qed.

Lemma parseTags_formatTags_witness :
  Formatters.parseTags (Formatters.formatTags ["ml"%string; "c++"%string])
  = ["ml"%string; "c++"%string].
Proof.
  apply (parseTags_formatTags ["ml"%string; "c++"%string]).
  - constructor; [intros [H | []]; discriminate|].
    constructor; [intros [] | constructor].
  - intros t [<- | [<- | []]]; (split; [discriminate | split; reflexivity]).
Defined.

(** ** [generateExcerpt] *)

Lemma lastSpaceFrom_bound (s : string) :
  forall i j, Formatters.lastSpaceFrom i s = Some j ->
              (i <= j < i + String.length s)%nat.
Proof.
  induction s as [|c s IH]; intros i j H; simpl in H; [discriminate|].
  destruct (Formatters.lastSpaceFrom (S i) s) as [k|] eqn:Hlater.
  - injection H as <-. apply IH in Hlater. simpl. lia.
  - destruct (Ascii.eqb c " "); [|discriminate]. injection H as <-. simpl. lia.
Qed.

(** X28: An excerpt is the content with each run of white space turned into
    one space and the ends trimmed, when that fits in [maxLength]
    characters.  Otherwise it is a beginning of that text followed by three
    dots: [maxLength] characters of it, or the characters before the last
    space among them when these are more than four fifths of [maxLength].
    It never has more than [maxLength + 3] characters. *)
Theorem generateExcerpt_length (content : string) (maxLength : nat) :
  (String.length (Formatters.generateExcerpt content maxLength) <= maxLength + 3)%nat
  /\ ((String.length (JSString.trim (Formatters.collapseFrom false content))
       <= maxLength)%nat ->
      Formatters.generateExcerpt content maxLength
      = JSString.trim (Formatters.collapseFrom false content))
  /\ ((maxLength
       < String.length (JSString.trim (Formatters.collapseFrom false content)))%nat ->
      exists body tail,
        Formatters.generateExcerpt content maxLength = (body ++ "...")%string
        /\ JSString.trim (Formatters.collapseFrom false content)
           = (body ++ tail)%string
        /\ (4 * maxLength <= 5 * String.length body)%nat
        /\ (String.length body <= maxLength)%nat).
Proof.
  unfold Formatters.generateExcerpt.
  destruct (String.eqb content "") eqn:Hempty.
  { apply String.eqb_eq in Hempty. subst content. simpl.
    split; [lia|]. split; [reflexivity | lia]. }
  cbv zeta.
  set (cleaned := JSString.trim (Formatters.collapseFrom false content)).
  destruct (Nat.leb_spec (String.length cleaned) maxLength) as [Hshort | Hlong].
  { split; [lia|]. split; [reflexivity | lia]. }
  set (truncated := String.substring 0 maxLength cleaned).
  assert (Hlen : String.length truncated = maxLength).
  { unfold truncated. rewrite length_substring0. lia. }
  destruct (substring0_prefix maxLength cleaned) as (rest & Hrest).
  fold truncated in Hrest.
  assert (Hwhole : exists body tail,
             (truncated ++ "...")%string = (body ++ "...")%string
             /\ cleaned = (body ++ tail)%string
             /\ (4 * maxLength <= 5 * String.length body)%nat
             /\ (String.length body <= maxLength)%nat).
  { exists truncated, rest. split; [reflexivity|]. split; [exact Hrest|]. lia. }
  destruct (Formatters.lastSpaceFrom 0 truncated) as [lastSpace|] eqn:Hlast.
  - apply lastSpaceFrom_bound in Hlast.
    destruct (Nat.ltb_spec (4 * maxLength) (5 * lastSpace)) as [Hfar | Hnear].
    + assert (Hbody : String.length (String.substring 0 lastSpace truncated)
                      = lastSpace)
        by (rewrite length_substring0; lia).
      split; [rewrite length_append, Hbody; simpl; lia|]. split; [lia|].
      intros _. destruct (substring0_prefix lastSpace truncated) as (mid & Hmid).
      exists (String.substring 0 lastSpace truncated), (mid ++ rest)%string.
      split; [reflexivity|]. split; [|lia].
      rewrite <- append_assoc, <- Hmid. exact Hrest.
    + split; [rewrite length_append, Hlen; simpl; lia|]. split; [lia|].
      intros _. exact Hwhole.
  - split; [rewrite length_append, Hlen; simpl; lia|]. split; [lia|].
    intros _. exact Hwhole.
Qed.

(** * What the search view shows *)

Lemma keywordSearch_ranked (db : Database.t) (keywords : list string) (lim : nat)
      (results : list ScoredNote) :
  Ranking.keywordSearch db keywords lim = Some (Ok results) ->
  (List.length results <= lim)%nat /\ Spec.descending results.
Proof.
  unfold Ranking.keywordSearch. destruct keywords as [|k ks].
  - intros H. injection H as <-. split; [simpl; lia|].
    intros i j a b _ Hi. destruct i; discriminate.
  - destruct (Ranking.scoreAll _ _) as [[scored|e]|]; try discriminate.
    intros H. injection H as <-. split; [rewrite length_map; apply slice0_length|].
    unfold Spec.descending. apply (sorted_nth score).
    apply (map_sorted score score).
    + intros x y Hxy. unfold Ranking.normalize. simpl.
      assert (Hpos : 0 < INR (S (List.length (map JSString.toLowerCase ks))))
        by (apply lt_0_INR; lia).
      unfold Rdiv. apply Rle_ge, Rmult_le_compat_r; [|lra].
      apply Rlt_le, Rinv_0_lt_compat, Hpos.
    + apply sorted_firstn, (sort_sorted score).
Qed.

Lemma tagSearch_ranked (db : Database.t) (terms : list string) (lim : nat) :
  (List.length (Ranking.tagSearch db terms lim) <= lim)%nat
  /\ Spec.descending (Ranking.tagSearch db terms lim)
  /\ (Database.uniqueIds db -> NoDup (Spec.ids (Ranking.tagSearch db terms lim))).
Proof.
  rewrite tagSearch_spec. unfold Spec.tagSearch. destruct terms as [|t ts].
  - split; [simpl; lia|]. split; [|constructor].
    intros i j a b _ Hi. destruct i; discriminate.
  - split; [apply firstn_le_length|]. split; [apply top_descending|].
    intros Huniq. unfold Spec.ids. rewrite <- firstn_map. apply firstn_NoDup.
    eapply Permutation_NoDup; [apply Permutation_map, sort_perm|].
    apply ids_filter. unfold Spec.ids. rewrite map_map. simpl.
    unfold Database.getAllNotes. rewrite <- firstn_map. apply firstn_NoDup, Huniq.
Qed.

Lemma hybridSearch_ranked (db : Database.t) (vs : VectorSearch.t) (q : list R)
      (keywords : list string) (o : Ranking.HybridOptions)
      (results : list ScoredNote) :
  snd (Ranking.hybridSearch db vs q keywords o) = Some (Ok results) ->
  (List.length results <= Ranking.hLimit o)%nat
  /\ Spec.descending results
  /\ NoDup (Spec.ids results).
Proof.
  intros H. apply hybridSearch_Ok in H. destruct H as (sem & kws & _ & _ & ->).
  unfold Ranking.rankMerged.
  split; [apply slice0_length|]. split; [apply top_descending|].
  unfold JSArray.slice0, Spec.ids. rewrite <- firstn_map. apply firstn_NoDup.
  eapply Permutation_NoDup; [apply Permutation_map, sort_perm|].
  fold (Spec.ids (JSMap.values (Ranking.mergeScores o sem kws))).
  rewrite (filed_ids sem kws _ (mergeScores_filed o sem kws)). apply mergeScores_keys.
Qed.

(** X29: Whatever the route, the list that [handleSearch] puts on display has
    at most 20 notes, from the highest score to the lowest, and on a store
    with one note per id no note comes twice.  The notice tells the route:
    the tag notice for a tag query, the fallback notice when the provider
    has no vector, none for the hybrid search; and the input had two
    characters at least once trimmed. *)
Theorem handleSearch_results (embed : string -> option (list R)) (db : Database.t)
        (vs vs' : VectorSearch.t) (inputValue : string)
        (shown : list ScoredNote) (notice : option string) :
  SearchView.handleSearch embed db vs inputValue
  = (vs', Some (SearchView.Results shown notice)) ->
  (List.length shown <= 20)%nat
  /\ Spec.descending shown
  /\ (Database.uniqueIds db -> NoDup (Spec.ids shown))
  /\ (2 <= String.length (JSString.trim inputValue))%nat
  /\ match SearchView.type (SearchView.parseSearchQuery (JSString.trim inputValue)),
           embed (JSString.trim inputValue) with
     | SearchView.TagQuery, _ => notice = Some SearchView.tagNotice /\ vs' = vs
     | SearchView.KeywordQuery, None =>
         notice = Some SearchView.fallbackNotice /\ vs' = vs
     | SearchView.KeywordQuery, Some _ => notice = None
     end.
Proof.
  unfold SearchView.handleSearch. cbv zeta.
  destruct (Nat.ltb_spec (String.length (JSString.trim inputValue)) 2) as [|Hlong];
    [discriminate|].
  destruct (SearchView.type _).
  - intros H. injection H as <- <- <-.
    destruct (tagSearch_ranked db
                (SearchView.terms
                   (SearchView.parseSearchQuery (JSString.trim inputValue))) 20)
      as (Hlen & Hdesc & Hnd).
    auto 10.
  - destruct (embed (JSString.trim inputValue)) as [embedding|].
    + destruct (Ranking.hybridSearch db vs embedding _ _) as [vs'' r] eqn:Hhybrid.
      destruct r as [[found|e]|]; simpl; try discriminate.
      intros H. injection H as <- <- <-.
      assert (Hsnd : snd (Ranking.hybridSearch db vs embedding
                            (SearchView.terms
                               (SearchView.parseSearchQuery
                                  (JSString.trim inputValue)))
                            (Ranking.mkHybrid 20 (7 / 10) (3 / 10) (3 / 10)))
                     = Some (Ok found)) by (rewrite Hhybrid; reflexivity).
      apply hybridSearch_ranked in Hsnd. simpl in Hsnd.
      destruct Hsnd as (Hlen & Hdesc & Hnd). auto 10.
    + destruct (Ranking.keywordSearch db _ 20) as [[found|e]|] eqn:Hkeyword;
        simpl; try discriminate.
      intros H. injection H as <- <- <-.
      destruct (keywordSearch_ranked _ _ _ _ Hkeyword) as (Hlen & Hdesc).
      split; [exact Hlen|]. split; [exact Hdesc|].
      split; [intros Huniq; apply (keywordSearch_ids _ _ _ _ Huniq Hkeyword)|].
      auto.
Qed.

Lemma handleSearch_javascript :
  SearchView.handleSearch (fun _ => None) Examples.javascriptNotes VectorSearch.new
    "tag:javascript"
  = (VectorSearch.new,
     Some (SearchView.Results
             [mkScored Examples.noteExact 2; mkScored Examples.noteFrameworks 1]
             (Some SearchView.tagNotice))).
Proof.
  rewrite <- tagSearch_javascript. reflexivity.
Qed.

Lemma handleSearch_results_witness :
  (List.length [mkScored Examples.noteExact 2; mkScored Examples.noteFrameworks 1]
   <= 20)%nat
  /\ Spec.descending [mkScored Examples.noteExact 2; mkScored Examples.noteFrameworks 1]
  /\ (Database.uniqueIds Examples.javascriptNotes ->
      NoDup (Spec.ids [mkScored Examples.noteExact 2;
                       mkScored Examples.noteFrameworks 1]))
  /\ (2 <= String.length (JSString.trim "tag:javascript"))%nat
  /\ (Some SearchView.tagNotice = Some SearchView.tagNotice
      /\ VectorSearch.new = VectorSearch.new).
Proof.
  exact (handleSearch_results (fun _ => None) Examples.javascriptNotes
           VectorSearch.new VectorSearch.new "tag:javascript"
           [mkScored Examples.noteExact 2; mkScored Examples.noteFrameworks 1]
           (Some SearchView.tagNotice) handleSearch_javascript).
Defined.
